(** * Graffiti client: subscription registry, object cache and optimistic updates

    A shallow embedding of [graffiti.js].  The file holds two revisions of the
    same client class:

    - the tag revision (fields [tagMap]/[objectMap], objects identified by
      [_by + _key] and filed under [_tags]), embedded in [Module Tags];
    - the context revision (fields [contextMap]/[objectMap], objects
      identified by [id] and filed under [context]), embedded in
      [Module Contexts].

    Modelling conventions.
    - The registry and the cache are objects made by [{}] and used as
      dictionaries.  A [gmap string _] holds their own properties; what a
      lookup or an [in] test finds beyond them on [Object.prototype] is
      given by [property].  The enumeration order of the own keys
      ([Object.keys], [for ... in]) is the order of [map_to_list], so
      statements about enumerated keys are up to permutation.
    - The code can write to the prototype chain in two ways, both through
      the name [__proto__].  As a label it reaches [Object.prototype],
      which then acquires a [count] property: the flag [protoCount].  As a
      cache identifier it replaces the prototype of the cache by the
      installed proxy: the field [cacheProto].  Lookups in the cache are
      followed up to that replacement and not through the replaced
      prototype, so statements that read or fill the cache are made for
      states with [cacheProto = None].
    - A JS [Set] of strings is a duplicate-free list in insertion order.
    - An object handle is a [ref]: either the raw object or a [Proxy] around
      another handle.
    - A method is a function [state -> result * state]; a [throw] keeps the
      state reached so far.
    - The server's answer to a request is an argument of the method that
      awaits it; the continuation of the [await] runs directly after the
      send, so no other event is interleaved.
    - The [messageID] stamped on a frame by [crypto.randomUUID] is not part
      of the recorded frame. *)

From stdpp Require Import gmap strings list fin_maps.
From Stdlib Require Import ZArith.

Local Open Scope Z_scope.

(** ** Values shared by both revisions *)

Inductive error : Type :=
  | NotConnected      (* "Can't make request! Not connected to graffiti server" *)
  | IdentityError     (* object without owner or key *)
  | TypeError         (* property access on undefined, illegal redefinition *)
  | ServerError.      (* an error frame sent by the server *)

Inductive result (A : Type) : Type :=
  | Ok (a : A)
  | Throw (e : error).
Arguments Ok {A} a.
Arguments Throw {A} e.

(** Object handles: [new Proxy(target, handler)] adds one layer. *)
Inductive ref (A : Type) : Type :=
  | Raw (a : A)
  | Proxy (target : ref A).
Arguments Raw {A} a.
Arguments Proxy {A} target.

Fixpoint deref {A} (r : ref A) : A :=
  match r with
  | Raw a => a
  | Proxy t => deref t
  end.


(** In-place change of the object behind a handle. *)
Fixpoint on_target {A} (f : A → A) (r : ref A) : ref A :=
  match r with
  | Raw a => Raw (f a)
  | Proxy t => Proxy (on_target f t)
  end.

(** [Set.prototype.add], [delete] and [has] on an insertion-ordered set. *)
Definition set_add (x : string) (l : list string) : list string :=
  if decide (x ∈ l) then l else l ++ [x].

Definition set_delete (x : string) (l : list string) : list string :=
  filter (λ y, y ≠ x) l.

Definition set_has (x : string) (l : list string) : bool :=
  bool_decide (x ∈ l).

(** [[...new Set(l)]] *)
Definition dedupe (l : list string) : list string :=
  foldl (λ acc x, set_add x acc) [] l.

(** [labels.filter(l => l != null)] *)
Definition non_null (l : list (option string)) : list string :=
  omap id l.

(** Truthiness of a possibly missing string property. *)
Definition truthy (v : option string) : bool :=
  match v with
  | Some s => negb (bool_decide (s = ""))
  | None => false
  end.

(** Outbound messages handed to [#request]. *)
Inductive message (O : Type) : Type :=
  | ReqUpdate (o : O)
  | ReqRemove (key : option string)
  | ReqSubscribe (labels : list string)
  | ReqUnsubscribe (labels : list string)
  | ReqLs
  | ReqGet (userID objectKey : string).
Arguments ReqUpdate {O} o.
Arguments ReqRemove {O} key.
Arguments ReqSubscribe {O} labels.
Arguments ReqUnsubscribe {O} labels.
Arguments ReqLs {O}.
Arguments ReqGet {O} userID objectKey.

(** Inbound frames seen by [#onMessage]. *)
Inductive frame (O : Type) : Type :=
  | FReply (messageID : string)
  | FUpdate (o : O)
  | FRemove (o : O)
  | FError (reason : string)
  | FOther.
Arguments FReply {O} messageID.
Arguments FUpdate {O} o.
Arguments FRemove {O} o.
Arguments FError {O} reason.
Arguments FOther {O}.

(** What the server answers to a request: a [reply] payload or an error. *)
Definition answer : Type := result (list string).

(** ** Dictionaries made by [{}] *)

(** The methods that every object inherits from [Object.prototype]. *)
Definition prototype_methods : list string :=
  ["constructor"; "__defineGetter__"; "__defineSetter__"; "hasOwnProperty";
   "__lookupGetter__"; "__lookupSetter__"; "isPrototypeOf";
   "propertyIsEnumerable"; "toString"; "valueOf"; "toLocaleString"].

(** A value found on the prototype. *)
Inductive inherited : Type :=
  | Method        (* one of the methods above: a function *)
  | Prototype     (* the accessor [__proto__]: reads as [Object.prototype] *)
  | NotANumber.   (* [count], once [Object.prototype] has that property: NaN *)

(** What [Object.prototype] holds under the name [k]; [polluted] tells
    whether it has acquired the property [count]. *)
Definition inherits (polluted : bool) (k : string) : option inherited :=
  if bool_decide (k = "__proto__") then Some Prototype
  else if bool_decide (k ∈ prototype_methods) then Some Method
  else if polluted && bool_decide (k = "count") then Some NotANumber
  else None.

(** The outcome of the lookup [m[k]]: an own property, an inherited value,
    or [undefined].  The test [k in m] holds in the first two cases. *)
Inductive slot (A : Type) : Type :=
  | Own (a : A)
  | Inherited (v : inherited)
  | Missing.
Arguments Own {A} a.
Arguments Inherited {A} v.
Arguments Missing {A}.

Definition property {A} (polluted : bool) (m : gmap string A) (k : string)
    : slot A :=
  match m !! k with
  | Some a => Own a
  | None =>
      match inherits polluted k with
      | Some v => Inherited v
      | None => Missing
      end
  end.

(** [k in m] *)
Definition has_property {A} (polluted : bool) (m : gmap string A) (k : string)
    : bool :=
  match property polluted m k with
  | Missing => false
  | _ => true
  end.

(** What [objects] hands back: the message thrown for a label that is not
    subscribed, the TypeError raised when the matched set of an inherited
    value is spread, or the elements given to the [GraffitiArray]
    constructor, each the outcome of a lookup in the cache. *)
Inductive view (O : Type) : Type :=
  | NotSubscribed (label : string)
  | Unreadable
  | Objects (elements : list (slot (ref O))).
Arguments NotSubscribed {O} label.
Arguments Unreadable {O}.
Arguments Objects {O} elements.

(** ** Methods as state transformers with exceptions *)

Definition M (S A : Type) : Type := S → result A * S.

Definition ret {S A} (a : A) : M S A := λ s, (Ok a, s).

Definition throw {S A} (e : error) : M S A := λ s, (Throw e, s).

Definition bind {S A B} (m : M S A) (k : A → M S B) : M S B :=
  λ s, match m s with
       | (Ok a, s') => k a s'
       | (Throw e, s') => (Throw e, s')
       end.

Definition try_catch {S A} (m : M S A) (handler : error → M S A) : M S A :=
  λ s, match m s with
       | (Ok a, s') => (Ok a, s')
       | (Throw e, s') => handler e s'
       end.

Definition gets {S A} (f : S → A) : M S A := λ s, (Ok (f s), s).

Definition modify {S} (f : S → S) : M S unit := λ s, (Ok tt, f s).

Definition lift {S A} (r : result A) : M S A := λ s, (r, s).

Notation "'let!' x ':=' m 'in' k" := (bind m (λ x, k))
  (at level 10, x name, m at level 100, k at level 200).
Notation "m ';;;' k" := (bind m (λ _, k))
  (at level 100, k at level 200, right associativity).

(** ** The tag revision *)

Module Tags.

(** [payload] holds the enumerable properties other than [_by], [_key]
    and [_tags]; an enumerable property named [_id] is among them.  The
    field [_id] is the property that [Object.defineProperty] creates:
    read-only and not enumerable. *)
Record object : Type := {
  _by : option string;
  _key : option string;
  _tags : list string;
  payload : list (string * string);
  _id : option string
}.

(** The enumerable own properties: what [Object.assign({}, o)] copies and
    what [JSON.stringify] and [JSON.parse] carry. *)
Definition enumerable (o : object) : object :=
  {| _by := _by o; _key := _key o; _tags := _tags o;
     payload := payload o; _id := None |}.

Definition assign_copy (r : ref object) : ref object :=
  Raw (enumerable (deref r)).

(** [Object.assign({}, v)] for a value [v] found on the prototype: an
    object without owner, key or tags. *)
Definition blank : object :=
  {| _by := None; _key := None; _tags := []; payload := []; _id := None |}.

Record subscription : Type := {
  uuids : list string;
  count : Z
}.

Record state : Type := {
  open : bool;
  myID : option string;
  tagMap : gmap string subscription;      (* tag->{count, Set(uuid)} *)
  objectMap : gmap string (ref object);   (* uuid->object *)
  wire : list (message object);           (* frames passed to ws.send *)
  protoCount : bool;                      (* Object.prototype.count exists *)
  cacheProto : option (ref object)        (* replaced prototype of objectMap *)
}.

Definition set_open (b : bool) (s : state) : state :=
  {| open := b; myID := myID s; tagMap := tagMap s;
     objectMap := objectMap s; wire := wire s;
     protoCount := protoCount s; cacheProto := cacheProto s |}.

Definition set_tagMap (f : gmap string subscription → gmap string subscription)
    (s : state) : state :=
  {| open := open s; myID := myID s; tagMap := f (tagMap s);
     objectMap := objectMap s; wire := wire s;
     protoCount := protoCount s; cacheProto := cacheProto s |}.

Definition set_objectMap (f : gmap string (ref object) → gmap string (ref object))
    (s : state) : state :=
  {| open := open s; myID := myID s; tagMap := tagMap s;
     objectMap := f (objectMap s); wire := wire s;
     protoCount := protoCount s; cacheProto := cacheProto s |}.

Definition send (msg : message object) (s : state) : state :=
  {| open := open s; myID := myID s; tagMap := tagMap s;
     objectMap := objectMap s; wire := wire s ++ [msg];
     protoCount := protoCount s; cacheProto := cacheProto s |}.

(** [Object.prototype.count] is written (the value is NaN). *)
Definition pollute (s : state) : state :=
  {| open := open s; myID := myID s; tagMap := tagMap s;
     objectMap := objectMap s; wire := wire s;
     protoCount := true; cacheProto := cacheProto s |}.

Definition set_cacheProto (p : ref object) (s : state) : state :=
  {| open := open s; myID := myID s; tagMap := tagMap s;
     objectMap := objectMap s; wire := wire s;
     protoCount := protoCount s; cacheProto := Some p |}.

(** [this.tagMap[tag]] and [this.objectMap[uuid]] *)
Definition tag_slot (s : state) (tag : string) : slot subscription :=
  property (protoCount s) (tagMap s) tag.

Definition cache_slot (s : state) (uuid : string) : slot (ref object) :=
  property (protoCount s) (objectMap s) uuid.

(** [this.objectMap[uuid] = value]: the name [__proto__] is the setter of
    the prototype, every other name becomes an own property. *)
Definition store (uuid : string) (value : ref object) (s : state) : state :=
  if bool_decide (uuid = "__proto__") then set_cacheProto value s
  else set_objectMap (insert uuid value) s.

(** [#request(msg)] *)
Definition request (msg : message object) (reply : answer) : M state (list string) :=
  let! is_open := gets open in
  if negb is_open then throw NotConnected
  else modify (send msg) ;;; lift reply.

(** [#objectUUID(object)] *)
Definition objectUUID (o : object) : result string :=
  if negb (truthy (_by o)) || negb (truthy (_key o)) then Throw IdentityError
  else Ok (default "" (_by o) +:+ default "" (_key o)).

(** The loop of [#updateCallback] over [object._tags]; the argument
    [subscribed] is the flag of that name.  A tag that [tagMap] inherits
    passes the [in] test and has no [uuids]. *)
Fixpoint add_uuid_loop (uuid : string) (tags : list string) (subscribed : bool)
    : M state bool :=
  match tags with
  | [] => ret subscribed
  | tag :: rest =>
      let! found := gets (λ s, tag_slot s tag) in
      match found with
      | Missing => add_uuid_loop uuid rest subscribed
      | Own sub =>
          modify (set_tagMap
                    (insert tag {| uuids := set_add uuid (uuids sub);
                                   count := count sub |})) ;;;
          add_uuid_loop uuid rest true
      | Inherited _ => throw TypeError
      end
  end.

(** The object after [Object.defineProperty(object, '_id', { value })]:
    an enumerable [_id] takes the value and stays enumerable, otherwise
    the property is created read-only and not enumerable. *)
Definition identified (uuid : string) (o : object) : object :=
  if bool_decide ("_id" ∈ (payload o).*1)
  then {| _by := _by o; _key := _key o; _tags := _tags o;
          payload := (λ kv, if bool_decide (kv.1 = "_id") then ("_id", uuid)
                            else kv) <$> payload o;
          _id := None |}
  else {| _by := _by o; _key := _key o; _tags := _tags o;
          payload := payload o; _id := Some uuid |}.

(** [Object.defineProperty(object, '_id', { value: uuid })]: redefining
    the read-only property with another value is refused. *)
Definition define_id (uuid : string) (r : ref object) : result (ref object) :=
  match _id (deref r) with
  | None => Ok (on_target (identified uuid) r)
  | Some v => if decide (v = uuid) then Ok r else Throw TypeError
  end.

(** [uuid in this.objectMap ? Object.assign({}, this.objectMap[uuid]) : null] *)
Definition snapshot (found : slot (ref object)) : option (ref object) :=
  match found with
  | Own r => Some (assign_copy r)
  | Inherited _ => Some (Raw blank)
  | Missing => None
  end.

(** [#updateCallback(object)].  The first component is the returned
    [originalObject], [None] standing for [undefined] and [null]; the
    second is the argument as the call leaves it, since the source defines
    [_id] on it in place. *)
Definition updateCallback (obj : ref object)
    : M state (option (ref object) * ref object) :=
  let! uuid := lift (objectUUID (deref obj)) in
  let! subscribed := add_uuid_loop uuid (_tags (deref obj)) false in
  if negb subscribed then ret (None, obj)
  else
    let! found := gets (λ s, cache_slot s uuid) in
    let originalObject := snapshot found in
    let! obj' := lift (define_id uuid obj) in
    modify (store uuid (Proxy obj')) ;;;
    ret (originalObject, obj').

(** The loop of [#removeCallback] over [object._tags]. *)
Fixpoint drop_uuid_loop (uuid : string) (tags : list string) : M state unit :=
  match tags with
  | [] => ret tt
  | tag :: rest =>
      let! found := gets (λ s, tag_slot s tag) in
      match found with
      | Missing => drop_uuid_loop uuid rest
      | Own sub =>
          modify (set_tagMap
                    (insert tag {| uuids := set_delete uuid (uuids sub);
                                   count := count sub |})) ;;;
          drop_uuid_loop uuid rest
      | Inherited _ => throw TypeError
      end
  end.

(** [#removeCallback(object)] *)
Definition removeCallback (obj : ref object) : M state unit :=
  let! uuid := lift (objectUUID (deref obj)) in
  drop_uuid_loop uuid (_tags (deref obj)) ;;;
  let! cached := gets (λ s, has_property (protoCount s) (objectMap s) uuid) in
  if cached then modify (set_objectMap (delete uuid))
  else ret tt.

(** [update(object)] for a plain object supplied by the caller;
    [fresh_key] is the value [crypto.randomUUID()] would produce. *)
Definition update (o : object) (fresh_key : string) (reply : answer) : M state unit :=
  let! me := gets myID in
  let o1 := {| _by := me; _key := _key o; _tags := _tags o;
               payload := payload o; _id := _id o |} in
  let o2 := if negb (truthy (_key o1))
            then {| _by := _by o1; _key := Some fresh_key; _tags := _tags o1;
                    payload := payload o1; _id := _id o1 |}
            else o1 in
  let! r := updateCallback (Raw o2) in
  let originalObject := r.1 in
  let object := r.2 in
  try_catch
    (request (ReqUpdate (enumerable (deref object))) reply ;;; ret tt)
    (λ e,
       match originalObject with
       | Some original => updateCallback original ;;; throw e
       | None => removeCallback object ;;; throw e
       end).

(** [myTags()] *)
Definition myTags (reply : answer) : M state (list string) :=
  request ReqLs reply.

(** [objectByKey(userID, objectKey)] *)
Definition objectByKey (userID objectKey : string) (reply : answer)
    : M state (list string) :=
  request (ReqGet userID objectKey) reply.

(** The loop of [subscribe]; [batch] is [subscribingTags].  For a tag that
    [tagMap] inherits, [count++] works on the inherited value: a function
    takes the property silently, [Object.prototype] takes it for every
    object, and the number NaN refuses it. *)
Fixpoint subscribe_loop (tags : list string) (batch : list string)
    : M state (list string) :=
  match tags with
  | [] => ret batch
  | tag :: rest =>
      let! found := gets (λ s, tag_slot s tag) in
      match found with
      | Own sub =>
          modify (set_tagMap
                    (insert tag {| uuids := uuids sub; count := count sub + 1 |})) ;;;
          subscribe_loop rest batch
      | Missing =>
          modify (set_tagMap (insert tag {| uuids := []; count := 1 |})) ;;;
          subscribe_loop rest (batch ++ [tag])
      | Inherited Method => subscribe_loop rest batch
      | Inherited Prototype => modify pollute ;;; subscribe_loop rest batch
      | Inherited NotANumber => throw TypeError
      end
  end.

(** [subscribe(...tags)] *)
Definition subscribe (tags : list (option string)) (reply : answer) : M state unit :=
  let tags := non_null tags in
  let! subscribingTags := subscribe_loop tags [] in
  if bool_decide (subscribingTags = []) then ret tt
  else try_catch (request (ReqSubscribe subscribingTags) reply ;;; ret tt)
                 (λ _, ret tt).

(** The body of the loop of [unsubscribe]; [batch] is [unsubscribingTags].
    On an inherited value [count--] leaves NaN, which [!] takes for zero,
    and the [delete] finds no own property. *)
Fixpoint unsubscribe_loop (tags : list string) (batch : list string)
    : M state (list string) :=
  match tags with
  | [] => ret batch
  | tag :: rest =>
      let! found := gets (λ s, tag_slot s tag) in
      match found with
      | Own sub =>
          let c := count sub - 1 in
          modify (set_tagMap (insert tag {| uuids := uuids sub; count := c |})) ;;;
          if bool_decide (c = 0)
          then modify (set_tagMap (delete tag)) ;;;
               unsubscribe_loop rest (batch ++ [tag])
          else unsubscribe_loop rest batch
      | Inherited Method => unsubscribe_loop rest (batch ++ [tag])
      | Inherited Prototype =>
          modify pollute ;;; unsubscribe_loop rest (batch ++ [tag])
      | Inherited NotANumber => throw TypeError
      | Missing => throw TypeError
      end
  end.

(** [unsubscribe(...tags)] *)
Definition unsubscribe (tags : list (option string)) (reply : answer) : M state unit :=
  let tags := non_null tags in
  let! unsubscribingTags := unsubscribe_loop tags [] in
  if bool_decide (unsubscribingTags = []) then ret tt
  else try_catch (request (ReqUnsubscribe unsubscribingTags) reply ;;; ret tt)
                 (λ _, ret tt).

Definition clear_uuids (sub : subscription) : subscription :=
  {| uuids := []; count := count sub |}.

(** [#onOpen()].  The [for ... in] over [tagMap] goes through the own keys
    and then through the enumerable properties of the prototype: a [count]
    there that no own key hides is the number NaN, which takes no
    [uuids]. *)
Definition onOpen (reply : answer) : M state unit :=
  modify (set_open true) ;;;
  modify (set_tagMap (fmap clear_uuids)) ;;;
  let! found := gets (λ s, tag_slot s "count") in
  match found with
  | Inherited NotANumber => throw TypeError
  | _ =>
      modify (set_objectMap (λ _, ∅)) ;;;
      let! tm := gets tagMap in
      let tags := (map_to_list tm).*1 in
      if bool_decide (tags = []) then ret tt
      else request (ReqSubscribe tags) reply ;;; ret tt
  end.

(** [#onClose()], up to the delayed reconnection. *)
Definition onClose : M state unit :=
  modify (set_open false).

(** [#onMessage(event)]; the frame is the parsed [event.data], which has
    enumerable properties only. *)
Definition onMessage (data : frame object) : M state unit :=
  match data with
  | FReply _ => ret tt
  | FUpdate o => updateCallback (Raw (enumerable o)) ;;; ret tt
  | FRemove o => removeCallback (Raw (enumerable o))
  | FError _ => throw ServerError
  | FOther => ret tt
  end.

(** A freshly constructed client whose socket has opened. *)
Definition connected (me : option string) : state :=
  {| open := true; myID := me; tagMap := ∅; objectMap := ∅; wire := [];
     protoCount := false; cacheProto := None |}.

(** The loop at the head of [objects]: the first tag that fails the [in]
    test, if there is one. *)
Fixpoint first_unsubscribed (s : state) (tags : list string) : option string :=
  match tags with
  | [] => None
  | tag :: rest =>
      if has_property (protoCount s) (tagMap s) tag
      then first_unsubscribed s rest
      else Some tag
  end.

(** [tags.map(tag => [...this.tagMap[tag].uuids])]; an inherited value has
    no [uuids] to spread. *)
Fixpoint matched_sets (s : state) (tags : list string)
    : option (list (list string)) :=
  match tags with
  | [] => Some []
  | tag :: rest =>
      match tag_slot s tag with
      | Own sub => cons (uuids sub) <$> matched_sets s rest
      | _ => None
      end
  end.

(** [objects(...tags)] *)
Definition objects (tags : list (option string)) (s : state) : view object :=
  let tags := non_null tags in
  match first_unsubscribed s tags with
  | Some tag => NotSubscribed tag
  | None =>
      match matched_sets s tags with
      | None => Unreadable
      | Some sets =>
          Objects ((λ uuid, cache_slot s uuid) <$> dedupe (concat sets))
      end
  end.

End Tags.

(** ** The Vue plugin *)

Module VuePlugin.

(** The watcher of the [tags] property of the [GraffitiObjects] component
    (plugin.js, lines 32-37): [handler(newTags, oldTags=[])], on a client
    of the tag revision.  Only the handler is embedded: [install] also
    calls [waitTilOpen] and [objectsByTags], which neither revision of
    graffiti.js defines. *)
Definition handler (newTags : list (option string))
    (oldTags : option (list (option string))) (reply1 reply2 : answer)
    : M Tags.state unit :=
  Tags.subscribe newTags reply1 ;;;
  Tags.unsubscribe (default [] oldTags) reply2.

End VuePlugin.

(** ** The context revision *)

Module Contexts.

(** [payload] holds the enumerable properties other than [id] and
    [context]; an enumerable property named [__graffitiProxy], as a parsed
    frame may carry, is among them.  The field [graffitiProxy] is the
    marker that [Object.defineProperty] creates: not enumerable. *)
Record object : Type := {
  id : string;
  context : list string;
  payload : list (string * string);
  graffitiProxy : bool
}.

(** The enumerable own properties: what [Object.assign({}, o)] copies and
    what [JSON.stringify] and [JSON.parse] carry. *)
Definition enumerable (o : object) : object :=
  {| id := id o; context := context o; payload := payload o;
     graffitiProxy := false |}.

Definition assign_copy (r : ref object) : ref object :=
  Raw (enumerable (deref r)).

(** [Object.defineProperty(object, '__graffitiProxy', { value: true })] *)
Definition define_marker (o : object) : object :=
  {| id := id o; context := context o; payload := payload o;
     graffitiProxy := true |}.

(** ['__graffitiProxy' in object] *)
Definition has_marker (o : object) : bool :=
  graffitiProxy o || bool_decide ("__graffitiProxy" ∈ (payload o).*1).

(** [[...object.context, object.id]] *)
Definition labels (o : object) : list string :=
  context o ++ [id o].

Record subscription : Type := {
  ids : list string;
  count : Z
}.

Record state : Type := {
  open : bool;
  contextMap : gmap string subscription;  (* context->{count, Set(id)} *)
  objectMap : gmap string (ref object);   (* uuid->object *)
  wire : list (message object);           (* frames passed to ws.send *)
  protoCount : bool;                      (* Object.prototype.count exists *)
  cacheProto : option (ref object)        (* replaced prototype of objectMap *)
}.

Definition set_open (b : bool) (s : state) : state :=
  {| open := b; contextMap := contextMap s;
     objectMap := objectMap s; wire := wire s;
     protoCount := protoCount s; cacheProto := cacheProto s |}.

Definition set_contextMap
    (f : gmap string subscription → gmap string subscription)
    (s : state) : state :=
  {| open := open s; contextMap := f (contextMap s);
     objectMap := objectMap s; wire := wire s;
     protoCount := protoCount s; cacheProto := cacheProto s |}.

Definition set_objectMap (f : gmap string (ref object) → gmap string (ref object))
    (s : state) : state :=
  {| open := open s; contextMap := contextMap s;
     objectMap := f (objectMap s); wire := wire s;
     protoCount := protoCount s; cacheProto := cacheProto s |}.

Definition send (msg : message object) (s : state) : state :=
  {| open := open s; contextMap := contextMap s;
     objectMap := objectMap s; wire := wire s ++ [msg];
     protoCount := protoCount s; cacheProto := cacheProto s |}.

(** [Object.prototype.count] is written (the value is NaN). *)
Definition pollute (s : state) : state :=
  {| open := open s; contextMap := contextMap s;
     objectMap := objectMap s; wire := wire s;
     protoCount := true; cacheProto := cacheProto s |}.

Definition set_cacheProto (p : ref object) (s : state) : state :=
  {| open := open s; contextMap := contextMap s;
     objectMap := objectMap s; wire := wire s;
     protoCount := protoCount s; cacheProto := Some p |}.

(** [this.contextMap[context]] and [this.objectMap[id]] *)
Definition context_slot (s : state) (ctx : string) : slot subscription :=
  property (protoCount s) (contextMap s) ctx.

Definition cache_slot (s : state) (oid : string) : slot (ref object) :=
  property (protoCount s) (objectMap s) oid.

(** [this.objectMap[id] = value]: the name [__proto__] is the setter of
    the prototype, every other name becomes an own property. *)
Definition store (oid : string) (value : ref object) (s : state) : state :=
  if bool_decide (oid = "__proto__") then set_cacheProto value s
  else set_objectMap (insert oid value) s.

(** [#request(msg)] *)
Definition request (msg : message object) (reply : answer) : M state (list string) :=
  let! is_open := gets open in
  if negb is_open then throw NotConnected
  else modify (send msg) ;;; lift reply.

(** The loop of [#updateCallback] over [[...object.context, object.id]];
    the argument [subscribed] is the flag of that name.  A context that
    [contextMap] inherits passes the [in] test and has no [ids]. *)
Fixpoint add_id_loop (oid : string) (contexts : list string) (subscribed : bool)
    : M state bool :=
  match contexts with
  | [] => ret subscribed
  | ctx :: rest =>
      let! found := gets (λ s, context_slot s ctx) in
      match found with
      | Missing => add_id_loop oid rest subscribed
      | Own sub =>
          modify (set_contextMap
                    (insert ctx {| ids := set_add oid (ids sub);
                                   count := count sub |})) ;;;
          add_id_loop oid rest true
      | Inherited _ => throw TypeError
      end
  end.

(** The wrapping step of [#updateCallback]. *)
Definition wrap (obj : ref object) : ref object :=
  if has_marker (deref obj) then obj
  else Proxy (on_target define_marker obj).

(** [#updateCallback(object)] *)
Definition updateCallback (obj : ref object) : M state (ref object) :=
  let! subscribed := add_id_loop (id (deref obj)) (labels (deref obj)) false in
  let obj' := wrap obj in
  (if subscribed
   then modify (store (id (deref obj')) obj')
   else ret tt) ;;;
  ret obj'.

(** One iteration of the loop of [#removeCallback] over an own key; the
    accumulator is the context map and the [supported] flag. *)
Definition drop_id (o : object)
    (acc : gmap string subscription * bool) (ctx : string)
    : gmap string subscription * bool :=
  match acc.1 !! ctx with
  | None => acc
  | Some sub =>
      if set_has (id o) (ids sub) then
        if bool_decide (ctx ∈ labels o)
        then (<[ctx := {| ids := set_delete (id o) (ids sub);
                          count := count sub |}]> acc.1, acc.2)
        else (acc.1, true)
      else acc
  end.

(** [#removeCallback(object)].  The [for ... in] over [contextMap] goes
    through the own keys and then through the enumerable properties of the
    prototype: a [count] there that no own key hides is the number NaN,
    which has no [ids]. *)
Definition removeCallback (obj : ref object) : M state unit :=
  let o := deref obj in
  let! cm := gets contextMap in
  let r := foldl (drop_id o) (cm, false) (map_to_list cm).*1 in
  modify (set_contextMap (λ _, r.1)) ;;;
  let! found := gets (λ s, context_slot s "count") in
  match found with
  | Inherited NotANumber => throw TypeError
  | _ =>
      let supported := r.2 in
      let! cached := gets (λ s, has_property (protoCount s) (objectMap s) (id o)) in
      if negb supported && cached
      then modify (set_objectMap (delete (id o)))
      else ret tt
  end.

(** [#post(object)] for a plain object supplied by the caller.  The result
    is the completion of the request promise: the handle on success, the
    rethrown error after the [catch] handler has run. *)
Definition post (o : object) (reply : answer) : M state (ref object) :=
  let o1 := {| id := id o; context := dedupe (context o);
               payload := payload o; graffitiProxy := graffitiProxy o |} in
  let! obj := updateCallback (Raw o1) in
  try_catch
    (request (ReqUpdate (enumerable (deref obj))) reply ;;; ret obj)
    (λ e, removeCallback obj ;;; throw e).

(** [#remove(object)], with the completion of the request promise as
    result. *)
Definition remove (obj : ref object) (reply : answer) : M state bool :=
  let originalObject := assign_copy obj in
  removeCallback obj ;;;
  try_catch
    (request (ReqRemove (Some (id (deref obj)))) reply ;;; ret true)
    (λ e, updateCallback originalObject ;;; throw e).

(** [myContexts()] *)
Definition myContexts (reply : answer) : M state (list string) :=
  request ReqLs reply.

(** The loop of [subscribe]; [batch] is [subscribingContexts].  For a
    context that [contextMap] inherits, [count++] works on the inherited
    value: a function takes the property silently, [Object.prototype]
    takes it for every object, and the number NaN refuses it. *)
Fixpoint subscribe_loop (contexts : list string) (batch : list string)
    : M state (list string) :=
  match contexts with
  | [] => ret batch
  | ctx :: rest =>
      let! found := gets (λ s, context_slot s ctx) in
      match found with
      | Own sub =>
          modify (set_contextMap
                    (insert ctx {| ids := ids sub; count := count sub + 1 |})) ;;;
          subscribe_loop rest batch
      | Missing =>
          modify (set_contextMap (insert ctx {| ids := []; count := 1 |})) ;;;
          subscribe_loop rest (batch ++ [ctx])
      | Inherited Method => subscribe_loop rest batch
      | Inherited Prototype => modify pollute ;;; subscribe_loop rest batch
      | Inherited NotANumber => throw TypeError
      end
  end.

(** [subscribe(contexts)] *)
Definition subscribe (contexts : list (option string)) (reply : answer)
    : M state unit :=
  let contexts := non_null contexts in
  let! subscribingContexts := subscribe_loop contexts [] in
  if bool_decide (subscribingContexts = []) then ret tt
  else try_catch (request (ReqSubscribe subscribingContexts) reply ;;; ret tt)
                 (λ _, ret tt).

(** First loop of [unsubscribe]: [this.contextMap[context].count--]. *)
Fixpoint decrement_loop (contexts : list string) : M state unit :=
  match contexts with
  | [] => ret tt
  | ctx :: rest =>
      let! found := gets (λ s, context_slot s ctx) in
      match found with
      | Own sub =>
          modify (set_contextMap
                    (insert ctx {| ids := ids sub; count := count sub - 1 |})) ;;;
          decrement_loop rest
      | Inherited Method => decrement_loop rest
      | Inherited Prototype => modify pollute ;;; decrement_loop rest
      | Inherited NotANumber => throw TypeError
      | Missing => throw TypeError
      end
  end.

(** The [reduce] of [unsubscribe]: how many labels of the object, other
    than [ctx], are keys of the context map. *)
Definition keysLeft (ctx : string) (keys : gmap string subscription)
    (o : object) : nat :=
  length (filter (λ c, c ≠ ctx ∧ is_Some (keys !! c)) (context o)).

(** Inner loop of [unsubscribe] over the ids matched by [ctx]; only a
    cached object has a [context] to reduce. *)
Fixpoint evict_loop (ctx : string) (keys : gmap string subscription)
    (matched : list string) : M state unit :=
  match matched with
  | [] => ret tt
  | oid :: rest =>
      let! found := gets (λ s, cache_slot s oid) in
      match found with
      | Own obj =>
          (if bool_decide (keysLeft ctx keys (deref obj) ≠ O)
           then modify (set_objectMap (delete oid))
           else ret tt) ;;;
          evict_loop ctx keys rest
      | _ => throw TypeError
      end
  end.

(** Second loop of [unsubscribe]; [batch] is [unsubscribingContexts].  An
    inherited value reads as count NaN after the first loop and has no
    [ids] to iterate. *)
Fixpoint delete_loop (contexts : list string) (batch : list string)
    : M state (list string) :=
  match contexts with
  | [] => ret batch
  | ctx :: rest =>
      let! found := gets (λ s, context_slot s ctx) in
      match found with
      | Own sub =>
          if bool_decide (count sub = 0)
          then let! cm := gets contextMap in
               evict_loop ctx cm (ids sub) ;;;
               modify (set_contextMap (delete ctx)) ;;;
               delete_loop rest (batch ++ [ctx])
          else delete_loop rest batch
      | _ => throw TypeError
      end
  end.

(** [unsubscribe(contexts)] *)
Definition unsubscribe (contexts : list (option string)) (reply : answer)
    : M state unit :=
  let contexts := non_null contexts in
  decrement_loop contexts ;;;
  let! unsubscribingContexts := delete_loop contexts [] in
  if bool_decide (unsubscribingContexts = []) then ret tt
  else try_catch (request (ReqUnsubscribe unsubscribingContexts) reply ;;; ret tt)
                 (λ _, ret tt).

Definition clear_ids (sub : subscription) : subscription :=
  {| ids := []; count := count sub |}.

(** [#onOpen()].  The [for ... in] over [contextMap] goes through the own
    keys and then through the enumerable properties of the prototype: a
    [count] there that no own key hides is the number NaN, which takes no
    [ids]. *)
Definition onOpen (reply : answer) : M state unit :=
  modify (set_open true) ;;;
  modify (set_contextMap (fmap clear_ids)) ;;;
  let! found := gets (λ s, context_slot s "count") in
  match found with
  | Inherited NotANumber => throw TypeError
  | _ =>
      modify (set_objectMap (λ _, ∅)) ;;;
      let! cm := gets contextMap in
      let contexts := (map_to_list cm).*1 in
      if bool_decide (contexts = []) then ret tt
      else request (ReqSubscribe contexts) reply ;;; ret tt
  end.

(** [#onClose()], up to the delayed reconnection. *)
Definition onClose : M state unit :=
  modify (set_open false).

(** [#onMessage(event)]; the frame is the parsed [event.data], which has
    enumerable properties only. *)
Definition onMessage (data : frame object) : M state unit :=
  match data with
  | FReply _ => ret tt
  | FUpdate o => updateCallback (Raw (enumerable o)) ;;; ret tt
  | FRemove o => removeCallback (Raw (enumerable o))
  | FError _ => throw ServerError
  | FOther => ret tt
  end.

(** A freshly constructed client whose socket has opened. *)
Definition connected : state :=
  {| open := true; contextMap := ∅; objectMap := ∅; wire := [];
     protoCount := false; cacheProto := None |}.

(** The loop at the head of [objects]: the first context that fails the
    [in] test, if there is one. *)
Fixpoint first_unsubscribed (s : state) (contexts : list string)
    : option string :=
  match contexts with
  | [] => None
  | ctx :: rest =>
      if has_property (protoCount s) (contextMap s) ctx
      then first_unsubscribed s rest
      else Some ctx
  end.

(** [contexts.map(c => [...this.contextMap[c].ids])]; an inherited value
    has no [ids] to spread. *)
Fixpoint matched_sets (s : state) (contexts : list string)
    : option (list (list string)) :=
  match contexts with
  | [] => Some []
  | ctx :: rest =>
      match context_slot s ctx with
      | Own sub => cons (ids sub) <$> matched_sets s rest
      | _ => None
      end
  end.

(** [objects(contexts)]; [me] is the actor of the session, [None] when
    nobody is logged in, and an absent argument is [None]. *)
Definition objects (me : option string)
    (contexts : option (list (option string))) (s : state) : view object :=
  let contexts := non_null (default [me] contexts) in
  match first_unsubscribed s contexts with
  | Some ctx => NotSubscribed ctx
  | None =>
      match matched_sets s contexts with
      | None => Unreadable
      | Some sets =>
          Objects ((λ oid, cache_slot s oid) <$> dedupe (concat sets))
      end
  end.

End Contexts.
(** * Statements *)

(** The state a method leaves behind, whether it returned or threw. *)
Definition after {S A} (m : M S A) (s : S) : S := (m s).2.

(** The completion of a method: the returned value or the thrown error. *)
Definition outcome {S A} (m : M S A) (s : S) : result A := (m s).1.

(** ** Concrete objects used in the scenarios *)

Module Samples.

Definition tagged (owner key : string) (tags : list string) (title : string)
    : Tags.object :=
  {| Tags._by := Some owner; Tags._key := Some key; Tags._tags := tags;
     Tags.payload := [("title", title)]; Tags._id := None |}.

(** What the cache holds for a tagged object after [#updateCallback]. *)
Definition cached_tagged (owner key : string) (tags : list string)
    (title : string) : ref Tags.object :=
  Proxy (Raw {| Tags._by := Some owner; Tags._key := Some key;
                Tags._tags := tags; Tags.payload := [("title", title)];
                Tags._id := Some (owner +:+ key) |}).

Definition filed (oid : string) (contexts : list string) (title : string)
    : Contexts.object :=
  {| Contexts.id := oid; Contexts.context := contexts;
     Contexts.payload := [("title", title)]; Contexts.graffitiProxy := false |}.

(** What the cache holds for a filed object after [#updateCallback]. *)
Definition cached_filed (oid : string) (contexts : list string)
    (title : string) : ref Contexts.object :=
  Proxy (Raw (Contexts.define_marker (filed oid contexts title))).

End Samples.

(** ** Vocabulary of the statements *)

(** The connection flag and the frames written so far. *)
Definition tags_channel (s : Tags.state) : bool * list (message Tags.object) :=
  (Tags.open s, Tags.wire s).

Definition contexts_channel (s : Contexts.state)
    : bool * list (message Contexts.object) :=
  (Contexts.open s, Contexts.wire s).

(** The reference count of a label; an untracked label counts zero. *)
Definition tags_refcount (s : Tags.state) (t : string) : Z :=
  from_option Tags.count 0 (Tags.tagMap s !! t).


(** A label is in the registry iff its reference count is positive. *)
Definition tags_registry_ok (s : Tags.state) : Prop :=
  ∀ t, is_Some (Tags.tagMap s !! t) ↔ 0 < tags_refcount s t.


(** How many entries of a label list are the label [t]; null entries are
    entries of no label. *)
Definition occurrences (t : string) (labels : list (option string)) : nat :=
  length (filter (λ l, l = Some t) labels).


(** The names that every object inherits from [Object.prototype]. *)
Definition prototype_names : list string :=
  ["__proto__"; "constructor"; "__defineGetter__"; "__defineSetter__";
   "hasOwnProperty"; "__lookupGetter__"; "__lookupSetter__"; "isPrototypeOf";
   "propertyIsEnumerable"; "toString"; "valueOf"; "toLocaleString"].

(** A name that is none of them. *)
Definition plain (k : string) : Prop := k ∉ prototype_names.

#[global] Instance plain_dec (k : string) : Decision (plain k).
Proof. unfold plain. apply _. Defined.

(** What a dictionary whose prototype is as the language defines it gives
    for the key [k]: the own entry, else the inherited method or prototype,
    else [undefined]. *)
Definition entry_of {A} (m : gmap string A) (k : string) : slot A :=
  match m !! k with
  | Some a => Own a
  | None =>
      if bool_decide (plain k) then Missing
      else Inherited (if bool_decide (k = "__proto__") then Prototype else Method)
  end.

(** The prototypes are as at construction: [Object.prototype] has no
    [count] and the cache still has [Object.prototype] as its prototype. *)
Definition tags_standard (s : Tags.state) : Prop :=
  Tags.protoCount s = false ∧ Tags.cacheProto s = None.

Definition contexts_standard (s : Contexts.state) : Prop :=
  Contexts.protoCount s = false ∧ Contexts.cacheProto s = None.

(** A subscription record after [uuid] has been added to its matched set. *)
Definition tags_listed (uuid : string) (sub : Tags.subscription)
    : Tags.subscription :=
  {| Tags.uuids := set_add uuid (Tags.uuids sub); Tags.count := Tags.count sub |}.

Definition contexts_listed (oid : string) (sub : Contexts.subscription)
    : Contexts.subscription :=
  {| Contexts.ids := set_add oid (Contexts.ids sub);
     Contexts.count := Contexts.count sub |}.

(** The labels of an object that are currently subscribed: the
    intersection computed by [#updateCallback]. *)
Definition tags_matching (s : Tags.state) (o : Tags.object) : list string :=
  filter (λ t, is_Some (Tags.tagMap s !! t)) (Tags._tags o).

Definition contexts_matching (s : Contexts.state) (o : Contexts.object)
    : list string :=
  filter (λ c, is_Some (Contexts.contextMap s !! c)) (Contexts.labels o).

(** The cache entry [#updateCallback] installs for a pushed object: one
    proxy around the object, which now carries its identifier, in the
    enumerable [_id] if the frame had one and in a hidden [_id] otherwise. *)
Definition tags_installed (uuid : string) (o : Tags.object) : ref Tags.object :=
  Proxy (Raw
    (if bool_decide ("_id" ∈ (Tags.payload o).*1)
     then {| Tags._by := Tags._by o; Tags._key := Tags._key o;
             Tags._tags := Tags._tags o;
             Tags.payload :=
               (λ kv, if bool_decide (kv.1 = "_id") then ("_id", uuid) else kv)
               <$> Tags.payload o;
             Tags._id := None |}
     else {| Tags._by := Tags._by o; Tags._key := Tags._key o;
             Tags._tags := Tags._tags o; Tags.payload := Tags.payload o;
             Tags._id := Some uuid |})).

(** The same for the context revision: one proxy around the object, which
    now carries the marker; a frame that has an enumerable property named
    [__graffitiProxy] is installed as it is, without a proxy. *)
Definition contexts_installed (o : Contexts.object) : ref Contexts.object :=
  if bool_decide ("__graffitiProxy" ∈ (Contexts.payload o).*1)
  then Raw {| Contexts.id := Contexts.id o;
              Contexts.context := Contexts.context o;
              Contexts.payload := Contexts.payload o;
              Contexts.graffitiProxy := false |}
  else Proxy (Raw {| Contexts.id := Contexts.id o;
                     Contexts.context := Contexts.context o;
                     Contexts.payload := Contexts.payload o;
                     Contexts.graffitiProxy := true |}).

(** A subscription record after [uuid] has been deleted from its matched
    set. *)
Definition tags_unlisted (uuid : string) (sub : Tags.subscription)
    : Tags.subscription :=
  {| Tags.uuids := set_delete uuid (Tags.uuids sub); Tags.count := Tags.count sub |}.

Definition contexts_unlisted (oid : string) (sub : Contexts.subscription)
    : Contexts.subscription :=
  {| Contexts.ids := set_delete oid (Contexts.ids sub);
     Contexts.count := Contexts.count sub |}.

(** Label [c] lists the object [o] without being one of its labels. *)
Definition contexts_supports (m : gmap string Contexts.subscription)
    (o : Contexts.object) (c : string) : Prop :=
  Contexts.id o ∈ from_option Contexts.ids [] (m !! c) ∧ c ∉ Contexts.labels o.

(** The subscribed labels that list the object although the pushed object
    does not carry them: what sets [supported] in [#removeCallback]. *)
Definition contexts_supporting (s : Contexts.state) (o : Contexts.object)
    : list string :=
  filter (contexts_supports (Contexts.contextMap s) o)
         (map_to_list (Contexts.contextMap s)).*1.

(** The reading of the remove handler in which the identifier leaves every
    matched set that lists it under a label the object does not carry. *)
Definition removes_from_foreign_sets (s s' : Contexts.state)
    (o : Contexts.object) : Prop :=
  ∀ c sub sub',
    Contexts.contextMap s !! c = Some sub →
    Contexts.id o ∈ Contexts.ids sub →
    c ∉ Contexts.labels o →
    Contexts.contextMap s' !! c = Some sub' →
    Contexts.id o ∉ Contexts.ids sub'.

(** Some subscribed label still lists the identifier. *)
Definition tags_still_listed (s : Tags.state) (uuid : string) : Prop :=
  ∃ t sub, Tags.tagMap s !! t = Some sub ∧ uuid ∈ Tags.uuids sub.

(** ** The loops on plain labels *)

(** One iteration of each loop over the registry for a label that is no
    name of the prototype: the loops of the embedding are folds of these
    steps on such labels (lemmas [..._plain]). *)
Module TagsPlain.
Import Tags.

Definition add_uuid (uuid : string)
    (acc : gmap string subscription * bool) (tag : string)
    : gmap string subscription * bool :=
  match acc.1 !! tag with
  | None => acc
  | Some sub =>
      (<[tag := {| uuids := set_add uuid (uuids sub); count := count sub |}]> acc.1,
       true)
  end.

Definition drop_uuid (uuid : string)
    (tm : gmap string subscription) (tag : string) : gmap string subscription :=
  match tm !! tag with
  | None => tm
  | Some sub =>
      <[tag := {| uuids := set_delete uuid (uuids sub); count := count sub |}]> tm
  end.

Definition subscribe_step
    (acc : gmap string subscription * list string) (tag : string)
    : gmap string subscription * list string :=
  match acc.1 !! tag with
  | Some sub =>
      (<[tag := {| uuids := uuids sub; count := count sub + 1 |}]> acc.1, acc.2)
  | None =>
      (<[tag := {| uuids := []; count := 1 |}]> acc.1, acc.2 ++ [tag])
  end.

End TagsPlain.

Module ContextsPlain.
Import Contexts.

Definition add_id (oid : string)
    (acc : gmap string subscription * bool) (ctx : string)
    : gmap string subscription * bool :=
  match acc.1 !! ctx with
  | None => acc
  | Some sub =>
      (<[ctx := {| ids := set_add oid (ids sub); count := count sub |}]> acc.1,
       true)
  end.

Definition subscribe_step
    (acc : gmap string subscription * list string) (ctx : string)
    : gmap string subscription * list string :=
  match acc.1 !! ctx with
  | Some sub =>
      (<[ctx := {| ids := ids sub; count := count sub + 1 |}]> acc.1, acc.2)
  | None =>
      (<[ctx := {| ids := []; count := 1 |}]> acc.1, acc.2 ++ [ctx])
  end.

End ContextsPlain.

(** ** Vocabulary of the further properties *)

(** Identifier [u] is in the matched set of one of the requested labels. *)
Definition tags_listed_under (s : Tags.state) (tags : list (option string))
    (u : string) : Prop :=
  ∃ t sub, Some t ∈ tags ∧ Tags.tagMap s !! t = Some sub ∧ u ∈ Tags.uuids sub.

Definition contexts_listed_under (s : Contexts.state)
    (contexts : list (option string)) (u : string) : Prop :=
  ∃ c sub, Some c ∈ contexts ∧ Contexts.contextMap s !! c = Some sub ∧
           u ∈ Contexts.ids sub.

(** Every identifier listed in a matched set has a cache entry. *)
Definition tags_no_dangling (s : Tags.state) : Prop :=
  ∀ t sub u, Tags.tagMap s !! t = Some sub → u ∈ Tags.uuids sub →
             is_Some (Tags.objectMap s !! u).

Definition contexts_no_dangling (s : Contexts.state) : Prop :=
  ∀ c sub u, Contexts.contextMap s !! c = Some sub → u ∈ Contexts.ids sub →
             is_Some (Contexts.objectMap s !! u).


(** Calls and events of the tag revision that keep listed identifiers
    cached. *)
Inductive tags_event : Type :=
  | TSubscribe (tags : list (option string)) (reply : answer)
  | TUnsubscribe (tags : list (option string)) (reply : answer)
  | TPushUpdate (o : Tags.object)
  | TOpen (reply : answer)
  | TClose.

(** An event whose labels are no names inherited from [Object.prototype]
    and whose object does not get the identifier [__proto__]. *)
Definition tags_event_plain (e : tags_event) : Prop :=
  match e with
  | TSubscribe tags _ | TUnsubscribe tags _ => ∀ t, Some t ∈ tags → plain t
  | TPushUpdate o =>
      (∀ t, t ∈ Tags._tags o → plain t) ∧
      Tags.objectUUID o ≠ Ok "__proto__"
  | TOpen _ | TClose => True
  end.

Definition tags_step (s : Tags.state) (e : tags_event) : Tags.state :=
  match e with
  | TSubscribe tags reply => after (Tags.subscribe tags reply) s
  | TUnsubscribe tags reply => after (Tags.unsubscribe tags reply) s
  | TPushUpdate o => after (Tags.onMessage (FUpdate o)) s
  | TOpen reply => after (Tags.onOpen reply) s
  | TClose => after Tags.onClose s
  end.

Definition tags_run (events : list tags_event) (s : Tags.state) : Tags.state :=
  foldl tags_step s events.

(** Calls and events of the context revision that keep listed identifiers
    cached. *)
Inductive contexts_event : Type :=
  | CSubscribe (contexts : list (option string)) (reply : answer)
  | CPushUpdate (o : Contexts.object)
  | CPushRemove (o : Contexts.object)
  | CPost (o : Contexts.object) (reply : answer)
  | CRemove (obj : ref Contexts.object) (reply : answer)
  | COpen (reply : answer)
  | CClose.

(** An event whose labels and identifier are no names inherited from
    [Object.prototype]. *)
Definition contexts_event_plain (e : contexts_event) : Prop :=
  match e with
  | CSubscribe contexts _ => ∀ c, Some c ∈ contexts → plain c
  | CPushUpdate o | CPost o _ =>
      ∀ c, c ∈ Contexts.context o ∨ c = Contexts.id o → plain c
  | CRemove obj _ =>
      ∀ c, c ∈ Contexts.context (deref obj) ∨ c = Contexts.id (deref obj) →
           plain c
  | CPushRemove _ | COpen _ | CClose => True
  end.

Definition contexts_step (s : Contexts.state) (e : contexts_event)
    : Contexts.state :=
  match e with
  | CSubscribe contexts reply => after (Contexts.subscribe contexts reply) s
  | CPushUpdate o => after (Contexts.onMessage (FUpdate o)) s
  | CPushRemove o => after (Contexts.onMessage (FRemove o)) s
  | CPost o reply => after (Contexts.post o reply) s
  | CRemove obj reply => after (Contexts.remove obj reply) s
  | COpen reply => after (Contexts.onOpen reply) s
  | CClose => after Contexts.onClose s
  end.

Definition contexts_run (events : list contexts_event) (s : Contexts.state)
    : Contexts.state :=
  foldl contexts_step s events.


(** The labels of [l] are tracked at least as often as [l] names them. *)
Definition tags_covered (m : gmap string Tags.subscription) (l : list string)
    : Prop :=
  ∀ t, t ∈ l →
       ∃ sub, m !! t = Some sub ∧
              Z.of_nat (length (filter (λ x, x = t) l)) ≤ Tags.count sub.

(** The record of [t] once every entry of [l] has been unsubscribed: gone
    when the count is used up, otherwise lowered by the number of entries. *)
Definition tags_after_unsubscribe (l : list string) (t : string)
    (r : option Tags.subscription) : option Tags.subscription :=
  match r with
  | Some sub =>
      if bool_decide (t ∈ l ∧
                      Tags.count sub
                      = Z.of_nat (length (filter (λ x, x = t) l)))
      then None
      else Some {| Tags.uuids := Tags.uuids sub;
                   Tags.count := Tags.count sub
                                 - Z.of_nat (length (filter (λ x, x = t) l)) |}
  | None => None
  end.

(** The object [update] works on: the owner is the session's identifier
    and a missing key is replaced by the generated one. *)
Definition tags_stamped (s : Tags.state) (o : Tags.object) (fresh_key : string)
    : Tags.object :=
  {| Tags._by := Tags.myID s;
     Tags._key := if truthy (Tags._key o) then Tags._key o else Some fresh_key;
     Tags._tags := Tags._tags o;
     Tags.payload := Tags.payload o;
     Tags._id := None |}.

(** No matched set lists the identifier. *)
Definition tags_unlisted_everywhere (s : Tags.state) (uuid : string) : Prop :=
  ∀ t sub, Tags.tagMap s !! t = Some sub → uuid ∉ Tags.uuids sub.

Definition contexts_unlisted_everywhere (s : Contexts.state) (oid : string)
    : Prop :=
  ∀ c sub, Contexts.contextMap s !! c = Some sub → oid ∉ Contexts.ids sub.

(** The object [#post] works on: the contexts without their repetitions. *)
(** The entries of a list, each kept at its first place only. *)
Fixpoint first_occurrences (l : list string) : list string :=
  match l with
  | [] => []
  | x :: rest => x :: filter (λ y, y ≠ x) (first_occurrences rest)
  end.

Definition contexts_deduped (o : Contexts.object) : Contexts.object :=
  {| Contexts.id := Contexts.id o;
     Contexts.context := dedupe (Contexts.context o);
     Contexts.payload := Contexts.payload o;
     Contexts.graffitiProxy := Contexts.graffitiProxy o |}.

(** Unfolding of the method combinators, for goals that trace one call. *)
Ltac run_method :=
  repeat progress
    (unfold after, outcome, bind, try_catch, gets, modify, lift, ret, throw in *;
     simpl in *).

(** * Proofs *)

(** ** Identity of cached objects *)

(** C10. The cache identifier of a tagged object is its owner followed
    directly by its key.  The map from (owner, key) to identifier is not
    injective: owner "ab" with key "c" and owner "a" with key "bc" both
    give "abc", and pushing the two objects one after the other leaves a
    single cache entry, holding the second. *)
Theorem objectUUID_concatenates_and_collides :
  (∀ o b k, Tags._by o = Some b → Tags._key o = Some k → b ≠ "" → k ≠ "" →
     Tags.objectUUID o = Ok (b +:+ k)) ∧
  let o1 := Samples.tagged "ab" "c" ["t"] "first" in
  let o2 := Samples.tagged "a" "bc" ["t"] "second" in
  Tags._by o1 ≠ Tags._by o2 ∧ Tags._key o1 ≠ Tags._key o2 ∧
  Tags.objectUUID o1 = Ok "abc" ∧ Tags.objectUUID o2 = Ok "abc" ∧
  let s1 := after (Tags.subscribe [Some "t"] (Ok [])) (Tags.connected None) in
  let s2 := after (Tags.onMessage (FUpdate o1)) s1 in
  let s3 := after (Tags.onMessage (FUpdate o2)) s2 in
  Tags.objectMap s2 = {[ "abc" := Samples.cached_tagged "ab" "c" ["t"] "first" ]} ∧
  Tags.objectMap s3 = {[ "abc" := Samples.cached_tagged "a" "bc" ["t"] "second" ]}.
Proof.
  split.
  - intros o b k Hb Hk Hbne Hkne. unfold Tags.objectUUID.
    rewrite Hb, Hk. simpl.
    rewrite !bool_decide_eq_false_2 by done. done.
  - repeat split; try discriminate; vm_compute; reflexivity.
Qed.

(** The concatenation rule at owner "u1" and key "k1". *)
Lemma objectUUID_concatenates_and_collides_witness :
  Tags.objectUUID (Samples.tagged "u1" "k1" [] "x") = Ok "u1k1".
Proof.
  apply (proj1 objectUUID_concatenates_and_collides
           (Samples.tagged "u1" "k1" [] "x") "u1" "k1");
    first [reflexivity | discriminate].
Defined.

(** ** Eviction on unsubscribe *)

(** C1. Unsubscribing the only label of a cached object does not evict it,
    in either revision; in the context revision, an object that still
    carries another subscribed label is the one that is evicted, and the
    later unsubscription of that other label then faults on the missing
    cache entry, leaving the label registered with count zero. *)
Theorem unsubscribe_eviction_inverted :
  (let s1 := after (Contexts.subscribe [Some "news"] (Ok [])) Contexts.connected in
   let s2 := after (Contexts.onMessage
                      (FUpdate (Samples.filed "a1" ["news"] "t"))) s1 in
   let s3 := after (Contexts.unsubscribe [Some "news"] (Ok [])) s2 in
   outcome (Contexts.unsubscribe [Some "news"] (Ok [])) s2 = Ok tt ∧
   Contexts.contextMap s3 = ∅ ∧
   Contexts.objectMap s3 = {[ "a1" := Samples.cached_filed "a1" ["news"] "t" ]}) ∧
  (let s1 := after (Contexts.subscribe [Some "news"; Some "sports"] (Ok []))
                   Contexts.connected in
   let s2 := after (Contexts.onMessage
                      (FUpdate (Samples.filed "a1" ["news"; "sports"] "t"))) s1 in
   let s3 := after (Contexts.unsubscribe [Some "news"] (Ok [])) s2 in
   outcome (Contexts.unsubscribe [Some "news"] (Ok [])) s2 = Ok tt ∧
   Contexts.contextMap s3 = {[ "sports" := {| Contexts.ids := ["a1"];
                                              Contexts.count := 1 |} ]} ∧
   Contexts.objectMap s3 = ∅ ∧
   outcome (Contexts.unsubscribe [Some "sports"] (Ok [])) s3 = Throw TypeError ∧
   Contexts.contextMap (after (Contexts.unsubscribe [Some "sports"] (Ok [])) s3)
     = {[ "sports" := {| Contexts.ids := ["a1"]; Contexts.count := 0 |} ]}) ∧
  (let s1 := after (Tags.subscribe [Some "news"] (Ok [])) (Tags.connected None) in
   let s2 := after (Tags.onMessage
                      (FUpdate (Samples.tagged "u1" "k1" ["news"] "t"))) s1 in
   let s3 := after (Tags.unsubscribe [Some "news"] (Ok [])) s2 in
   outcome (Tags.unsubscribe [Some "news"] (Ok [])) s2 = Ok tt ∧
   Tags.tagMap s3 = ∅ ∧
   Tags.objectMap s3 = {[ "u1k1" := Samples.cached_tagged "u1" "k1" ["news"] "t" ]}).
Proof. repeat split; vm_compute; reflexivity. Qed.

(** ** Rollback of a rejected update *)

(** C2. A rejected [update] does not always restore the state it started
    from.  Tag revision: when the new version carries no subscribed tag,
    the previously cached object is deleted and its identifier is left in
    the tag set; when it carries another subscribed tag, the snapshot is
    reinstalled but the identifier stays in that tag's set.  Context
    revision: [#post] over a cached object takes no snapshot and leaves
    the cache without the object. *)
Theorem rejected_update_not_rolled_back :
  (let s0 := after (Tags.subscribe [Some "a"] (Ok [])) (Tags.connected (Some "u1")) in
   let s1 := after (Tags.onMessage (FUpdate (Samples.tagged "u1" "k1" ["a"] "old"))) s0 in
   let call := Tags.update (Samples.tagged "u1" "k1" ["b"] "new") "fresh"
                           (Throw ServerError) in
   Tags.objectMap s1 = {[ "u1k1" := Samples.cached_tagged "u1" "k1" ["a"] "old" ]} ∧
   outcome call s1 = Throw ServerError ∧
   Tags.objectMap (after call s1) = ∅ ∧
   Tags.tagMap (after call s1) = Tags.tagMap s1 ∧
   Tags.tagMap s1 = {[ "a" := {| Tags.uuids := ["u1k1"]; Tags.count := 1 |} ]}) ∧
  (let s0 := after (Tags.subscribe [Some "a"; Some "b"] (Ok []))
                   (Tags.connected (Some "u1")) in
   let s1 := after (Tags.onMessage (FUpdate (Samples.tagged "u1" "k1" ["a"] "old"))) s0 in
   let call := Tags.update (Samples.tagged "u1" "k1" ["b"] "new") "fresh"
                           (Throw ServerError) in
   outcome call s1 = Throw ServerError ∧
   Tags.objectMap (after call s1) = Tags.objectMap s1 ∧
   Tags.tagMap s1 !! "b" = Some {| Tags.uuids := []; Tags.count := 1 |} ∧
   Tags.tagMap (after call s1) !! "b"
     = Some {| Tags.uuids := ["u1k1"]; Tags.count := 1 |}) ∧
  (let s0 := after (Contexts.subscribe [Some "a"] (Ok [])) Contexts.connected in
   let s1 := after (Contexts.onMessage (FUpdate (Samples.filed "a1" ["a"] "old"))) s0 in
   let call := Contexts.post (Samples.filed "a1" ["a"] "new") (Throw ServerError) in
   Contexts.objectMap s1 = {[ "a1" := Samples.cached_filed "a1" ["a"] "old" ]} ∧
   outcome call s1 = Throw ServerError ∧
   Contexts.objectMap (after call s1) = ∅ ∧
   Contexts.contextMap s1 !! "a"
     = Some {| Contexts.ids := ["a1"]; Contexts.count := 1 |} ∧
   Contexts.contextMap (after call s1) !! "a"
     = Some {| Contexts.ids := []; Contexts.count := 1 |}).
Proof. repeat split; vm_compute; reflexivity. Qed.


(** ** Lookups through the prototype *)

Lemma inherits_plain (k : string) : plain k → inherits false k = None.
Proof.
  unfold plain, prototype_names, inherits. intros Hk.
  apply not_elem_of_cons in Hk as [Hproto Hmeth].
  rewrite bool_decide_eq_false_2 by done.
  by rewrite (bool_decide_eq_false_2 (k ∈ prototype_methods)) by done.
Qed.

Lemma property_own {A} (p : bool) (m : gmap string A) (k : string) (a : A) :
  m !! k = Some a → property p m k = Own a.
Proof. unfold property. by intros ->. Qed.

Lemma property_plain {A} (m : gmap string A) (k : string) :
  plain k →
  property false m k = match m !! k with Some a => Own a | None => Missing end.
Proof.
  intros Hk. unfold property. destruct (m !! k); [done|].
  by rewrite inherits_plain.
Qed.

Lemma property_missing {A} (m : gmap string A) (k : string) :
  plain k → m !! k = None → property false m k = Missing.
Proof. intros Hk Hm. by rewrite property_plain, Hm. Qed.

Lemma has_property_plain {A} (m : gmap string A) (k : string) :
  plain k → has_property false m k = bool_decide (is_Some (m !! k)).
Proof.
  intros Hk. unfold has_property. rewrite property_plain by done.
  destruct (m !! k) eqn:Hm.
  - by rewrite bool_decide_eq_true_2.
  - rewrite bool_decide_eq_false_2; [done|]. by intros [? ?].
Qed.

(** ** Requests on a closed connection *)

Section TagsChannel.
Import Tags.

Lemma tags_add_uuid_loop_channel uuid tags b s :
  tags_channel (after (add_uuid_loop uuid tags b) s) = tags_channel s.
Proof.
  revert b s. induction tags as [|tag rest IH]; intros b s; [done|].
  simpl. run_method. destruct (tag_slot s tag) as [sub|v|]; simpl.
  - specialize (IH true). run_method. by rewrite IH.
  - done.
  - apply IH.
Qed.

Lemma tags_drop_uuid_loop_channel uuid tags s :
  tags_channel (after (drop_uuid_loop uuid tags) s) = tags_channel s.
Proof.
  revert s. induction tags as [|tag rest IH]; intros s; [done|].
  simpl. run_method. destruct (tag_slot s tag) as [sub|v|]; simpl.
  - run_method. by rewrite IH.
  - done.
  - apply IH.
Qed.

Lemma tags_store_channel uuid v s :
  tags_channel (store uuid v s) = tags_channel s.
Proof. unfold store. by case_bool_decide. Qed.

Lemma tags_updateCallback_channel obj s :
  tags_channel (after (updateCallback obj) s) = tags_channel s.
Proof.
  unfold updateCallback. run_method.
  destruct (objectUUID (deref obj)) as [uuid|e]; simpl; [|done].
  pose proof (tags_add_uuid_loop_channel uuid (_tags (deref obj)) false s) as Hch.
  unfold after in Hch.
  destruct (add_uuid_loop uuid (_tags (deref obj)) false s) as [[[|]|e] s1];
    simpl in *; [|done|done].
  destruct (define_id uuid obj) as [obj'|e]; simpl; [|done].
  by rewrite tags_store_channel.
Qed.

Lemma tags_removeCallback_channel obj s :
  tags_channel (after (removeCallback obj) s) = tags_channel s.
Proof.
  unfold removeCallback. run_method.
  destruct (objectUUID (deref obj)) as [uuid|e]; simpl; [|done].
  pose proof (tags_drop_uuid_loop_channel uuid (_tags (deref obj)) s) as Hch.
  unfold after in Hch.
  destruct (drop_uuid_loop uuid (_tags (deref obj)) s) as [[[]|e] s1];
    simpl in *; [|done].
  by destruct (has_property _ _ _).
Qed.

Lemma tags_subscribe_loop_channel tags batch s :
  tags_channel (after (subscribe_loop tags batch) s) = tags_channel s.
Proof.
  revert batch s. induction tags as [|tag rest IH]; intros batch s; [done|].
  simpl. run_method. destruct (tag_slot s tag) as [sub|[| |]|]; simpl.
  - specialize (IH batch). run_method. by rewrite IH.
  - apply IH.
  - specialize (IH batch). run_method. by rewrite IH.
  - done.
  - specialize (IH (batch ++ [tag])). run_method. by rewrite IH.
Qed.

Lemma tags_unsubscribe_loop_channel tags batch s :
  tags_channel (after (unsubscribe_loop tags batch) s) = tags_channel s.
Proof.
  revert batch s. induction tags as [|tag rest IH]; intros batch s; [done|].
  simpl. run_method. destruct (tag_slot s tag) as [sub|[| |]|]; simpl.
  - destruct (bool_decide (count sub - 1 = 0)).
    + specialize (IH (batch ++ [tag])). run_method. by rewrite IH.
    + specialize (IH batch). run_method. by rewrite IH.
  - apply IH.
  - specialize (IH (batch ++ [tag])). run_method. by rewrite IH.
  - done.
  - done.
Qed.

Lemma tags_request_closed msg reply s :
  open s = false → request msg reply s = (Throw NotConnected, s).
Proof. intros Hclosed. unfold request. run_method. by rewrite Hclosed. Qed.

Lemma tags_channel_closed s s' :
  tags_channel s' = tags_channel s → open s = false → open s' = false.
Proof. unfold tags_channel. intros [= -> _]. done. Qed.

Lemma tags_update_closed o fresh_key reply s :
  open s = false → tags_channel (after (update o fresh_key reply) s) = tags_channel s.
Proof.
  intros Hclosed. unfold update. run_method.
  match goal with
  | |- context [updateCallback ?obj s] =>
      pose proof (tags_updateCallback_channel obj s) as Hch;
      unfold after in Hch; destruct (updateCallback obj s) as [[[orig obj']|e] s1]
  end; simpl in *; [|done].
  rewrite (tags_request_closed _ _ s1)
    by (eapply tags_channel_closed; eauto).
  destruct orig as [original|].
  - pose proof (tags_updateCallback_channel original s1) as Hch1.
    unfold after in Hch1.
    destruct (updateCallback original s1) as [[?|?] s2]; simpl in *; congruence.
  - pose proof (tags_removeCallback_channel obj' s1) as Hch1.
    unfold after in Hch1.
    destruct (removeCallback obj' s1) as [[?|?] s2]; simpl in *; congruence.
Qed.

Lemma tags_subscribe_closed tags reply s :
  open s = false → tags_channel (after (subscribe tags reply) s) = tags_channel s.
Proof.
  intros Hclosed. unfold subscribe. run_method.
  pose proof (tags_subscribe_loop_channel (non_null tags) [] s) as Hch.
  unfold after in Hch.
  destruct (subscribe_loop (non_null tags) [] s) as [[batch|e] s1];
    simpl in *; [|done].
  case_bool_decide; simpl; [done|].
  rewrite (tags_request_closed _ _ s1)
    by (eapply tags_channel_closed; eauto).
  done.
Qed.

Lemma tags_unsubscribe_closed tags reply s :
  open s = false → tags_channel (after (unsubscribe tags reply) s) = tags_channel s.
Proof.
  intros Hclosed. unfold unsubscribe. run_method.
  pose proof (tags_unsubscribe_loop_channel (non_null tags) [] s) as Hch.
  unfold after in Hch.
  destruct (unsubscribe_loop (non_null tags) [] s) as [[batch|e] s1];
    simpl in *; [|done].
  case_bool_decide; simpl; [done|].
  rewrite (tags_request_closed _ _ s1)
    by (eapply tags_channel_closed; eauto).
  done.
Qed.

End TagsChannel.

Section ContextsChannel.
Import Contexts.

Lemma contexts_add_id_loop_channel oid l b s :
  contexts_channel (after (add_id_loop oid l b) s) = contexts_channel s.
Proof.
  revert b s. induction l as [|ctx rest IH]; intros b s; [done|].
  simpl. run_method. destruct (context_slot s ctx) as [sub|v|]; simpl.
  - specialize (IH true). run_method. by rewrite IH.
  - done.
  - apply IH.
Qed.

Lemma contexts_store_channel oid v s :
  contexts_channel (store oid v s) = contexts_channel s.
Proof. unfold store. by case_bool_decide. Qed.

Lemma contexts_updateCallback_channel obj s :
  contexts_channel (after (updateCallback obj) s) = contexts_channel s.
Proof.
  unfold updateCallback. run_method.
  pose proof (contexts_add_id_loop_channel (id (deref obj)) (labels (deref obj))
                false s) as Hch.
  unfold after in Hch.
  destruct (add_id_loop (id (deref obj)) (labels (deref obj)) false s)
    as [[[|]|e] s1]; simpl in *; [|done|done].
  by rewrite contexts_store_channel.
Qed.

Lemma contexts_removeCallback_channel obj s :
  contexts_channel (after (removeCallback obj) s) = contexts_channel s.
Proof.
  unfold removeCallback. run_method.
  destruct (context_slot _ "count") as [?|[| |]|]; simpl; try done;
    by destruct (negb _ && _).
Qed.

Lemma contexts_subscribe_loop_channel l batch s :
  contexts_channel (after (subscribe_loop l batch) s) = contexts_channel s.
Proof.
  revert batch s. induction l as [|ctx rest IH]; intros batch s; [done|].
  simpl. run_method. destruct (context_slot s ctx) as [sub|[| |]|]; simpl.
  - specialize (IH batch). run_method. by rewrite IH.
  - apply IH.
  - specialize (IH batch). run_method. by rewrite IH.
  - done.
  - specialize (IH (batch ++ [ctx])). run_method. by rewrite IH.
Qed.

Lemma contexts_decrement_loop_channel contexts s :
  contexts_channel (after (decrement_loop contexts) s) = contexts_channel s.
Proof.
  revert s. induction contexts as [|ctx rest IH]; intros s; [done|].
  simpl. run_method. destruct (context_slot s ctx) as [sub|[| |]|]; simpl.
  - run_method. by rewrite IH.
  - apply IH.
  - run_method. by rewrite IH.
  - done.
  - done.
Qed.

Lemma contexts_evict_loop_channel ctx keys matched s :
  contexts_channel (after (evict_loop ctx keys matched) s) = contexts_channel s.
Proof.
  revert s. induction matched as [|oid rest IH]; intros s; [done|].
  simpl. run_method. destruct (cache_slot s oid) as [obj|v|]; [|done|done].
  simpl. case_bool_decide; simpl; by rewrite IH.
Qed.

Lemma contexts_delete_loop_channel contexts batch s :
  contexts_channel (after (delete_loop contexts batch) s) = contexts_channel s.
Proof.
  revert batch s. induction contexts as [|ctx rest IH]; intros batch s; [done|].
  simpl. run_method. destruct (context_slot s ctx) as [sub|v|]; [|done|done].
  simpl. case_bool_decide; [|apply IH].
  run_method.
  pose proof (contexts_evict_loop_channel ctx (contextMap s) (ids sub) s) as Hch.
  unfold after in Hch.
  destruct (evict_loop ctx (contextMap s) (ids sub) s) as [[[]|e] s1];
    simpl in *; [|done].
  specialize (IH (batch ++ [ctx])). run_method. by rewrite IH.
Qed.

Lemma contexts_request_closed msg reply s :
  open s = false → request msg reply s = (Throw NotConnected, s).
Proof. intros Hclosed. unfold request. run_method. by rewrite Hclosed. Qed.

Lemma contexts_channel_closed s s' :
  contexts_channel s' = contexts_channel s → open s = false → open s' = false.
Proof. unfold contexts_channel. intros [= -> _]. done. Qed.

Lemma contexts_post_closed o reply s :
  open s = false → contexts_channel (after (post o reply) s) = contexts_channel s.
Proof.
  intros Hclosed. unfold post. run_method.
  match goal with
  | |- context [updateCallback ?obj s] =>
      pose proof (contexts_updateCallback_channel obj s) as Hch;
      unfold after in Hch; destruct (updateCallback obj s) as [[obj'|e] s1]
  end; simpl in *; [|done].
  rewrite (contexts_request_closed _ _ s1)
    by (eapply contexts_channel_closed; eauto).
  pose proof (contexts_removeCallback_channel obj' s1) as Hch1.
  unfold after in Hch1.
  destruct (removeCallback obj' s1) as [[?|?] s2]; simpl in *; congruence.
Qed.

Lemma contexts_remove_closed obj reply s :
  open s = false → contexts_channel (after (remove obj reply) s) = contexts_channel s.
Proof.
  intros Hclosed. unfold remove. run_method.
  pose proof (contexts_removeCallback_channel obj s) as Hch.
  unfold after in Hch.
  destruct (removeCallback obj s) as [[[]|e] s1]; simpl in *; [|done].
  rewrite (contexts_request_closed _ _ s1)
    by (eapply contexts_channel_closed; eauto).
  pose proof (contexts_updateCallback_channel (assign_copy obj) s1) as Hch1.
  unfold after in Hch1.
  destruct (updateCallback (assign_copy obj) s1) as [[?|?] s2];
    simpl in *; congruence.
Qed.

Lemma contexts_subscribe_closed contexts reply s :
  open s = false →
  contexts_channel (after (subscribe contexts reply) s) = contexts_channel s.
Proof.
  intros Hclosed. unfold subscribe. run_method.
  pose proof (contexts_subscribe_loop_channel (non_null contexts) [] s) as Hch.
  unfold after in Hch.
  destruct (subscribe_loop (non_null contexts) [] s) as [[batch|e] s1];
    simpl in *; [|done].
  case_bool_decide; simpl; [done|].
  rewrite (contexts_request_closed _ _ s1)
    by (eapply contexts_channel_closed; eauto).
  done.
Qed.

Lemma contexts_unsubscribe_closed contexts reply s :
  open s = false →
  contexts_channel (after (unsubscribe contexts reply) s) = contexts_channel s.
Proof.
  intros Hclosed. unfold unsubscribe. run_method.
  pose proof (contexts_decrement_loop_channel (non_null contexts) s) as Hch.
  unfold after in Hch.
  destruct (decrement_loop (non_null contexts) s) as [[[]|e] s1];
    simpl in *; [|done].
  pose proof (contexts_delete_loop_channel (non_null contexts) [] s1) as Hch1.
  unfold after in Hch1.
  destruct (delete_loop (non_null contexts) [] s1) as [[batch|e] s2];
    simpl in *; [|congruence].
  case_bool_decide; simpl; [congruence|].
  rewrite (contexts_request_closed _ _ s2); [simpl; congruence|].
  eapply contexts_channel_closed; [|exact Hclosed]. congruence.
Qed.

End ContextsChannel.

(** C8. A request made while the connection is not open throws at once and
    leaves the client untouched: nothing is written to the channel.  No
    public operation retries it: called on a closed connection, each of
    them leaves the written frames as they were, and the listing call
    reports the failure to its caller. *)
Theorem request_while_closed_fails_without_write :
  (∀ msg reply s, Tags.open s = false →
     Tags.request msg reply s = (Throw NotConnected, s)) ∧
  (∀ msg reply s, Contexts.open s = false →
     Contexts.request msg reply s = (Throw NotConnected, s)) ∧
  (∀ s reply, Tags.open s = false →
     (∀ o fresh_key, Tags.wire (after (Tags.update o fresh_key reply) s) = Tags.wire s) ∧
     (∀ tags, Tags.wire (after (Tags.subscribe tags reply) s) = Tags.wire s) ∧
     (∀ tags, Tags.wire (after (Tags.unsubscribe tags reply) s) = Tags.wire s) ∧
     Tags.myTags reply s = (Throw NotConnected, s)) ∧
  (∀ s reply, Contexts.open s = false →
     (∀ o, Contexts.wire (after (Contexts.post o reply) s) = Contexts.wire s) ∧
     (∀ obj, Contexts.wire (after (Contexts.remove obj reply) s) = Contexts.wire s) ∧
     (∀ contexts,
        Contexts.wire (after (Contexts.subscribe contexts reply) s) = Contexts.wire s) ∧
     (∀ contexts,
        Contexts.wire (after (Contexts.unsubscribe contexts reply) s) = Contexts.wire s) ∧
     Contexts.myContexts reply s = (Throw NotConnected, s)).
Proof.
  split; [exact tags_request_closed|].
  split; [exact contexts_request_closed|].
  split.
  - intros s reply Hclosed. repeat split; intros.
    + by injection (tags_update_closed o fresh_key reply s Hclosed).
    + by injection (tags_subscribe_closed tags reply s Hclosed).
    + by injection (tags_unsubscribe_closed tags reply s Hclosed).
    + by apply tags_request_closed.
  - intros s reply Hclosed. repeat split; intros.
    + by injection (contexts_post_closed o reply s Hclosed).
    + by injection (contexts_remove_closed obj reply s Hclosed).
    + by injection (contexts_subscribe_closed contexts reply s Hclosed).
    + by injection (contexts_unsubscribe_closed contexts reply s Hclosed).
    + by apply contexts_request_closed.
Qed.

(** A subscribe request on a client whose socket has just closed. *)
Lemma request_while_closed_fails_without_write_witness :
  Tags.request (ReqSubscribe ["news"]) (Ok [])
    (after Tags.onClose (Tags.connected None))
  = (Throw NotConnected, after Tags.onClose (Tags.connected None)).
Proof.
  apply (proj1 request_while_closed_fails_without_write). reflexivity.
Defined.


(** ** The loops as folds on plain labels *)

Section TagsPlainLoops.
Import Tags TagsPlain.

Lemma tags_set_tagMap_id s : set_tagMap (λ _, tagMap s) s = s.
Proof. by destruct s. Qed.

Lemma tags_add_uuid_loop_plain uuid tags b s :
  protoCount s = false → Forall plain tags →
  add_uuid_loop uuid tags b s =
    (Ok (foldl (add_uuid uuid) (tagMap s, b) tags).2,
     set_tagMap (λ _, (foldl (add_uuid uuid) (tagMap s, b) tags).1) s).
Proof.
  revert b s. induction tags as [|tag rest IH]; intros b s Hp Hplain.
  - simpl. by rewrite tags_set_tagMap_id.
  - apply Forall_cons in Hplain as [Htag Hrest].
    simpl. run_method. unfold tag_slot. rewrite Hp, property_plain by done.
    unfold add_uuid at 2 4. simpl.
    destruct (tagMap s !! tag) as [sub|] eqn:Hsub; simpl.
    + rewrite IH by done. done.
    + rewrite IH by done. done.
Qed.

Lemma tags_drop_uuid_loop_plain uuid tags s :
  protoCount s = false → Forall plain tags →
  drop_uuid_loop uuid tags s =
    (Ok tt, set_tagMap (λ _, foldl (drop_uuid uuid) (tagMap s) tags) s).
Proof.
  revert s. induction tags as [|tag rest IH]; intros s Hp Hplain.
  - simpl. by rewrite tags_set_tagMap_id.
  - apply Forall_cons in Hplain as [Htag Hrest].
    simpl. run_method. unfold tag_slot. rewrite Hp, property_plain by done.
    unfold drop_uuid at 2. simpl.
    destruct (tagMap s !! tag) as [sub|] eqn:Hsub; simpl.
    + rewrite IH by done. done.
    + rewrite IH by done. done.
Qed.

Lemma tags_subscribe_loop_plain tags batch s :
  protoCount s = false → Forall plain tags →
  subscribe_loop tags batch s =
    (Ok (foldl subscribe_step (tagMap s, batch) tags).2,
     set_tagMap (λ _, (foldl subscribe_step (tagMap s, batch) tags).1) s).
Proof.
  revert batch s. induction tags as [|tag rest IH]; intros batch s Hp Hplain.
  - simpl. by rewrite tags_set_tagMap_id.
  - apply Forall_cons in Hplain as [Htag Hrest].
    simpl. run_method. unfold tag_slot. rewrite Hp, property_plain by done.
    unfold subscribe_step at 2 4. simpl.
    destruct (tagMap s !! tag) as [sub|] eqn:Hsub; simpl.
    + rewrite IH by done. done.
    + rewrite IH by done. done.
Qed.

End TagsPlainLoops.

Section ContextsPlainLoops.
Import Contexts ContextsPlain.

Lemma contexts_set_contextMap_id s : set_contextMap (λ _, contextMap s) s = s.
Proof. by destruct s. Qed.

Lemma contexts_add_id_loop_plain oid l b s :
  protoCount s = false → Forall plain l →
  add_id_loop oid l b s =
    (Ok (foldl (add_id oid) (contextMap s, b) l).2,
     set_contextMap (λ _, (foldl (add_id oid) (contextMap s, b) l).1) s).
Proof.
  revert b s. induction l as [|ctx rest IH]; intros b s Hp Hplain.
  - simpl. by rewrite contexts_set_contextMap_id.
  - apply Forall_cons in Hplain as [Hctx Hrest].
    simpl. run_method. unfold context_slot. rewrite Hp, property_plain by done.
    unfold add_id at 2 4. simpl.
    destruct (contextMap s !! ctx) as [sub|] eqn:Hsub; simpl.
    + rewrite IH by done. done.
    + rewrite IH by done. done.
Qed.

Lemma contexts_subscribe_loop_plain l batch s :
  protoCount s = false → Forall plain l →
  subscribe_loop l batch s =
    (Ok (foldl subscribe_step (contextMap s, batch) l).2,
     set_contextMap (λ _, (foldl subscribe_step (contextMap s, batch) l).1) s).
Proof.
  revert batch s. induction l as [|ctx rest IH]; intros batch s Hp Hplain.
  - simpl. by rewrite contexts_set_contextMap_id.
  - apply Forall_cons in Hplain as [Hctx Hrest].
    simpl. run_method. unfold context_slot. rewrite Hp, property_plain by done.
    unfold subscribe_step at 2 4. simpl.
    destruct (contextMap s !! ctx) as [sub|] eqn:Hsub; simpl.
    + rewrite IH by done. done.
    + rewrite IH by done. done.
Qed.

End ContextsPlainLoops.

(** ** Subscribing *)

Lemma occurrences_non_null (t : string) (labels : list (option string)) :
  length (filter (λ x, x = t) (non_null labels)) = occurrences t labels.
Proof.
  unfold occurrences, non_null. induction labels as [|[x|] labels IH]; simpl.
  - done.
  - destruct (decide (x = t)) as [->|Hne].
    + rewrite !filter_cons_True by done. cbn [length]. by f_equal.
    + rewrite !filter_cons_False by congruence. done.
  - rewrite filter_cons_False by done. done.
Qed.

Lemma non_null_elem (t : string) (labels : list (option string)) :
  t ∈ non_null labels ↔ Some t ∈ labels.
Proof.
  unfold non_null. rewrite list_elem_of_omap. split.
  - intros [[x|] [Hin Hx]]; simpl in Hx; [|done]. by injection Hx as ->.
  - intros Hin. by exists (Some t).
Qed.

Lemma non_null_plain (labels : list (option string)) :
  (∀ l, Some l ∈ labels → plain l) → Forall plain (non_null labels).
Proof.
  intros Hall. apply Forall_forall. intros t Ht. by apply Hall, non_null_elem.
Qed.

Lemma plain_entries (labels : list (option string)) :
  bool_decide (Forall plain (non_null labels)) = true →
  ∀ l, Some l ∈ labels → plain l.
Proof.
  intros Hall%bool_decide_eq_true l Hl.
  by apply (proj1 (Forall_forall _ _) Hall), non_null_elem.
Qed.

Section TagsSubscribe.
Import Tags TagsPlain.

Lemma tags_subscribe_fold_lookup (l : list string) (m : gmap string subscription)
    (batch : list string) (t : string) :
  (foldl subscribe_step (m, batch) l).1 !! t =
    match m !! t with
    | Some sub =>
        Some {| uuids := uuids sub;
                count := count sub + Z.of_nat (length (filter (λ x, x = t) l)) |}
    | None =>
        match length (filter (λ x, x = t) l) with
        | O => None
        | S n => Some {| uuids := []; count := Z.of_nat (S n) |}
        end
    end.
Proof.
  revert m batch. induction l as [|x l IH]; intros m batch.
  - simpl. destruct (m !! t) as [[]|]; [|done]. simpl. by rewrite Z.add_0_r.
  - simpl. unfold subscribe_step at 2. simpl.
    destruct (m !! x) as [subx|] eqn:Hx; rewrite IH; clear IH.
    + destruct (decide (x = t)) as [->|Hne].
      * rewrite lookup_insert_eq, Hx, filter_cons_True by done. simpl.
        do 2 f_equal. lia.
      * rewrite lookup_insert_ne, filter_cons_False by done. done.
    + destruct (decide (x = t)) as [->|Hne].
      * rewrite lookup_insert_eq, Hx, filter_cons_True by done. simpl.
        do 2 f_equal. lia.
      * rewrite lookup_insert_ne, filter_cons_False by done. done.
Qed.

Lemma tags_subscribe_plain labels reply s :
  protoCount s = false → Forall plain (non_null labels) →
  subscribe labels reply s =
    (Ok tt,
     let r := foldl subscribe_step (tagMap s, []) (non_null labels) in
     if bool_decide (r.2 = []) || negb (open s)
     then set_tagMap (λ _, r.1) s
     else send (ReqSubscribe r.2) (set_tagMap (λ _, r.1) s)).
Proof.
  intros Hp Hplain. unfold subscribe. unfold bind at 1.
  rewrite tags_subscribe_loop_plain by done.
  case_bool_decide as Hbatch; simpl; [done|].
  unfold request. run_method. by destruct (open s), reply.
Qed.

Lemma tags_subscribe_tagMap labels reply s :
  protoCount s = false → Forall plain (non_null labels) →
  tagMap (after (subscribe labels reply) s)
  = (foldl subscribe_step (tagMap s, []) (non_null labels)).1.
Proof.
  intros Hp Hplain. unfold after. rewrite tags_subscribe_plain by done.
  simpl. by destruct (_ || _).
Qed.

End TagsSubscribe.

Section ContextsSubscribe.
Import Contexts ContextsPlain.

Lemma contexts_subscribe_fold_lookup (l : list string) (m : gmap string subscription)
    (batch : list string) (t : string) :
  (foldl subscribe_step (m, batch) l).1 !! t =
    match m !! t with
    | Some sub =>
        Some {| ids := ids sub;
                count := count sub + Z.of_nat (length (filter (λ x, x = t) l)) |}
    | None =>
        match length (filter (λ x, x = t) l) with
        | O => None
        | S n => Some {| ids := []; count := Z.of_nat (S n) |}
        end
    end.
Proof.
  revert m batch. induction l as [|x l IH]; intros m batch.
  - simpl. destruct (m !! t) as [[]|]; [|done]. simpl. by rewrite Z.add_0_r.
  - simpl. unfold subscribe_step at 2. simpl.
    destruct (m !! x) as [subx|] eqn:Hx; rewrite IH; clear IH.
    + destruct (decide (x = t)) as [->|Hne].
      * rewrite lookup_insert_eq, Hx, filter_cons_True by done. simpl.
        do 2 f_equal. lia.
      * rewrite lookup_insert_ne, filter_cons_False by done. done.
    + destruct (decide (x = t)) as [->|Hne].
      * rewrite lookup_insert_eq, Hx, filter_cons_True by done. simpl.
        do 2 f_equal. lia.
      * rewrite lookup_insert_ne, filter_cons_False by done. done.
Qed.

Lemma contexts_subscribe_plain labels reply s :
  protoCount s = false → Forall plain (non_null labels) →
  subscribe labels reply s =
    (Ok tt,
     let r := foldl subscribe_step (contextMap s, []) (non_null labels) in
     if bool_decide (r.2 = []) || negb (open s)
     then set_contextMap (λ _, r.1) s
     else send (ReqSubscribe r.2) (set_contextMap (λ _, r.1) s)).
Proof.
  intros Hp Hplain. unfold subscribe. unfold bind at 1.
  rewrite contexts_subscribe_loop_plain by done.
  case_bool_decide as Hbatch; simpl; [done|].
  unfold request. run_method. by destruct (open s), reply.
Qed.

Lemma contexts_subscribe_contextMap labels reply s :
  protoCount s = false → Forall plain (non_null labels) →
  contextMap (after (subscribe labels reply) s)
  = (foldl subscribe_step (contextMap s, []) (non_null labels)).1.
Proof.
  intros Hp Hplain. unfold after. rewrite contexts_subscribe_plain by done.
  simpl. by destruct (_ || _).
Qed.

End ContextsSubscribe.

(** C9 (as amended). [subscribe] drops the null entries of its list and
    nothing else: the empty string is a label like any other.  When no
    entry is a name that the registry inherits from [Object.prototype],
    then for a label [t] that occurs [n] times among the entries, a tracked
    record keeps its matched set and its count grows by [n]; an untracked
    label gets a record with an empty matched set and count [n] when
    [n > 0] (count 1 for a single occurrence) and stays untracked when
    [n = 0]. *)
Theorem subscribe_counts_non_null_occurrences :
  (∀ labels reply s t,
     Tags.protoCount s = false → (∀ l, Some l ∈ labels → plain l) →
     Tags.tagMap (after (Tags.subscribe labels reply) s) !! t =
       match Tags.tagMap s !! t with
       | Some sub =>
           Some {| Tags.uuids := Tags.uuids sub;
                   Tags.count := Tags.count sub + Z.of_nat (occurrences t labels) |}
       | None =>
           match occurrences t labels with
           | O => None
           | S n => Some {| Tags.uuids := []; Tags.count := Z.of_nat (S n) |}
           end
       end) ∧
  (∀ labels reply s t,
     Contexts.protoCount s = false → (∀ l, Some l ∈ labels → plain l) →
     Contexts.contextMap (after (Contexts.subscribe labels reply) s) !! t =
       match Contexts.contextMap s !! t with
       | Some sub =>
           Some {| Contexts.ids := Contexts.ids sub;
                   Contexts.count :=
                     Contexts.count sub + Z.of_nat (occurrences t labels) |}
       | None =>
           match occurrences t labels with
           | O => None
           | S n => Some {| Contexts.ids := []; Contexts.count := Z.of_nat (S n) |}
           end
       end).
Proof.
  split; intros labels reply s t Hp Hplain.
  - rewrite tags_subscribe_tagMap, tags_subscribe_fold_lookup
      by (done || by apply non_null_plain).
    by rewrite occurrences_non_null.
  - rewrite contexts_subscribe_contextMap, contexts_subscribe_fold_lookup
      by (done || by apply non_null_plain).
    by rewrite occurrences_non_null.
Qed.

(** Label "a" given twice, with a null entry between, to a fresh client. *)
Lemma subscribe_counts_non_null_occurrences_witness :
  Tags.tagMap
    (after (Tags.subscribe [Some "a"; None; Some "a"] (Ok [])) (Tags.connected None))
    !! "a"
  = Some {| Tags.uuids := []; Tags.count := 2 |}.
Proof.
  apply (proj1 subscribe_counts_non_null_occurrences
           [Some "a"; None; Some "a"] (Ok []) (Tags.connected None) "a").
  - reflexivity.
  - apply plain_entries. vm_compute. reflexivity.
Defined.

(** C9 (as stated) fails: an empty-string entry is registered, counted and
    sent like any other label; only the null entry is dropped.  A new label
    that the registry inherits from [Object.prototype] gets no record and
    is not sent. *)
Lemma subscribe_registers_empty_label :
  Tags.tagMap (after (Tags.subscribe [None; Some ""] (Ok [])) (Tags.connected None))
    = {[ "" := {| Tags.uuids := []; Tags.count := 1 |} ]} ∧
  Tags.wire (after (Tags.subscribe [None; Some ""] (Ok [])) (Tags.connected None))
    = [ReqSubscribe [""]] ∧
  Contexts.contextMap
    (after (Contexts.subscribe [None; Some ""] (Ok [])) Contexts.connected)
    = {[ "" := {| Contexts.ids := []; Contexts.count := 1 |} ]} ∧
  Contexts.wire
    (after (Contexts.subscribe [None; Some ""] (Ok [])) Contexts.connected)
    = [ReqSubscribe [""]] ∧
  Tags.tagMap (after (Tags.subscribe [Some "toString"] (Ok [])) (Tags.connected None))
    = ∅ ∧
  Tags.wire (after (Tags.subscribe [Some "toString"] (Ok [])) (Tags.connected None))
    = [] ∧
  Contexts.contextMap
    (after (Contexts.subscribe [Some "toString"] (Ok [])) Contexts.connected)
    = ∅ ∧
  Contexts.wire
    (after (Contexts.subscribe [Some "toString"] (Ok [])) Contexts.connected)
    = [].
Proof. repeat split; vm_compute; reflexivity. Qed.

(** ** Reference counts *)

Section TagsRefcount.
Import Tags.







End TagsRefcount.

Section ContextsRefcount.
Import Contexts.







End ContextsRefcount.


(** *** The registry invariant across arbitrary calls *)

Section TagsInvariant.
Import Tags.

Lemma tags_registry_ok_iff s :
  tags_registry_ok s ↔ ∀ t sub, tagMap s !! t = Some sub → 0 < count sub.
Proof.
  unfold tags_registry_ok, tags_refcount. split.
  - intros Hok t sub Ht. specialize (Hok t). rewrite Ht in Hok.
    apply Hok. by eexists.
  - intros Hpos t. destruct (tagMap s !! t) as [sub|] eqn:Ht; simpl.
    + split; [intros _; by eapply Hpos|by eexists].
    + split; [by intros [? ?]|lia].
Qed.






Lemma tags_unsubscribe_tagMap labels reply s :
  tagMap (after (unsubscribe labels reply) s)
  = tagMap (after (unsubscribe_loop (non_null labels) []) s).
Proof.
  unfold unsubscribe, request. run_method.
  destruct (unsubscribe_loop (non_null labels) [] s) as [[batch|e] s1];
    simpl; [|done].
  case_bool_decide; simpl; [done|].
  destruct (open s1), reply; done.
Qed.


End TagsInvariant.

Section ContextsInvariant.
Import Contexts.










End ContextsInvariant.




(** ** Reconnection *)

Lemma registered_keys {V} (m : gmap string V) (t : string) :
  t ∈ (map_to_list m).*1 ↔ is_Some (m !! t).
Proof.
  rewrite list_elem_of_fmap. split.
  - intros [[k v] [-> Hin]]. apply elem_of_map_to_list in Hin. by eexists.
  - intros [v Hv]. exists (t, v). split; [done|]. by apply elem_of_map_to_list.
Qed.

Section TagsReopen.
Import Tags.

Lemma tags_onOpen_eq reply s :
  protoCount s = false ∨ is_Some (tagMap s !! "count") →
  onOpen reply s =
    (match reply with
     | Ok _ => Ok tt
     | Throw e =>
         if bool_decide ((map_to_list (clear_uuids <$> tagMap s)).*1 = [])
         then Ok tt else Throw e
     end,
     {| open := true; myID := myID s;
        tagMap := clear_uuids <$> tagMap s;
        objectMap := ∅;
        wire := wire s ++
                (if bool_decide ((map_to_list (clear_uuids <$> tagMap s)).*1 = [])
                 then [] else [ReqSubscribe (map_to_list (clear_uuids <$> tagMap s)).*1]);
        protoCount := protoCount s; cacheProto := cacheProto s |}).
Proof.
  intros Hcount. unfold onOpen, request. run_method.
  assert (match tag_slot (set_tagMap (fmap clear_uuids) (set_open true s)) "count"
          with Inherited NotANumber => False | _ => True end) as Hslot.
  { unfold tag_slot, property. simpl. rewrite lookup_fmap.
    destruct Hcount as [Hp|[sub Hsub]].
    - rewrite Hp. destruct (tagMap s !! "count"); [done|]. by vm_compute.
    - by rewrite Hsub. }
  destruct (tag_slot _ "count") as [?|[| |]|]; try done; simpl;
    (destruct (bool_decide ((map_to_list (clear_uuids <$> tagMap s)).*1 = []));
     destruct reply; simpl; rewrite ?app_nil_r; done).
Qed.

End TagsReopen.

Section ContextsReopen.
Import Contexts.

Lemma contexts_onOpen_eq reply s :
  protoCount s = false ∨ is_Some (contextMap s !! "count") →
  onOpen reply s =
    (match reply with
     | Ok _ => Ok tt
     | Throw e =>
         if bool_decide ((map_to_list (clear_ids <$> contextMap s)).*1 = [])
         then Ok tt else Throw e
     end,
     {| open := true;
        contextMap := clear_ids <$> contextMap s;
        objectMap := ∅;
        wire := wire s ++
                (if bool_decide ((map_to_list (clear_ids <$> contextMap s)).*1 = [])
                 then [] else [ReqSubscribe (map_to_list (clear_ids <$> contextMap s)).*1]);
        protoCount := protoCount s; cacheProto := cacheProto s |}).
Proof.
  intros Hcount. unfold onOpen, request. run_method.
  assert (match context_slot (set_contextMap (fmap clear_ids) (set_open true s))
                  "count"
          with Inherited NotANumber => False | _ => True end) as Hslot.
  { unfold context_slot, property. simpl. rewrite lookup_fmap.
    destruct Hcount as [Hp|[sub Hsub]].
    - rewrite Hp. destruct (contextMap s !! "count"); [done|]. by vm_compute.
    - by rewrite Hsub. }
  destruct (context_slot _ "count") as [?|[| |]|]; try done; simpl;
    (destruct (bool_decide ((map_to_list (clear_ids <$> contextMap s)).*1 = []));
     destruct reply; simpl; rewrite ?app_nil_r; done).
Qed.

End ContextsReopen.




(** ** Inbound update pushes *)

Lemma set_add_elem (x y : string) (l : list string) :
  y ∈ set_add x l ↔ y = x ∨ y ∈ l.
Proof.
  unfold set_add. case_decide.
  - split; [by right|]. by intros [->|?].
  - rewrite elem_of_app, list_elem_of_singleton. tauto.
Qed.

Lemma set_add_idem (x : string) (l : list string) :
  set_add x (set_add x l) = set_add x l.
Proof.
  unfold set_add at 1. rewrite decide_True; [done|].
  apply set_add_elem. by left.
Qed.



Section TagsUpdate.
Import Tags TagsPlain.

Lemma tags_add_uuid_fold uuid (tags : list string) (m : gmap string subscription)
    (b : bool) :
  (∀ t, (foldl (add_uuid uuid) (m, b) tags).1 !! t
        = (if bool_decide (t ∈ tags) then tags_listed uuid else id) <$> m !! t) ∧
  (foldl (add_uuid uuid) (m, b) tags).2
  = b || bool_decide (filter (λ t, is_Some (m !! t)) tags ≠ []).
Proof.
  revert m b. induction tags as [|x tags IH]; intros m b.
  - split; [intros t|]; simpl.
    + by destruct (m !! t).
    + by rewrite orb_false_r.
  - simpl. unfold add_uuid at 2 4. simpl.
    destruct (m !! x) as [sub|] eqn:Hx.
    + destruct (IH (<[x := tags_listed uuid sub]> m) true) as [IHm IHb].
      change {| uuids := set_add uuid (uuids sub); count := count sub |}
        with (tags_listed uuid sub).
      split.
      * intros t. rewrite IHm. destruct (decide (x = t)) as [->|Hne].
        -- rewrite lookup_insert_eq, Hx. simpl.
           rewrite (bool_decide_eq_true_2 (t ∈ t :: tags)) by apply list_elem_of_here.
           destruct (bool_decide (t ∈ tags)); [|done].
           unfold tags_listed. simpl. by rewrite set_add_idem.
        -- rewrite lookup_insert_ne by done.
           destruct (m !! t); [|done]. simpl.
           rewrite (bool_decide_ext (t ∈ x :: tags) (t ∈ tags)); [done|].
           rewrite elem_of_cons. split; [intros [->|?]; done | by right].
      * rewrite IHb. simpl. rewrite filter_cons_True by (by rewrite Hx).
        rewrite bool_decide_eq_true_2 by done. by rewrite orb_true_r.
    + destruct (IH m b) as [IHm IHb]. split.
      * intros t. rewrite IHm. destruct (decide (x = t)) as [->|Hne].
        -- by rewrite Hx.
        -- destruct (m !! t); [|done]. simpl.
           rewrite (bool_decide_ext (t ∈ x :: tags) (t ∈ tags)); [done|].
           rewrite elem_of_cons. split; [intros [->|?]; done | by right].
      * rewrite IHb. rewrite filter_cons_False; [done|].
        rewrite Hx. by intros [? ?].
Qed.

Lemma tags_objectUUID_enumerable o :
  objectUUID (enumerable o) = objectUUID o.
Proof. done. Qed.


Lemma tags_identified_enumerable uuid o :
  Proxy (Raw (identified uuid (enumerable o))) = tags_installed uuid o.
Proof. done. Qed.

Lemma tags_store_plain uuid v s :
  uuid ≠ "__proto__" → store uuid v s = set_objectMap (insert uuid v) s.
Proof. intros Hne. unfold store. by rewrite bool_decide_eq_false_2. Qed.

End TagsUpdate.

Section TagsInbound.
Import Tags TagsPlain.

Lemma tags_inbound_update o uuid s :
  protoCount s = false → Forall plain (_tags o) → uuid ≠ "__proto__" →
  objectUUID o = Ok uuid →
  onMessage (FUpdate o) s =
    (Ok tt,
     if (foldl (add_uuid uuid) (tagMap s, false) (_tags o)).2
     then set_objectMap (insert uuid (tags_installed uuid o))
            (set_tagMap
               (λ _, (foldl (add_uuid uuid) (tagMap s, false) (_tags o)).1) s)
     else set_tagMap
            (λ _, (foldl (add_uuid uuid) (tagMap s, false) (_tags o)).1) s).
Proof.
  intros Hp Hplain Hne Huuid. unfold onMessage, updateCallback.
  unfold bind at 1 2. unfold lift at 1. cbn [deref].
  rewrite tags_objectUUID_enumerable, Huuid.
  unfold bind at 1.
  change (_tags (enumerable o)) with (_tags o).
  rewrite tags_add_uuid_loop_plain by done.
  destruct (foldl (add_uuid uuid) (tagMap s, false) (_tags o)) as [m [|]];
    cbn [fst snd negb]; [|done].
  run_method. by rewrite tags_store_plain.
Qed.

Lemma tags_inbound_update_matching o s t :
  is_Some (tagMap s !! t) → (t ∈ tags_matching s o ↔ t ∈ _tags o).
Proof.
  intros Hsome. unfold tags_matching. rewrite list_elem_of_filter. tauto.
Qed.

End TagsInbound.

Section ContextsUpdate.
Import Contexts ContextsPlain.

Lemma contexts_add_id_fold uuid (tags : list string) (m : gmap string subscription)
    (b : bool) :
  (∀ t, (foldl (add_id uuid) (m, b) tags).1 !! t
        = (if bool_decide (t ∈ tags) then contexts_listed uuid else Datatypes.id) <$> m !! t) ∧
  (foldl (add_id uuid) (m, b) tags).2
  = b || bool_decide (filter (λ t, is_Some (m !! t)) tags ≠ []).
Proof.
  revert m b. induction tags as [|x tags IH]; intros m b.
  - split; [intros t|]; simpl.
    + by destruct (m !! t).
    + by rewrite orb_false_r.
  - simpl. unfold add_id at 2 4. simpl.
    destruct (m !! x) as [sub|] eqn:Hx.
    + destruct (IH (<[x := contexts_listed uuid sub]> m) true) as [IHm IHb].
      change {| ids := set_add uuid (ids sub); count := count sub |}
        with (contexts_listed uuid sub).
      split.
      * intros t. rewrite IHm. destruct (decide (x = t)) as [->|Hne].
        -- rewrite lookup_insert_eq, Hx. simpl.
           rewrite (bool_decide_eq_true_2 (t ∈ t :: tags)) by apply list_elem_of_here.
           destruct (bool_decide (t ∈ tags)); [|done].
           unfold contexts_listed. simpl. by rewrite set_add_idem.
        -- rewrite lookup_insert_ne by done.
           destruct (m !! t); [|done]. simpl.
           rewrite (bool_decide_ext (t ∈ x :: tags) (t ∈ tags)); [done|].
           rewrite elem_of_cons. split; [intros [->|?]; done | by right].
      * rewrite IHb. simpl. rewrite filter_cons_True by (by rewrite Hx).
        rewrite bool_decide_eq_true_2 by done. by rewrite orb_true_r.
    + destruct (IH m b) as [IHm IHb]. split.
      * intros t. rewrite IHm. destruct (decide (x = t)) as [->|Hne].
        -- by rewrite Hx.
        -- destruct (m !! t); [|done]. simpl.
           rewrite (bool_decide_ext (t ∈ x :: tags) (t ∈ tags)); [done|].
           rewrite elem_of_cons. split; [intros [->|?]; done | by right].
      * rewrite IHb. rewrite filter_cons_False; [done|].
        rewrite Hx. by intros [? ?].
Qed.


Lemma contexts_store_plain oid v s :
  oid ≠ "__proto__" → store oid v s = set_objectMap (insert oid v) s.
Proof. intros Hne. unfold store. by rewrite bool_decide_eq_false_2. Qed.

Lemma contexts_wrap_enumerable o :
  wrap (Raw (enumerable o)) = contexts_installed o.
Proof.
  unfold wrap, has_marker, contexts_installed. simpl.
  by destruct (bool_decide ("__graffitiProxy" ∈ (payload o).*1)).
Qed.


End ContextsUpdate.

Section ContextsInbound.
Import Contexts ContextsPlain.


Lemma contexts_inbound_update_matching o s c :
  is_Some (contextMap s !! c) → (c ∈ contexts_matching s o ↔ c ∈ labels o).
Proof.
  intros Hsome. unfold contexts_matching. rewrite list_elem_of_filter. tauto.
Qed.

End ContextsInbound.

Lemma filter_nonempty_exists {A} (P : A → Prop) `{∀ x, Decision (P x)}
    (l : list A) :
  filter P l ≠ [] ↔ ∃ x, x ∈ l ∧ P x.
Proof.
  split.
  - intros Hne. destruct (filter P l) as [|x rest] eqn:Hf; [done|].
    exists x. assert (x ∈ filter P l) as Hin by (rewrite Hf; apply list_elem_of_here).
    apply list_elem_of_filter in Hin. tauto.
  - intros (x & Hin & HP) Hnil.
    by eapply (filter_nil_not_elem_of _ _ x Hnil).
Qed.

Lemma contexts_labels_elem (o : Contexts.object) (c : string) :
  c ∈ Contexts.labels o ↔ c ∈ Contexts.context o ∨ c = Contexts.id o.
Proof.
  unfold Contexts.labels. by rewrite elem_of_app, list_elem_of_singleton.
Qed.




(** ** Inbound remove pushes *)

Lemma set_delete_elem (x y : string) (l : list string) :
  y ∈ set_delete x l ↔ y ∈ l ∧ y ≠ x.
Proof. unfold set_delete. rewrite list_elem_of_filter. tauto. Qed.

Lemma set_delete_absent (x : string) (l : list string) :
  x ∉ l → set_delete x l = l.
Proof.
  unfold set_delete. induction l as [|y l IH]; intros Hnot; [done|].
  apply not_elem_of_cons in Hnot as [Hne Hnot].
  rewrite filter_cons_True by done. by rewrite IH.
Qed.

Lemma set_delete_idem (x : string) (l : list string) :
  set_delete x (set_delete x l) = set_delete x l.
Proof.
  apply set_delete_absent. rewrite set_delete_elem. by intros [_ ?].
Qed.

Section TagsRemove.
Import Tags TagsPlain.

Lemma tags_drop_uuid_fold uuid (tags : list string) (m : gmap string subscription)
    (t : string) :
  foldl (drop_uuid uuid) m tags !! t
  = (if bool_decide (t ∈ tags) then tags_unlisted uuid else id) <$> m !! t.
Proof.
  revert m. induction tags as [|x tags IH]; intros m.
  - simpl. by destruct (m !! t).
  - simpl. rewrite IH. unfold drop_uuid.
    destruct (decide (x = t)) as [->|Hne].
    + rewrite (bool_decide_eq_true_2 (t ∈ t :: tags)) by apply list_elem_of_here.
      destruct (m !! t) as [sub|] eqn:Ht.
      * rewrite lookup_insert_eq. simpl.
        destruct (bool_decide (t ∈ tags)); [|done].
        unfold tags_unlisted. simpl. by rewrite set_delete_idem.
      * by rewrite Ht.
    + rewrite (bool_decide_ext (t ∈ x :: tags) (t ∈ tags))
        by (rewrite elem_of_cons; split; [intros [->|?]; done | by right]).
      destruct (m !! x); [|done]. by rewrite lookup_insert_ne.
Qed.

Lemma tags_inbound_remove o uuid s :
  protoCount s = false → Forall plain (_tags o) →
  objectUUID o = Ok uuid →
  onMessage (FRemove o) s =
    (Ok tt,
     {| open := open s; myID := myID s;
        tagMap := foldl (drop_uuid uuid) (tagMap s) (_tags o);
        objectMap := delete uuid (objectMap s);
        wire := wire s;
        protoCount := protoCount s; cacheProto := cacheProto s |}).
Proof.
  intros Hp Hplain Huuid. unfold onMessage, removeCallback.
  unfold bind at 1. unfold lift at 1. cbn [deref].
  rewrite tags_objectUUID_enumerable, Huuid.
  unfold bind at 1.
  change (_tags (enumerable o)) with (_tags o).
  rewrite tags_drop_uuid_loop_plain by done.
  run_method. unfold has_property, property.
  destruct (objectMap s !! uuid) as [v|] eqn:Hv; simpl; [done|].
  destruct (inherits (protoCount s) uuid); simpl.
  - done.
  - unfold set_tagMap. simpl. by rewrite delete_id.
Qed.

End TagsRemove.

Section ContextsRemove.
Import Contexts.

Lemma contexts_supports_insert m o x sub c :
  x ∈ labels o →
  contexts_supports (<[x := sub]> m) o c ↔ contexts_supports m o c.
Proof.
  intros Hx. unfold contexts_supports. destruct (decide (x = c)) as [->|Hne].
  - tauto.
  - by rewrite lookup_insert_ne.
Qed.

Lemma contexts_drop_id_fold o (l : list string) (m : gmap string subscription)
    (b : bool) :
  (∀ c, (foldl (drop_id o) (m, b) l).1 !! c
        = (if bool_decide (c ∈ l ∧ c ∈ labels o)
           then contexts_unlisted (id o) else Datatypes.id) <$> m !! c) ∧
  (foldl (drop_id o) (m, b) l).2
  = b || bool_decide (filter (contexts_supports m o) l ≠ []).
Proof.
  revert m b. induction l as [|x l IH]; intros m b.
  - split; [intros c|]; simpl.
    + by destruct (m !! c).
    + by rewrite orb_false_r.
  - simpl.
    assert (∀ c, c ≠ x →
              bool_decide (c ∈ x :: l ∧ c ∈ labels o)
              = bool_decide (c ∈ l ∧ c ∈ labels o)) as Hother.
    { intros c Hne. apply bool_decide_ext. rewrite elem_of_cons. tauto. }
    unfold drop_id at 2 4. simpl.
    destruct (m !! x) as [sub|] eqn:Hx;
      [unfold set_has; destruct (decide (id o ∈ ids sub)) as [Hhas|Hhas];
       [rewrite (bool_decide_eq_true_2 _ Hhas);
        destruct (decide (x ∈ labels o)) as [Hlab|Hlab];
        [rewrite (bool_decide_eq_true_2 _ Hlab)
        |rewrite (bool_decide_eq_false_2 _ Hlab)]
       |rewrite (bool_decide_eq_false_2 _ Hhas)]|].
    + (* listed under a label of the object: the id is deleted *)
      change {| ids := set_delete (id o) (ids sub); count := count sub |}
        with (contexts_unlisted (id o) sub).
      destruct (IH (<[x := contexts_unlisted (id o) sub]> m) b) as [IHm IHb].
      split.
      * intros c. rewrite IHm. destruct (decide (c = x)) as [->|Hne].
        -- rewrite lookup_insert_eq, Hx. simpl.
           rewrite (bool_decide_eq_true_2 (x ∈ x :: l ∧ x ∈ labels o))
             by (split; [apply list_elem_of_here|done]).
           destruct (bool_decide (x ∈ l ∧ x ∈ labels o)); [|done].
           unfold contexts_unlisted. simpl. by rewrite set_delete_idem.
        -- rewrite lookup_insert_ne by done. by rewrite Hother.
      * rewrite IHb. simpl.
        rewrite filter_cons_False by (unfold contexts_supports; tauto).
        do 2 f_equal. apply bool_decide_ext.
        rewrite (list_filter_iff _ (contexts_supports m o)); [done|].
        intros c. by apply contexts_supports_insert.
    + (* listed under a label the object does not carry: supported *)
      destruct (IH m true) as [IHm IHb]. split.
      * intros c. rewrite IHm. destruct (decide (c = x)) as [->|Hne].
        -- rewrite Hx. simpl.
           by rewrite !bool_decide_eq_false_2 by tauto.
        -- by rewrite Hother.
      * rewrite IHb. simpl.
        rewrite filter_cons_True by (unfold contexts_supports; by rewrite Hx).
        rewrite (bool_decide_eq_true_2 (_ :: _ ≠ [])) by done.
        by rewrite orb_true_r.
    + (* not listed *)
      destruct (IH m b) as [IHm IHb]. split.
      * intros c. rewrite IHm. destruct (decide (c = x)) as [->|Hne].
        -- rewrite Hx. simpl.
           assert (contexts_unlisted (id o) sub = sub) as Hsame.
           { unfold contexts_unlisted. rewrite set_delete_absent by done.
             by destruct sub. }
           destruct (bool_decide (x ∈ l ∧ x ∈ labels o)),
             (bool_decide (x ∈ x :: l ∧ x ∈ labels o)); rewrite ?Hsame; done.
        -- by rewrite Hother.
      * rewrite IHb.
        rewrite filter_cons_False
          by (unfold contexts_supports; rewrite Hx; simpl; tauto).
        done.
    + (* not a key *)
      destruct (IH m b) as [IHm IHb]. split.
      * intros c. rewrite IHm. destruct (decide (c = x)) as [->|Hne].
        -- by rewrite Hx.
        -- by rewrite Hother.
      * rewrite IHb.
        rewrite filter_cons_False; [done|].
        unfold contexts_supports. rewrite Hx. simpl.
        intros [?%elem_of_nil _]. done.
Qed.

Lemma contexts_removeCallback_eq obj s :
  protoCount s = false ∨ is_Some (contextMap s !! "count") →
  removeCallback obj s =
    (Ok tt,
     let r := foldl (drop_id (deref obj)) (contextMap s, false)
                    (map_to_list (contextMap s)).*1 in
     {| open := open s;
        contextMap := r.1;
        objectMap := if r.2 then objectMap s
                     else delete (id (deref obj)) (objectMap s);
        wire := wire s;
        protoCount := protoCount s; cacheProto := cacheProto s |}).
Proof.
  intros Hcount. unfold removeCallback. run_method.
  set (o := deref obj).
  destruct (contexts_drop_id_fold o (map_to_list (contextMap s)).*1
              (contextMap s) false) as [Hm _].
  assert (match context_slot
                  (set_contextMap
                     (λ _, (foldl (drop_id o) (contextMap s, false)
                              (map_to_list (contextMap s)).*1).1) s) "count"
          with Inherited NotANumber => False | _ => True end) as Hslot.
  { unfold context_slot, property. simpl. rewrite Hm.
    destruct Hcount as [Hp|[sub Hsub]].
    - rewrite Hp. destruct (contextMap s !! "count"); [done|]. by vm_compute.
    - by rewrite Hsub. }
  destruct (foldl (drop_id o) (contextMap s, false) (map_to_list (contextMap s)).*1)
    as [m b]; simpl in *.
  assert ((if negb b && has_property (protoCount s) (objectMap s) (id o)
           then modify (set_objectMap (delete (id o))) else ret tt)
            (set_contextMap (λ _, m) s)
          = (Ok tt,
             {| open := open s; contextMap := m;
                objectMap := if b then objectMap s else delete (id o) (objectMap s);
                wire := wire s;
                protoCount := protoCount s; cacheProto := cacheProto s |}))
    as Hrest.
  { destruct b; simpl; [done|].
    unfold has_property, property.
    destruct (objectMap s !! id o) as [v|] eqn:Hv; simpl; [done|].
    destruct (inherits (protoCount s) (id o)); simpl; [done|].
    unfold set_contextMap; simpl; by rewrite delete_id. }
  destruct (context_slot _ "count") as [?|[| |]|]; try done; exact Hrest.
Qed.

Lemma contexts_inbound_remove o s :
  protoCount s = false ∨ is_Some (contextMap s !! "count") →
  onMessage (FRemove o) s =
    (Ok tt,
     let r := foldl (drop_id o) (contextMap s, false)
                    (map_to_list (contextMap s)).*1 in
     {| open := open s;
        contextMap := r.1;
        objectMap := if r.2 then objectMap s else delete (id o) (objectMap s);
        wire := wire s;
        protoCount := protoCount s; cacheProto := cacheProto s |}).
Proof.
  intros Hcount. unfold onMessage.
  by rewrite contexts_removeCallback_eq.
Qed.

End ContextsRemove.

Section ContextsForeign.
Import Contexts.

(** No subscribed label outside the object's own lists its identifier. *)
Lemma contexts_supporting_nil s o :
  contexts_supporting s o = [] ↔
  ¬ ∃ c sub, contextMap s !! c = Some sub ∧ id o ∈ ids sub ∧
             ¬ (c ∈ context o ∨ c = id o).
Proof.
  unfold contexts_supporting. split.
  - intros Hnil (c & sub & Hc & Hin & Hout).
    eapply (filter_nil_not_elem_of _ _ c Hnil).
    + unfold contexts_supports. rewrite Hc. simpl.
      split; [done|]. by rewrite contexts_labels_elem.
    + apply registered_keys. by rewrite Hc.
  - intros Hnone.
    destruct (filter _ _) as [|c rest] eqn:Hf; [done|]. exfalso.
    assert (c ∈ filter (contexts_supports (contextMap s) o)
                       (map_to_list (contextMap s)).*1) as Hin
      by (rewrite Hf; apply list_elem_of_here).
    apply list_elem_of_filter in Hin as [[Hlisted Hlab] _].
    destruct (contextMap s !! c) as [sub|] eqn:Hc;
      [|by apply elem_of_nil in Hlisted].
    apply Hnone. exists c, sub. split_and!; [done|done|].
    by rewrite <- contexts_labels_elem.
Qed.

End ContextsForeign.

(** C5 (as amended).  An inbound remove push none of whose tags is a name
    inherited from [Object.prototype] (tag revision), on a client whose
    registry inherits no [count], deletes the object's identifier from the
    matched set of each subscribed label the pushed object carries
    (context revision: its labels and its own id) and changes no other
    record.  Context revision: the cache entry is deleted iff no subscribed
    label outside the pushed object's labels lists the identifier, that
    is, iff no matched set lists it afterwards.  Tag revision: the cache
    entry is deleted in every case. *)
Theorem inbound_remove_unlists_own_labels :
  (∀ s o uuid,
     Tags.protoCount s = false → (∀ t, t ∈ Tags._tags o → plain t) →
     Tags.objectUUID o = Ok uuid →
     let s' := after (Tags.onMessage (FRemove o)) s in
     outcome (Tags.onMessage (FRemove o)) s = Ok tt ∧
     (∀ t, Tags.tagMap s' !! t
           = (λ sub,
                {| Tags.uuids :=
                     if bool_decide (t ∈ Tags._tags o)
                     then filter (λ u, u ≠ uuid) (Tags.uuids sub)
                     else Tags.uuids sub;
                   Tags.count := Tags.count sub |})
             <$> Tags.tagMap s !! t) ∧
     Tags.objectMap s' = delete uuid (Tags.objectMap s)) ∧
  (∀ s o,
     Contexts.protoCount s = false ∨ is_Some (Contexts.contextMap s !! "count") →
     let oid := Contexts.id o in
     let carries c := c ∈ Contexts.context o ∨ c = oid in
     let foreign := ∃ c sub, Contexts.contextMap s !! c = Some sub ∧
                             oid ∈ Contexts.ids sub ∧ ¬ carries c in
     let s' := after (Contexts.onMessage (FRemove o)) s in
     outcome (Contexts.onMessage (FRemove o)) s = Ok tt ∧
     (∀ c, Contexts.contextMap s' !! c
           = (λ sub,
                {| Contexts.ids :=
                     if bool_decide (carries c)
                     then filter (λ u, u ≠ oid) (Contexts.ids sub)
                     else Contexts.ids sub;
                   Contexts.count := Contexts.count sub |})
             <$> Contexts.contextMap s !! c) ∧
     (foreign → Contexts.objectMap s' = Contexts.objectMap s) ∧
     (¬ foreign → Contexts.objectMap s' = delete oid (Contexts.objectMap s)) ∧
     (¬ foreign ↔
      ∀ c sub', Contexts.contextMap s' !! c = Some sub' →
                oid ∉ Contexts.ids sub')).
Proof.
  split.
  - intros s o uuid Hp Hplain Huuid.
    assert (Forall plain (Tags._tags o)) as Hall by (by apply Forall_forall).
    unfold after, outcome.
    rewrite (tags_inbound_remove o uuid s Hp Hall Huuid).
    cbn [fst snd Tags.tagMap Tags.objectMap].
    split_and!; [done| |done]. intros t. rewrite tags_drop_uuid_fold.
    destruct (Tags.tagMap s !! t) as [sub|]; [|done]. simpl. f_equal.
    destruct (bool_decide (t ∈ Tags._tags o)); [done|by destruct sub].
  - intros s o Hcount oid carries foreign. unfold after, outcome.
    rewrite (contexts_inbound_remove o s Hcount).
    cbn [fst snd Contexts.contextMap Contexts.objectMap].
    destruct (contexts_drop_id_fold o (map_to_list (Contexts.contextMap s)).*1
                (Contexts.contextMap s) false) as [Hm Hb].
    fold (contexts_supporting s o) in Hb. cbn [orb] in Hb.
    assert (∀ c, (foldl (Contexts.drop_id o) (Contexts.contextMap s, false)
                    (map_to_list (Contexts.contextMap s)).*1).1 !! c
                 = (λ sub,
                      {| Contexts.ids :=
                           if bool_decide (carries c)
                           then filter (λ u, u ≠ oid) (Contexts.ids sub)
                           else Contexts.ids sub;
                         Contexts.count := Contexts.count sub |})
                   <$> Contexts.contextMap s !! c) as Hlookup.
    { intros c. rewrite Hm.
      destruct (Contexts.contextMap s !! c) as [sub|] eqn:Hc; [|done].
      simpl. f_equal.
      destruct (decide (carries c)) as [Hcar|Hcar].
      - rewrite (bool_decide_eq_true_2 (carries c)) by done.
        rewrite bool_decide_eq_true_2; [done|].
        split; [apply registered_keys; by rewrite Hc
               |by apply contexts_labels_elem].
      - rewrite (bool_decide_eq_false_2 (carries c)) by done.
        rewrite bool_decide_eq_false_2; [by destruct sub|].
        intros [_ Hlab]. by apply Hcar, contexts_labels_elem. }
    assert (contexts_supporting s o = [] ↔ ¬ foreign) as Hforeign
      by apply contexts_supporting_nil.
    split_and!.
    + done.
    + exact Hlookup.
    + intros Hf. rewrite Hb. rewrite bool_decide_eq_true_2; [done|].
      intros Hnil. by apply Hforeign in Hnil.
    + intros Hf. rewrite Hb.
      by rewrite bool_decide_eq_false_2 by (intros Hne; by apply Hne, Hforeign).
    + split.
      * intros Hnone c sub' Hc'. rewrite Hlookup in Hc'.
        destruct (Contexts.contextMap s !! c) as [sub|] eqn:Hc; [|done].
        simpl in Hc'. injection Hc' as <-. cbn [Contexts.ids].
        destruct (decide (carries c)) as [Hcar|Hcar];
          [rewrite bool_decide_eq_true_2 by done
          |rewrite bool_decide_eq_false_2 by done].
        -- rewrite list_elem_of_filter. tauto.
        -- intros Hin. apply Hnone. by exists c, sub.
      * intros Hclean (c & sub & Hc & Hin & Hout).
        apply (Hclean c {| Contexts.ids := Contexts.ids sub;
                           Contexts.count := Contexts.count sub |});
          [|done].
        rewrite Hlookup, Hc. simpl. by rewrite bool_decide_eq_false_2.
Qed.

(** A remove push for the one cached object of a client subscribed to "news". *)
Lemma inbound_remove_unlists_own_labels_witness :
  let s0 := after (Tags.subscribe [Some "news"] (Ok [])) (Tags.connected None) in
  let o := Samples.tagged "u1" "k1" ["news"] "hello" in
  let s := after (Tags.onMessage (FUpdate o)) s0 in
  Tags.objectUUID o = Ok "u1k1" ∧
  Tags.objectMap (after (Tags.onMessage (FRemove o)) s)
  = delete "u1k1" (Tags.objectMap s).
Proof.
  intros s0 o s.
  assert (Tags.objectUUID o = Ok "u1k1") as Huuid by reflexivity.
  assert (∀ t, t ∈ Tags._tags o → plain t) as Hplain.
  { apply (proj1 (Forall_forall _ _)).
    apply (bool_decide_eq_true_1 _). vm_compute. reflexivity. }
  split; [exact Huuid|].
  exact (proj2 (proj2 (proj1 inbound_remove_unlists_own_labels s o "u1k1"
                         eq_refl Hplain Huuid))).
Defined.


(** C5 (as stated) fails.  Context revision: with "a" and "b" both listing
    object "x", a remove push for "x" carrying only "a" leaves "x" in the
    matched set of "b", the label the pushed object does not belong to.
    Tag revision: the same push evicts the object although "b" still lists
    it. *)
Lemma inbound_remove_keeps_foreign_listing :
  (let s0 := after (Contexts.subscribe [Some "a"; Some "b"] (Ok []))
                   Contexts.connected in
   let s := after (Contexts.onMessage
                     (FUpdate (Samples.filed "x" ["a"; "b"] "t"))) s0 in
   let o := Samples.filed "x" ["a"] "t" in
   let s' := after (Contexts.onMessage (FRemove o)) s in
   ¬ removes_from_foreign_sets s s' o) ∧
  (let s0 := after (Tags.subscribe [Some "a"; Some "b"] (Ok []))
                   (Tags.connected None) in
   let s := after (Tags.onMessage
                     (FUpdate (Samples.tagged "u1" "k1" ["a"; "b"] "t"))) s0 in
   let o := Samples.tagged "u1" "k1" ["a"] "t" in
   let s' := after (Tags.onMessage (FRemove o)) s in
   Tags.objectMap s' = ∅ ∧ tags_still_listed s' "u1k1").
Proof.
  split.
  - intros s0 s o s' Hclaim.
    apply (Hclaim "b" {| Contexts.ids := ["x"]; Contexts.count := 1 |}
                      {| Contexts.ids := ["x"]; Contexts.count := 1 |}).
    + vm_compute. reflexivity.
    + apply list_elem_of_here.
    + vm_compute. intros Hin. inversion Hin as [|? ? ? Hin']; subst.
      inversion Hin' as [|? ? ? Hin'']; subst. inversion Hin''.
    + vm_compute. reflexivity.
    + apply list_elem_of_here.
  - intros s0 s o s'. split.
    + vm_compute. reflexivity.
    + exists "b", {| Tags.uuids := ["u1k1"]; Tags.count := 1 |}. split.
      * vm_compute. reflexivity.
      * apply list_elem_of_here.
Qed.

(** ** Wrapping *)

(** ** Wrapping *)

Lemma deref_on_target {A} (f : A → A) (r : ref A) :
  deref (on_target f r) = f (deref r).
Proof. induction r as [a|t IH]; simpl; [done|exact IH]. Qed.



Section ContextsWrap.
Import Contexts ContextsPlain.




Lemma contexts_wrap_id obj : id (deref (wrap obj)) = id (deref obj).
Proof.
  unfold wrap. destruct (has_marker (deref obj)); [done|].
  simpl. by rewrite deref_on_target.
Qed.

Lemma contexts_wrap_labels obj : labels (deref (wrap obj)) = labels (deref obj).
Proof.
  unfold wrap. destruct (has_marker (deref obj)); [done|].
  simpl. by rewrite deref_on_target.
Qed.


Lemma contexts_updateCallback_eq obj s :
  protoCount s = false → Forall plain (labels (deref obj)) →
  id (deref obj) ≠ "__proto__" →
  updateCallback obj s =
    (Ok (wrap obj),
     let r := foldl (add_id (id (deref obj))) (contextMap s, false)
                    (labels (deref obj)) in
     {| open := open s;
        contextMap := r.1;
        objectMap := if r.2 then <[id (deref obj) := wrap obj]> (objectMap s)
                     else objectMap s;
        wire := wire s;
        protoCount := protoCount s; cacheProto := cacheProto s |}).
Proof.
  intros Hp Hplain Hne. unfold updateCallback. unfold bind at 1.
  rewrite contexts_add_id_loop_plain by done.
  destruct (foldl (add_id (id (deref obj))) (contextMap s, false)
                  (labels (deref obj))) as [m [|]]; cbn [fst snd].
  - run_method. rewrite contexts_wrap_id, contexts_store_plain by done. done.
  - done.
Qed.


End ContextsWrap.




(** * Further properties *)

(** * Further properties *)

(** ** Insertion-ordered sets *)

Lemma set_add_NoDup (x : string) (l : list string) :
  NoDup l → NoDup (set_add x l).
Proof.
  intros Hl. unfold set_add. case_decide as Hin; [done|].
  apply NoDup_app. split_and!; [done| |apply NoDup_singleton].
  intros y Hy ->%list_elem_of_singleton. done.
Qed.

Lemma foldl_set_add_NoDup (l acc : list string) :
  NoDup acc → NoDup (foldl (λ acc x, set_add x acc) acc l).
Proof.
  revert acc. induction l as [|x l IH]; intros acc Hacc; [done|].
  simpl. by apply IH, set_add_NoDup.
Qed.

Lemma foldl_set_add_elem (l acc : list string) (y : string) :
  y ∈ foldl (λ acc x, set_add x acc) acc l ↔ y ∈ acc ∨ y ∈ l.
Proof.
  revert acc. induction l as [|x l IH]; intros acc; simpl.
  - rewrite elem_of_nil. tauto.
  - rewrite IH, set_add_elem, elem_of_cons. tauto.
Qed.

Lemma foldl_set_add_fresh (l acc : list string) :
  NoDup (acc ++ l) → foldl (λ acc x, set_add x acc) acc l = acc ++ l.
Proof.
  revert acc. induction l as [|x l IH]; intros acc Hnd; simpl.
  - by rewrite app_nil_r.
  - assert (x ∉ acc) as Hx.
    { apply NoDup_app in Hnd as (_ & Hdisj & _). intros Hin.
      apply (Hdisj x Hin). by left. }
    unfold set_add at 2. rewrite decide_False by done.
    rewrite IH; rewrite <- app_assoc; done.
Qed.

Lemma dedupe_NoDup (l : list string) : NoDup (dedupe l).
Proof. apply foldl_set_add_NoDup, NoDup_nil_2. Qed.

Lemma dedupe_elem (l : list string) (y : string) : y ∈ dedupe l ↔ y ∈ l.
Proof. unfold dedupe. rewrite foldl_set_add_elem, elem_of_nil. tauto. Qed.

Lemma dedupe_NoDup_id (l : list string) : NoDup l → dedupe l = l.
Proof. intros Hl. unfold dedupe. by rewrite foldl_set_add_fresh. Qed.

Lemma foldl_set_add_first (l acc : list string) :
  foldl (λ acc x, set_add x acc) acc l
  = acc ++ filter (λ y, y ∉ acc) (first_occurrences l).
Proof.
  revert acc. induction l as [|x l IH]; intros acc; simpl.
  - by rewrite app_nil_r.
  - rewrite IH. unfold set_add. destruct (decide (x ∈ acc)) as [Hin|Hout].
    + rewrite filter_cons_False by (intros Hx; by apply Hx).
      f_equal. rewrite list_filter_filter. apply list_filter_iff.
      intros y. split; [|tauto]. intros Hy. split; [done|].
      intros ->. done.
    + rewrite filter_cons_True by done.
      rewrite <- app_assoc. simpl. do 2 f_equal.
      rewrite list_filter_filter. apply list_filter_iff.
      intros y. rewrite not_elem_of_app, list_elem_of_singleton. tauto.
Qed.

Lemma dedupe_first_occurrences (l : list string) :
  dedupe l = first_occurrences l.
Proof.
  unfold dedupe. rewrite foldl_set_add_first. simpl.
  induction (first_occurrences l) as [|y r IH]; [done|].
  rewrite filter_cons_True by apply not_elem_of_nil. by f_equal.
Qed.

(** ** Views of the cache *)

Lemma inherits_not_plain (k : string) :
  ¬ plain k →
  inherits false k
  = Some (if bool_decide (k = "__proto__") then Prototype else Method).
Proof.
  unfold plain, prototype_names, inherits. intros Hk.
  destruct (decide (k = "__proto__")) as [->|Hne]; [done|].
  rewrite !(bool_decide_eq_false_2 (k = "__proto__")) by done.
  rewrite bool_decide_eq_true_2; [done|].
  destruct (decide (k ∈ prototype_methods)) as [Hin|Hout]; [done|].
  exfalso. apply Hk. by apply not_elem_of_cons.
Qed.

Lemma property_entry_of {A} (m : gmap string A) (k : string) :
  property false m k = entry_of m k.
Proof.
  unfold property, entry_of. destruct (m !! k); [done|].
  destruct (decide (plain k)) as [Hk|Hk].
  - by rewrite inherits_plain, bool_decide_eq_true_2.
  - rewrite inherits_not_plain by done.
    by rewrite (bool_decide_eq_false_2 (plain k)).
Qed.

Lemma has_property_false_iff {A} (m : gmap string A) (k : string) :
  has_property false m k = false ↔ m !! k = None ∧ plain k.
Proof.
  unfold has_property. rewrite property_entry_of. unfold entry_of.
  destruct (m !! k); [by split; [|intros [? _]]|].
  destruct (decide (plain k)) as [Hk|Hk].
  - by rewrite bool_decide_eq_true_2.
  - rewrite bool_decide_eq_false_2 by done. split; [done|tauto].
Qed.

Section TagsObjects.
Import Tags.

Lemma tags_first_unsubscribed_None s (l : list string) :
  protoCount s = false →
  first_unsubscribed s l = None ↔
  ∀ t, t ∈ l → is_Some (tagMap s !! t) ∨ ¬ plain t.
Proof.
  intros Hp. induction l as [|x l IH]; simpl.
  - split; [intros _ t Ht; by apply elem_of_nil in Ht|done].
  - rewrite Hp. destruct (has_property false (tagMap s) x) eqn:Hx.
    + rewrite IH. split.
      * intros Hall t Ht.
        apply elem_of_cons in Ht as [Heq|Ht]; [subst t|by apply Hall].
        destruct (tagMap s !! x) eqn:Hs; [left; by eexists|].
        right. intros Hplain.
        assert (has_property false (tagMap s) x = false) as Hf
          by (by apply has_property_false_iff).
        congruence.
      * intros Hall t Ht. apply Hall. by right.
    + split; [done|]. intros Hall.
      apply has_property_false_iff in Hx as [Hnone Hplain].
      destruct (Hall x) as [[? Hsome]|Hnot]; [by left|congruence|done].
Qed.

Lemma tags_first_unsubscribed_Some s (l : list string) t :
  protoCount s = false →
  first_unsubscribed s l = Some t → t ∈ l ∧ tagMap s !! t = None ∧ plain t.
Proof.
  intros Hp. induction l as [|x l IH]; simpl; [done|].
  rewrite Hp. destruct (has_property false (tagMap s) x) eqn:Hx.
  - intros [Hin Ht]%IH. split; [by right|done].
  - intros [= <-]. split; [by left|]. by apply has_property_false_iff.
Qed.

Lemma tags_matched_sets_None s (l : list string) :
  matched_sets s l = None ↔ ∃ t, t ∈ l ∧ tagMap s !! t = None.
Proof.
  induction l as [|x l IH]; simpl.
  - split; [done|]. by intros (t & Ht%elem_of_nil & _).
  - unfold tag_slot, property.
    destruct (tagMap s !! x) as [sub|] eqn:Hx.
    + rewrite fmap_None, IH. split.
      * intros (t & Ht & Hnone). exists t. split; [by right|done].
      * intros (t & [->|Ht]%elem_of_cons & Hnone); [congruence|by exists t].
    + split; [|by destruct (inherits _ _)].
      intros _. exists x. split; [by left|done].
Qed.

Lemma tags_matched_sets_Some s (l : list string) sets :
  matched_sets s l = Some sets →
  concat sets = l ≫= λ t, from_option uuids [] (tagMap s !! t).
Proof.
  revert sets. induction l as [|x l IH]; intros sets; simpl.
  - by intros [= <-].
  - unfold tag_slot, property.
    destruct (tagMap s !! x) as [sub|] eqn:Hx;
      [|by destruct (inherits _ _)].
    destruct (matched_sets s l) as [rest|]; [|done].
    intros [= <-]. simpl. by rewrite (IH rest).
Qed.

End TagsObjects.

(** X1. [objects] of the tag revision, on a client whose prototypes are as
    at construction.  It throws for a requested tag that is neither
    subscribed nor a name inherited from [Object.prototype], naming such a
    tag.  Failing that, it faults when a requested tag is an inherited name
    that is not subscribed.  When every requested tag is subscribed it
    gives one element per identifier listed under any of them, each
    identifier once, the element being what the cache gives for the
    identifier: the entry, [undefined], or an inherited value when the
    identifier is an inherited name without an entry.  Null arguments are
    ignored. *)
Theorem tags_objects_merges_listed_ids (tags : list (option string))
    (s : Tags.state) :
  tags_standard s →
  match Tags.objects tags s with
  | NotSubscribed t => Some t ∈ tags ∧ Tags.tagMap s !! t = None ∧ plain t
  | Unreadable =>
      (∀ t, Some t ∈ tags → plain t → is_Some (Tags.tagMap s !! t)) ∧
      ∃ t, Some t ∈ tags ∧ Tags.tagMap s !! t = None ∧ ¬ plain t
  | Objects elements =>
      (∀ t, Some t ∈ tags → is_Some (Tags.tagMap s !! t)) ∧
      ∃ uuids, NoDup uuids ∧
               (∀ u, u ∈ uuids ↔ tags_listed_under s tags u) ∧
               elements = entry_of (Tags.objectMap s) <$> uuids
  end.
Proof.
  intros [Hp _]. unfold Tags.objects.
  destruct (Tags.first_unsubscribed s (non_null tags)) as [t|] eqn:Hfirst.
  - apply tags_first_unsubscribed_Some in Hfirst as [Hin Hnone]; [|done].
    by rewrite non_null_elem in Hin.
  - rewrite tags_first_unsubscribed_None in Hfirst by done.
    destruct (Tags.matched_sets s (non_null tags)) as [sets|] eqn:Hsets.
    + assert (∀ t, Some t ∈ tags → is_Some (Tags.tagMap s !! t)) as Hall.
      { intros t Ht.
        destruct (Tags.tagMap s !! t) as [sub|] eqn:Hs; [by eexists|].
        assert (Tags.matched_sets s (non_null tags) = None) as Hcontra.
        { apply tags_matched_sets_None. exists t. by rewrite non_null_elem. }
        congruence. }
      split; [done|].
      exists (dedupe (concat sets)). split_and!; [apply dedupe_NoDup| |].
      * intros u. rewrite dedupe_elem, (tags_matched_sets_Some s _ sets Hsets).
        rewrite list_elem_of_bind. unfold tags_listed_under. split.
        -- intros (t & Hu & Ht).
           destruct (Tags.tagMap s !! t) as [sub|] eqn:Hs;
             [|by apply elem_of_nil in Hu].
           exists t, sub. by rewrite <- non_null_elem.
        -- intros (t & sub & Ht & Hs & Hu). exists t. rewrite Hs.
           by rewrite non_null_elem.
      * apply list_fmap_ext. intros i u _. unfold Tags.cache_slot.
        rewrite Hp. apply property_entry_of.
    + apply tags_matched_sets_None in Hsets as (t & Ht & Hnone). split.
      * intros t' Ht' Hplain.
        destruct (Hfirst t') as [Hsome|Hnot]; [by apply non_null_elem|done|done].
      * exists t. rewrite <- non_null_elem. split_and!; [done|done|].
        destruct (Hfirst t Ht) as [[? Hsome]|Hnot]; [congruence|done].
Qed.

(** A client subscribed to "news" that has received one object. *)
Lemma tags_objects_merges_listed_ids_witness :
  let s := after (Tags.onMessage
                    (FUpdate (Samples.tagged "u1" "k1" ["news"] "t")))
             (after (Tags.subscribe [Some "news"] (Ok [])) (Tags.connected None)) in
  Tags.objects [Some "news"; None] s
  = Objects [Own (Samples.cached_tagged "u1" "k1" ["news"] "t")] ∧
  ∀ t, Some t ∈ [Some "news"; None] → is_Some (Tags.tagMap s !! t).
Proof.
  intros s. split; [vm_compute; reflexivity|].
  pose proof (tags_objects_merges_listed_ids [Some "news"; None] s
                (conj eq_refl eq_refl)) as Hview.
  replace (Tags.objects [Some "news"; None] s)
    with (Objects [Own (Samples.cached_tagged "u1" "k1" ["news"] "t")])
    in Hview by (vm_compute; reflexivity).
  exact (proj1 Hview).
Defined.

Section ContextsObjects.
Import Contexts.

Lemma contexts_first_unsubscribed_None s (l : list string) :
  protoCount s = false →
  first_unsubscribed s l = None ↔
  ∀ t, t ∈ l → is_Some (contextMap s !! t) ∨ ¬ plain t.
Proof.
  intros Hp. induction l as [|x l IH]; simpl.
  - split; [intros _ t Ht; by apply elem_of_nil in Ht|done].
  - rewrite Hp. destruct (has_property false (contextMap s) x) eqn:Hx.
    + rewrite IH. split.
      * intros Hall t Ht.
        apply elem_of_cons in Ht as [Heq|Ht]; [subst t|by apply Hall].
        destruct (contextMap s !! x) eqn:Hs; [left; by eexists|].
        right. intros Hplain.
        assert (has_property false (contextMap s) x = false) as Hf
          by (by apply has_property_false_iff).
        congruence.
      * intros Hall t Ht. apply Hall. by right.
    + split; [done|]. intros Hall.
      apply has_property_false_iff in Hx as [Hnone Hplain].
      destruct (Hall x) as [[? Hsome]|Hnot]; [by left|congruence|done].
Qed.

Lemma contexts_first_unsubscribed_Some s (l : list string) t :
  protoCount s = false →
  first_unsubscribed s l = Some t → t ∈ l ∧ contextMap s !! t = None ∧ plain t.
Proof.
  intros Hp. induction l as [|x l IH]; simpl; [done|].
  rewrite Hp. destruct (has_property false (contextMap s) x) eqn:Hx.
  - intros [Hin Ht]%IH. split; [by right|done].
  - intros [= <-]. split; [by left|]. by apply has_property_false_iff.
Qed.

Lemma contexts_matched_sets_None s (l : list string) :
  matched_sets s l = None ↔ ∃ t, t ∈ l ∧ contextMap s !! t = None.
Proof.
  induction l as [|x l IH]; simpl.
  - split; [done|]. by intros (t & Ht%elem_of_nil & _).
  - unfold context_slot, property.
    destruct (contextMap s !! x) as [sub|] eqn:Hx.
    + rewrite fmap_None, IH. split.
      * intros (t & Ht & Hnone). exists t. split; [by right|done].
      * intros (t & [->|Ht]%elem_of_cons & Hnone); [congruence|by exists t].
    + split; [|by destruct (inherits _ _)].
      intros _. exists x. split; [by left|done].
Qed.

Lemma contexts_matched_sets_Some s (l : list string) sets :
  matched_sets s l = Some sets →
  concat sets = l ≫= λ t, from_option ids [] (contextMap s !! t).
Proof.
  revert sets. induction l as [|x l IH]; intros sets; simpl.
  - by intros [= <-].
  - unfold context_slot, property.
    destruct (contextMap s !! x) as [sub|] eqn:Hx;
      [|by destruct (inherits _ _)].
    destruct (matched_sets s l) as [rest|]; [|done].
    intros [= <-]. simpl. by rewrite (IH rest).
Qed.

End ContextsObjects.

(** X2. [objects] of the context revision does the same over the given
    contexts; called without a list it asks for the single context named
    after the session's actor, and for no context at all when nobody is
    logged in, which gives the empty array. *)
Theorem contexts_objects_merges_listed_ids (me : option string)
    (contexts : option (list (option string))) (s : Contexts.state) :
  contexts_standard s →
  let asked := default [me] contexts in
  match Contexts.objects me contexts s with
  | NotSubscribed c =>
      Some c ∈ asked ∧ Contexts.contextMap s !! c = None ∧ plain c
  | Unreadable =>
      (∀ c, Some c ∈ asked → plain c → is_Some (Contexts.contextMap s !! c)) ∧
      ∃ c, Some c ∈ asked ∧ Contexts.contextMap s !! c = None ∧ ¬ plain c
  | Objects elements =>
      (∀ c, Some c ∈ asked → is_Some (Contexts.contextMap s !! c)) ∧
      (contexts = None → me = None → elements = []) ∧
      ∃ oids, NoDup oids ∧
              (∀ u, u ∈ oids ↔ contexts_listed_under s asked u) ∧
              elements = entry_of (Contexts.objectMap s) <$> oids
  end.
Proof.
  intros [Hp _] asked. unfold Contexts.objects. fold asked.
  destruct (Contexts.first_unsubscribed s (non_null asked)) as [c|] eqn:Hfirst.
  - apply contexts_first_unsubscribed_Some in Hfirst as [Hin Hnone]; [|done].
    by rewrite non_null_elem in Hin.
  - rewrite contexts_first_unsubscribed_None in Hfirst by done.
    destruct (Contexts.matched_sets s (non_null asked)) as [sets|] eqn:Hsets.
    + assert (∀ c, Some c ∈ asked → is_Some (Contexts.contextMap s !! c))
        as Hall.
      { intros c Hc.
        destruct (Contexts.contextMap s !! c) as [sub|] eqn:Hs; [by eexists|].
        assert (Contexts.matched_sets s (non_null asked) = None) as Hcontra.
        { apply contexts_matched_sets_None. exists c. by rewrite non_null_elem. }
        congruence. }
      split_and!; [done| |].
      * intros -> ->. subst asked. simpl in Hsets. by injection Hsets as <-.
      * exists (dedupe (concat sets)). split_and!; [apply dedupe_NoDup| |].
        -- intros u.
           rewrite dedupe_elem, (contexts_matched_sets_Some s _ sets Hsets).
           rewrite list_elem_of_bind. unfold contexts_listed_under. split.
           ++ intros (c & Hu & Hc).
              destruct (Contexts.contextMap s !! c) as [sub|] eqn:Hs;
                [|by apply elem_of_nil in Hu].
              exists c, sub. by rewrite <- non_null_elem.
           ++ intros (c & sub & Hc & Hs & Hu). exists c. rewrite Hs.
              by rewrite non_null_elem.
        -- apply list_fmap_ext. intros i u _. unfold Contexts.cache_slot.
           rewrite Hp. apply property_entry_of.
    + apply contexts_matched_sets_None in Hsets as (c & Hc & Hnone). split.
      * intros c' Hc' Hplain.
        destruct (Hfirst c') as [Hsome|Hnot]; [by apply non_null_elem|done|done].
      * exists c. rewrite <- non_null_elem. split_and!; [done|done|].
        destruct (Hfirst c Hc) as [[? Hsome]|Hnot]; [congruence|done].
Qed.

(** A logged-out client asking for its own context. *)
Lemma contexts_objects_merges_listed_ids_witness :
  Contexts.objects None None Contexts.connected = Objects [].
Proof.
  pose proof (contexts_objects_merges_listed_ids None None Contexts.connected
                (conj eq_refl eq_refl)) as Hview.
  cbv zeta in Hview.
  destruct (Contexts.objects None None Contexts.connected) as [c| |elements]
    eqn:Hobj; [by vm_compute in Hobj|by vm_compute in Hobj|].
  destruct Hview as (_ & Hempty & _). by rewrite (Hempty eq_refl eq_refl).
Defined.

(** ** Listed identifiers stay cached *)

Section TagsDangling.
Import Tags TagsPlain.

Lemma tags_no_dangling_maps s s' :
  tagMap s' = tagMap s → objectMap s' = objectMap s →
  tags_no_dangling s → tags_no_dangling s'.
Proof.
  intros Htm Hom Hinv t sub u. rewrite Htm, Hom. apply Hinv.
Qed.

Lemma tags_subscribe_loop_objectMap tags batch s :
  objectMap (after (subscribe_loop tags batch) s) = objectMap s.
Proof.
  revert batch s. induction tags as [|tag rest IH]; intros batch s; [done|].
  simpl. run_method. destruct (tag_slot s tag) as [sub|[| |]|]; simpl.
  - specialize (IH batch). run_method. by rewrite IH.
  - apply IH.
  - specialize (IH batch). run_method. by rewrite IH.
  - done.
  - specialize (IH (batch ++ [tag])). run_method. by rewrite IH.
Qed.

Lemma tags_subscribe_objectMap labels reply s :
  objectMap (after (subscribe labels reply) s) = objectMap s.
Proof.
  unfold subscribe, request. run_method.
  pose proof (tags_subscribe_loop_objectMap (non_null labels) [] s) as Hom.
  unfold after in Hom.
  destruct (subscribe_loop (non_null labels) [] s) as [[batch|e] s1];
    simpl in *; [|done].
  case_bool_decide; simpl; [done|].
  destruct (open s1), reply; done.
Qed.

Lemma tags_subscribe_standard labels reply s :
  Forall plain (non_null labels) → tags_standard s →
  tags_standard (after (subscribe labels reply) s).
Proof.
  intros Hplain [Hp Hc]. unfold after.
  rewrite tags_subscribe_plain by done. simpl.
  by destruct (_ || _).
Qed.

Lemma tags_subscribe_no_dangling labels reply s :
  protoCount s = false → Forall plain (non_null labels) →
  tags_no_dangling s → tags_no_dangling (after (subscribe labels reply) s).
Proof.
  intros Hp Hplain Hinv t sub' u Ht Hu. rewrite tags_subscribe_objectMap.
  rewrite tags_subscribe_tagMap, tags_subscribe_fold_lookup in Ht by done.
  destruct (tagMap s !! t) as [sub|] eqn:Hs.
  - injection Ht as <-. simpl in Hu. by eapply Hinv.
  - destruct (length _); [done|]. injection Ht as <-.
    by apply elem_of_nil in Hu.
Qed.

Lemma tags_unsubscribe_loop_records tags batch s t sub' :
  tagMap (after (unsubscribe_loop tags batch) s) !! t = Some sub' →
  ∃ sub, tagMap s !! t = Some sub ∧ uuids sub' = uuids sub.
Proof.
  revert batch s. induction tags as [|tag rest IH]; intros batch s.
  - simpl. intros Ht. by exists sub'.
  - simpl. run_method. unfold tag_slot, property.
    destruct (tagMap s !! tag) as [subt|] eqn:Htag.
    + simpl. case_bool_decide as Hzero.
      * specialize (IH (batch ++ [tag])). run_method.
        intros (sub & Hs & Hu)%IH. simpl in Hs.
        rewrite delete_insert_eq in Hs.
        destruct (decide (tag = t)) as [->|Hne];
          [by rewrite lookup_delete_eq in Hs|].
        rewrite lookup_delete_ne in Hs by done. by exists sub.
      * specialize (IH batch). run_method.
        intros (sub & Hs & Hu)%IH. simpl in Hs.
        destruct (decide (tag = t)) as [->|Hne].
        -- rewrite lookup_insert_eq in Hs. injection Hs as <-.
           exists subt. by rewrite Hu.
        -- rewrite lookup_insert_ne in Hs by done. by exists sub.
    + destruct (inherits (protoCount s) tag) as [[| |]|]; simpl.
      * apply IH.
      * specialize (IH (batch ++ [tag]) (pollute s)). run_method. apply IH.
      * intros Ht. by exists sub'.
      * intros Ht. by exists sub'.
Qed.

Lemma tags_unsubscribe_loop_objectMap tags batch s :
  objectMap (after (unsubscribe_loop tags batch) s) = objectMap s.
Proof.
  revert batch s. induction tags as [|tag rest IH]; intros batch s; [done|].
  simpl. run_method. destruct (tag_slot s tag) as [sub|[| |]|]; simpl.
  - case_bool_decide.
    + specialize (IH (batch ++ [tag])). run_method. by rewrite IH.
    + specialize (IH batch). run_method. by rewrite IH.
  - apply IH.
  - specialize (IH (batch ++ [tag])). run_method. by rewrite IH.
  - done.
  - done.
Qed.

Lemma tags_unsubscribe_loop_standard tags batch s :
  Forall plain tags → tags_standard s →
  tags_standard (after (unsubscribe_loop tags batch) s).
Proof.
  revert batch s. induction tags as [|tag rest IH]; intros batch s Hplain Hstd;
    [done|].
  apply Forall_cons in Hplain as [Htag Hrest]. destruct Hstd as [Hp Hc].
  simpl. run_method. unfold tag_slot. rewrite Hp, property_plain by done.
  destruct (tagMap s !! tag) as [sub|]; simpl; [|done].
  case_bool_decide.
  - specialize (IH (batch ++ [tag])). run_method. by apply IH.
  - specialize (IH batch). run_method. by apply IH.
Qed.

Lemma tags_unsubscribe_objectMap labels reply s :
  objectMap (after (unsubscribe labels reply) s) = objectMap s.
Proof.
  unfold unsubscribe, request. run_method.
  pose proof (tags_unsubscribe_loop_objectMap (non_null labels) [] s) as Hom.
  unfold after in Hom.
  destruct (unsubscribe_loop (non_null labels) [] s) as [[batch|e] s1];
    simpl in *; [|done].
  case_bool_decide; simpl; [done|].
  destruct (open s1), reply; done.
Qed.

Lemma tags_unsubscribe_standard labels reply s :
  Forall plain (non_null labels) → tags_standard s →
  tags_standard (after (unsubscribe labels reply) s).
Proof.
  intros Hplain Hstd. unfold unsubscribe, request. run_method.
  pose proof (tags_unsubscribe_loop_standard (non_null labels) [] s Hplain Hstd)
    as Hloop.
  unfold after in Hloop.
  destruct (unsubscribe_loop (non_null labels) [] s) as [[batch|e] s1];
    simpl in *; [|done].
  case_bool_decide; simpl; [done|].
  destruct (open s1), reply; done.
Qed.

Lemma tags_unsubscribe_no_dangling labels reply s :
  tags_no_dangling s → tags_no_dangling (after (unsubscribe labels reply) s).
Proof.
  intros Hinv t sub' u Ht Hu. rewrite tags_unsubscribe_objectMap.
  rewrite tags_unsubscribe_tagMap in Ht.
  apply tags_unsubscribe_loop_records in Ht as (sub & Hs & Huu).
  rewrite Huu in Hu. by eapply Hinv.
Qed.

Lemma tags_inbound_update_refused o e s :
  objectUUID o = Throw e → onMessage (FUpdate o) s = (Throw e, s).
Proof.
  intros Huuid. unfold onMessage, updateCallback.
  unfold bind at 1 2. unfold lift at 1. cbn [deref].
  by rewrite tags_objectUUID_enumerable, Huuid.
Qed.

Lemma tags_inbound_update_standard o s :
  Forall plain (_tags o) → objectUUID o ≠ Ok "__proto__" →
  tags_standard s → tags_standard (after (onMessage (FUpdate o)) s).
Proof.
  intros Hplain Hne [Hp Hc]. destruct (objectUUID o) as [uuid|e] eqn:Huuid.
  - unfold after. rewrite (tags_inbound_update o uuid s) by congruence.
    cbn [snd]. by destruct (foldl _ _ _).2.
  - unfold after. by rewrite (tags_inbound_update_refused o e).
Qed.

Lemma tags_inbound_update_no_dangling o s :
  protoCount s = false → Forall plain (_tags o) →
  objectUUID o ≠ Ok "__proto__" →
  tags_no_dangling s → tags_no_dangling (after (onMessage (FUpdate o)) s).
Proof.
  intros Hp Hplain Hne Hinv. destruct (objectUUID o) as [uuid|e] eqn:Huuid.
  - unfold after. rewrite (tags_inbound_update o uuid s) by congruence.
    cbn [snd].
    destruct (tags_add_uuid_fold uuid (_tags o) (tagMap s) false) as [Hm Hb].
    intros t sub' u Ht Hu.
    assert (tagMap s !! t ≫= (λ sub,
              Some ((if bool_decide (t ∈ _tags o)
                     then tags_listed uuid else id) sub)) = Some sub') as Hrec.
    { destruct (foldl (add_uuid uuid) (tagMap s, false) (_tags o)) as [m b].
      simpl in Hm. destruct b; simpl in Ht; rewrite Hm in Ht;
        by destruct (tagMap s !! t). }
    destruct (tagMap s !! t) as [sub|] eqn:Hs; [|done].
    simpl in Hrec. injection Hrec as <-.
    destruct (decide (t ∈ _tags o)) as [Hin|Hin].
    + rewrite bool_decide_eq_true_2 in Hu by done.
      assert ((foldl (add_uuid uuid) (tagMap s, false) (_tags o)).2 = true)
        as Hflag.
      { rewrite Hb. simpl. apply bool_decide_eq_true_2. intros Hnil.
        eapply (filter_nil_not_elem_of _ _ t Hnil); [simpl; by rewrite Hs|done]. }
      rewrite Hflag. simpl.
      unfold tags_listed in Hu. simpl in Hu.
      apply set_add_elem in Hu as [->|Hu].
      * rewrite lookup_insert_eq. by eexists.
      * destruct (decide (uuid = u)) as [->|Hneq];
          [rewrite lookup_insert_eq; by eexists|].
        rewrite lookup_insert_ne by done. by eapply Hinv.
    + rewrite bool_decide_eq_false_2 in Hu by done. simpl in Hu.
      assert (is_Some (objectMap s !! u)) as Hcached by (by eapply Hinv).
      destruct (foldl (add_uuid uuid) (tagMap s, false) (_tags o)).2; simpl;
        [|done].
      destruct (decide (uuid = u)) as [->|Hneq];
        [rewrite lookup_insert_eq; by eexists|].
      by rewrite lookup_insert_ne.
  - unfold after. by rewrite (tags_inbound_update_refused o e).
Qed.

Lemma tags_onOpen_no_dangling reply s :
  protoCount s = false → tags_no_dangling (after (onOpen reply) s).
Proof.
  intros Hp t sub u Ht Hu. unfold after in Ht.
  rewrite tags_onOpen_eq in Ht by (by left). cbn [snd tagMap] in Ht.
  rewrite lookup_fmap in Ht.
  destruct (tagMap s !! t) as [sub0|]; [|done].
  simpl in Ht. injection Ht as <-. by apply elem_of_nil in Hu.
Qed.

Lemma tags_step_sound s e :
  tags_event_plain e →
  tags_standard s ∧ tags_no_dangling s →
  tags_standard (tags_step s e) ∧ tags_no_dangling (tags_step s e).
Proof.
  intros Hplain [Hstd Hinv]. pose proof Hstd as [Hp Hc].
  destruct e as [tags reply|tags reply|o|reply|]; simpl in *.
  - apply non_null_plain in Hplain. split.
    + by apply tags_subscribe_standard.
    + by apply tags_subscribe_no_dangling.
  - apply non_null_plain in Hplain. split.
    + by apply tags_unsubscribe_standard.
    + by apply tags_unsubscribe_no_dangling.
  - destruct Hplain as [Htags Hne].
    assert (Forall plain (_tags o)) as Hall by (by apply Forall_forall).
    split.
    + by apply tags_inbound_update_standard.
    + by apply tags_inbound_update_no_dangling.
  - split; [|by apply tags_onOpen_no_dangling].
    unfold after. rewrite tags_onOpen_eq by (by left). by split.
  - by split.
Qed.

Lemma tags_run_sound events s :
  Forall tags_event_plain events →
  tags_standard s ∧ tags_no_dangling s →
  tags_standard (tags_run events s) ∧ tags_no_dangling (tags_run events s).
Proof.
  revert s. induction events as [|e events IH]; intros s Hplain Hinv; [done|].
  apply Forall_cons in Hplain as [He Hrest].
  simpl. by apply IH, tags_step_sound.
Qed.

End TagsDangling.

(** X3. Tag revision: after any sequence of [subscribe] and [unsubscribe]
    calls, inbound update pushes, closes and reopenings of the socket on a
    fresh client, none of them with a label inherited from
    [Object.prototype] or an object identified as [__proto__], every
    identifier in a matched set has a cache entry, so every element that
    [objects] hands out is a cached object. *)
Theorem tags_listed_ids_stay_cached (me : option string)
    (events : list tags_event) :
  Forall tags_event_plain events →
  let s := tags_run events (Tags.connected me) in
  tags_standard s ∧
  tags_no_dangling s ∧
  ∀ tags elements, Tags.objects tags s = Objects elements →
                   Forall (λ e, ∃ r, e = Own r) elements.
Proof.
  intros Hplain s.
  destruct (tags_run_sound events (Tags.connected me) Hplain) as [Hstd Hinv].
  { split; [by split|]. intros t sub u Ht. done. }
  fold s in Hstd, Hinv. split_and!; [done|done|].
  intros tags elements Hobjects. unfold Tags.objects in Hobjects.
  destruct (Tags.first_unsubscribed _ _); [done|].
  destruct (Tags.matched_sets s (non_null tags)) as [sets|] eqn:Hsets; [|done].
  injection Hobjects as <-. apply Forall_fmap, Forall_forall.
  intros u Hu. rewrite dedupe_elem in Hu.
  rewrite (tags_matched_sets_Some s _ sets Hsets) in Hu.
  apply list_elem_of_bind in Hu as (t & Hu & _).
  simpl. destruct (Tags.tagMap s !! t) as [sub|] eqn:Hs;
    [|by apply elem_of_nil in Hu].
  destruct (Hinv t sub u Hs Hu) as [r Hr].
  exists r. unfold Tags.cache_slot. by apply property_own.
Qed.

(** Subscribe, receive an object, lose the connection and reopen. *)
Lemma tags_listed_ids_stay_cached_witness :
  tags_no_dangling
    (tags_run [TSubscribe [Some "news"] (Ok []);
               TPushUpdate (Samples.tagged "u1" "k1" ["news"] "t");
               TClose; TOpen (Ok [])]
              (Tags.connected None)).
Proof.
  assert (Forall tags_event_plain
            [TSubscribe [Some "news"] (Ok []);
             TPushUpdate (Samples.tagged "u1" "k1" ["news"] "t");
             TClose; TOpen (Ok [])]) as Hplain.
  { repeat apply Forall_cons_2; try apply Forall_nil_2; simpl; try done.
    - apply plain_entries. vm_compute. reflexivity.
    - split; [|discriminate]. apply (proj1 (Forall_forall _ _)).
      apply (bool_decide_eq_true_1 _). vm_compute. reflexivity. }
  exact (proj1 (proj2 (tags_listed_ids_stay_cached None _ Hplain))).
Defined.

Lemma plain_not_proto (k : string) : plain k → k ≠ "__proto__".
Proof. intros Hk ->. apply Hk, list_elem_of_here. Qed.

Section ContextsDangling.
Import Contexts ContextsPlain.

Lemma contexts_no_dangling_maps s s' :
  contextMap s' = contextMap s → objectMap s' = objectMap s →
  contexts_no_dangling s → contexts_no_dangling s'.
Proof.
  intros Hcm Hom Hinv c sub u. rewrite Hcm, Hom. apply Hinv.
Qed.

Lemma contexts_request_maps msg reply s :
  contextMap (after (request msg reply) s) = contextMap s ∧
  objectMap (after (request msg reply) s) = objectMap s ∧
  protoCount (after (request msg reply) s) = protoCount s ∧
  cacheProto (after (request msg reply) s) = cacheProto s.
Proof. unfold request. run_method. by destruct (open s), reply. Qed.

Lemma contexts_removeCallback_lookup obj s c :
  protoCount s = false →
  contextMap (after (removeCallback obj) s) !! c
  = (if bool_decide (c ∈ labels (deref obj))
     then contexts_unlisted (id (deref obj)) else Datatypes.id)
    <$> contextMap s !! c.
Proof.
  intros Hp. unfold after. rewrite contexts_removeCallback_eq by (by left).
  cbn [snd contextMap].
  destruct (contexts_drop_id_fold (deref obj) (map_to_list (contextMap s)).*1
              (contextMap s) false) as [Hm _].
  rewrite Hm. destruct (contextMap s !! c) as [sub|] eqn:Hc; [|done].
  rewrite (bool_decide_ext (c ∈ (map_to_list (contextMap s)).*1
                            ∧ c ∈ labels (deref obj))
                           (c ∈ labels (deref obj))); [done|].
  rewrite registered_keys, Hc. split; [tauto|]. split; [by eexists|done].
Qed.

Lemma contexts_removeCallback_objectMap obj s :
  protoCount s = false →
  objectMap (after (removeCallback obj) s)
  = if bool_decide (contexts_supporting s (deref obj) = [])
    then delete (id (deref obj)) (objectMap s) else objectMap s.
Proof.
  intros Hp. unfold after. rewrite contexts_removeCallback_eq by (by left).
  cbn [snd objectMap].
  destruct (contexts_drop_id_fold (deref obj) (map_to_list (contextMap s)).*1
              (contextMap s) false) as [_ Hb].
  fold (contexts_supporting s (deref obj)) in Hb. rewrite Hb. cbn [orb].
  by destruct (decide (contexts_supporting s (deref obj) = []));
    [rewrite bool_decide_eq_false_2, bool_decide_eq_true_2 by tauto
    |rewrite bool_decide_eq_true_2, bool_decide_eq_false_2 by tauto].
Qed.

Lemma contexts_removeCallback_standard obj s :
  contexts_standard s → contexts_standard (after (removeCallback obj) s).
Proof.
  intros [Hp Hc]. unfold after.
  rewrite contexts_removeCallback_eq by (by left). by split.
Qed.

Lemma contexts_removeCallback_no_dangling obj s :
  protoCount s = false →
  contexts_no_dangling s → contexts_no_dangling (after (removeCallback obj) s).
Proof.
  intros Hp Hinv c sub' u Hc Hu.
  rewrite contexts_removeCallback_lookup in Hc by done.
  rewrite contexts_removeCallback_objectMap by done.
  destruct (contextMap s !! c) as [sub|] eqn:Hs; [|done].
  simpl in Hc. injection Hc as <-.
  assert (u ∈ ids sub ∧ (u = id (deref obj) → c ∉ labels (deref obj)))
    as [Hlisted Hforeign].
  { destruct (decide (c ∈ labels (deref obj))) as [Hlab|Hlab].
    - rewrite bool_decide_eq_true_2 in Hu by done.
      unfold contexts_unlisted in Hu. cbn [ids] in Hu.
      apply set_delete_elem in Hu as [Hu Hne]. split; [done|]. by intros ->.
    - rewrite bool_decide_eq_false_2 in Hu by done. by split. }
  assert (is_Some (objectMap s !! u)) as Hcached by (by eapply Hinv).
  destruct (decide (contexts_supporting s (deref obj) = [])) as [Hsupp|Hsupp];
    [rewrite bool_decide_eq_true_2 by done
    |by rewrite bool_decide_eq_false_2].
  destruct (decide (u = id (deref obj))) as [->|Hne].
  - exfalso. eapply (filter_nil_not_elem_of _ _ c Hsupp).
    + unfold contexts_supports. rewrite Hs. split; [done|by apply Hforeign].
    + apply registered_keys. by rewrite Hs.
  - by rewrite lookup_delete_ne.
Qed.

Lemma contexts_updateCallback_standard obj s :
  Forall plain (labels (deref obj)) → id (deref obj) ≠ "__proto__" →
  contexts_standard s → contexts_standard (after (updateCallback obj) s).
Proof.
  intros Hplain Hne [Hp Hc]. unfold after.
  rewrite contexts_updateCallback_eq by done. by split.
Qed.

Lemma contexts_updateCallback_no_dangling obj s :
  protoCount s = false → Forall plain (labels (deref obj)) →
  id (deref obj) ≠ "__proto__" →
  contexts_no_dangling s → contexts_no_dangling (after (updateCallback obj) s).
Proof.
  intros Hp Hplain Hne Hinv c sub' u Hc Hu. unfold after in *.
  rewrite contexts_updateCallback_eq in * by done.
  cbv zeta in *. cbn [snd contextMap objectMap] in *.
  destruct (contexts_add_id_fold (id (deref obj)) (labels (deref obj))
              (contextMap s) false) as [Hm Hb].
  rewrite Hm in Hc.
  destruct (contextMap s !! c) as [sub|] eqn:Hs; [|done].
  simpl in Hc. injection Hc as <-.
  destruct (decide (c ∈ labels (deref obj))) as [Hin|Hin].
  - rewrite bool_decide_eq_true_2 in Hu by done.
    rewrite Hb. cbn [orb].
    rewrite bool_decide_eq_true_2.
    2:{ intros Hnil.
        eapply (filter_nil_not_elem_of _ _ c Hnil); [simpl; by rewrite Hs|done]. }
    unfold contexts_listed in Hu. cbn [ids] in Hu.
    apply set_add_elem in Hu as [->|Hu].
    + rewrite lookup_insert_eq. by eexists.
    + destruct (decide (id (deref obj) = u)) as [->|Hneq];
        [rewrite lookup_insert_eq; by eexists|].
      rewrite lookup_insert_ne by done. by eapply Hinv.
  - rewrite bool_decide_eq_false_2 in Hu by done. simpl in Hu.
    assert (is_Some (objectMap s !! u)) as Hcached by (by eapply Hinv).
    destruct (foldl _ _ _).2; [|done].
    destruct (decide (id (deref obj) = u)) as [->|Hneq];
      [rewrite lookup_insert_eq; by eexists|].
    by rewrite lookup_insert_ne.
Qed.

Lemma contexts_subscribe_objectMap labels reply s :
  protoCount s = false → Forall plain (non_null labels) →
  objectMap (after (subscribe labels reply) s) = objectMap s.
Proof.
  intros Hp Hplain. unfold after. rewrite contexts_subscribe_plain by done.
  simpl. by destruct (_ || _).
Qed.

Lemma contexts_subscribe_standard labels reply s :
  Forall plain (non_null labels) → contexts_standard s →
  contexts_standard (after (subscribe labels reply) s).
Proof.
  intros Hplain [Hp Hc]. unfold after.
  rewrite contexts_subscribe_plain by done. simpl.
  by destruct (_ || _).
Qed.

Lemma contexts_subscribe_no_dangling labels reply s :
  protoCount s = false → Forall plain (non_null labels) →
  contexts_no_dangling s →
  contexts_no_dangling (after (subscribe labels reply) s).
Proof.
  intros Hp Hplain Hinv c sub' u Hc Hu.
  rewrite contexts_subscribe_objectMap by done.
  rewrite contexts_subscribe_contextMap, contexts_subscribe_fold_lookup in Hc
    by done.
  destruct (contextMap s !! c) as [sub|] eqn:Hs.
  - injection Hc as <-. simpl in Hu. by eapply Hinv.
  - destruct (length _); [done|]. injection Hc as <-.
    by apply elem_of_nil in Hu.
Qed.

Lemma contexts_sound_maps s s' :
  contextMap s' = contextMap s → objectMap s' = objectMap s →
  protoCount s' = protoCount s → cacheProto s' = cacheProto s →
  contexts_standard s ∧ contexts_no_dangling s →
  contexts_standard s' ∧ contexts_no_dangling s'.
Proof.
  intros Hcm Hom Hp Hc [[Hp0 Hc0] Hinv]. split.
  - split; congruence.
  - by eapply contexts_no_dangling_maps.
Qed.

Lemma contexts_updateCallback_sound obj s :
  Forall plain (labels (deref obj)) → id (deref obj) ≠ "__proto__" →
  contexts_standard s ∧ contexts_no_dangling s →
  contexts_standard (after (updateCallback obj) s) ∧
  contexts_no_dangling (after (updateCallback obj) s).
Proof.
  intros Hplain Hne [Hstd Hinv]. split.
  - by apply contexts_updateCallback_standard.
  - apply contexts_updateCallback_no_dangling; try done. apply Hstd.
Qed.

Lemma contexts_removeCallback_sound obj s :
  contexts_standard s ∧ contexts_no_dangling s →
  contexts_standard (after (removeCallback obj) s) ∧
  contexts_no_dangling (after (removeCallback obj) s).
Proof.
  intros [Hstd Hinv]. split.
  - by apply contexts_removeCallback_standard.
  - apply contexts_removeCallback_no_dangling; [apply Hstd|done].
Qed.

Lemma contexts_post_sound o reply s :
  (∀ c, c ∈ context o ∨ c = id o → plain c) →
  contexts_standard s ∧ contexts_no_dangling s →
  contexts_standard (after (post o reply) s) ∧
  contexts_no_dangling (after (post o reply) s).
Proof.
  intros Hplain Hinv. unfold post. run_method.
  match goal with
  | |- context [updateCallback ?obj s] =>
      assert (Forall plain (labels (deref obj))) as Hall;
        [|assert (id (deref obj) ≠ "__proto__") as Hne;
          [|pose proof (contexts_updateCallback_sound obj s Hall Hne Hinv)
              as Hinv1;
            pose proof (contexts_updateCallback_eq obj s (proj1 (proj1 Hinv))
                          Hall Hne) as Heq]]
  end.
  { apply Forall_forall. intros c Hc. apply Hplain.
    apply contexts_labels_elem in Hc as [Hc|Hc]; simpl in Hc; [left|by right].
    by rewrite dedupe_elem in Hc. }
  { simpl. apply plain_not_proto, Hplain. by right. }
  unfold after in Hinv1. rewrite Heq in *. cbn [fst snd] in *.
  match goal with
  | |- context [request ?msg reply ?s1] =>
      destruct (contexts_request_maps msg reply s1) as (Hcm & Hom & Hpc & Hcp);
      unfold after in Hcm, Hom, Hpc, Hcp;
      destruct (request msg reply s1) as [[p|e] s2]
  end; cbn [fst snd] in *.
  - by eapply contexts_sound_maps.
  - assert (contexts_standard s2 ∧ contexts_no_dangling s2) as Hinv2
      by (by eapply contexts_sound_maps).
    match goal with
    | |- context [removeCallback ?obj' s2] =>
        pose proof (contexts_removeCallback_sound obj' s2 Hinv2) as Hinv3;
        unfold after in Hinv3;
        pose proof (contexts_removeCallback_eq obj' s2
                      (or_introl (proj1 (proj1 Hinv2)))) as Heq3;
        rewrite Heq3 in *
    end.
    exact Hinv3.
Qed.

Lemma contexts_remove_sound obj reply s :
  (∀ c, c ∈ context (deref obj) ∨ c = id (deref obj) → plain c) →
  contexts_standard s ∧ contexts_no_dangling s →
  contexts_standard (after (remove obj reply) s) ∧
  contexts_no_dangling (after (remove obj reply) s).
Proof.
  intros Hplain Hinv. unfold remove. run_method.
  pose proof (contexts_removeCallback_sound obj s Hinv) as Hinv1.
  unfold after in Hinv1.
  rewrite (contexts_removeCallback_eq obj s (or_introl (proj1 (proj1 Hinv))))
    in *.
  cbn [fst snd] in *.
  match goal with
  | |- context [request ?msg reply ?s1] =>
      destruct (contexts_request_maps msg reply s1) as (Hcm & Hom & Hpc & Hcp);
      unfold after in Hcm, Hom, Hpc, Hcp;
      destruct (request msg reply s1) as [[p|e] s2]
  end; cbn [fst snd] in *.
  - by eapply contexts_sound_maps.
  - assert (contexts_standard s2 ∧ contexts_no_dangling s2) as Hinv2
      by (by eapply contexts_sound_maps).
    assert (Forall plain (labels (deref (assign_copy obj)))) as Hall.
    { apply Forall_forall. intros c Hc. by apply Hplain, contexts_labels_elem. }
    assert (id (deref (assign_copy obj)) ≠ "__proto__") as Hne.
    { simpl. apply plain_not_proto, Hplain. by right. }
    pose proof (contexts_updateCallback_sound (assign_copy obj) s2 Hall Hne Hinv2)
      as Hinv3.
    unfold after in Hinv3.
    rewrite (contexts_updateCallback_eq (assign_copy obj) s2
               (proj1 (proj1 Hinv2)) Hall Hne) in *.
    exact Hinv3.
Qed.

Lemma contexts_onOpen_sound reply s :
  contexts_standard s →
  contexts_standard (after (onOpen reply) s) ∧
  contexts_no_dangling (after (onOpen reply) s).
Proof.
  intros [Hp Hc]. unfold after. rewrite contexts_onOpen_eq by (by left).
  cbn [snd]. split; [by split|].
  intros c sub u Hsub Hu. cbn [contextMap] in Hsub.
  rewrite lookup_fmap in Hsub.
  destruct (contextMap s !! c) as [sub0|]; [|done].
  simpl in Hsub. injection Hsub as <-. by apply elem_of_nil in Hu.
Qed.

Lemma contexts_step_sound s e :
  contexts_event_plain e →
  contexts_standard s ∧ contexts_no_dangling s →
  contexts_standard (contexts_step s e) ∧ contexts_no_dangling (contexts_step s e).
Proof.
  intros Hplain Hinv. pose proof Hinv as [[Hp Hc] Hnd].
  destruct e as [contexts reply|o|o|o reply|obj reply|reply|]; simpl in *.
  - apply non_null_plain in Hplain. split.
    + by apply contexts_subscribe_standard.
    + by apply contexts_subscribe_no_dangling.
  - assert (Forall plain (labels (deref (Raw (enumerable o))))) as Hall.
    { apply Forall_forall. intros c Hc'. by apply Hplain, contexts_labels_elem. }
    assert (id (deref (Raw (enumerable o))) ≠ "__proto__") as Hne.
    { simpl. apply plain_not_proto, Hplain. by right. }
    pose proof (contexts_updateCallback_sound (Raw (enumerable o)) s Hall Hne Hinv)
      as Hinv1.
    unfold after, onMessage in *. unfold bind.
    by destruct (updateCallback (Raw (enumerable o)) s) as [[?|?] s1].
  - by apply (contexts_removeCallback_sound (Raw (enumerable o))).
  - by apply contexts_post_sound.
  - by apply contexts_remove_sound.
  - by apply contexts_onOpen_sound.
  - done.
Qed.

Lemma contexts_run_sound events s :
  Forall contexts_event_plain events →
  contexts_standard s ∧ contexts_no_dangling s →
  contexts_standard (contexts_run events s) ∧
  contexts_no_dangling (contexts_run events s).
Proof.
  revert s. induction events as [|e events IH]; intros s Hplain Hinv; [done|].
  apply Forall_cons in Hplain as [He Hrest].
  simpl. by apply IH, contexts_step_sound.
Qed.

End ContextsDangling.

(** X4. Context revision: after any sequence of [subscribe] calls, inbound
    update and remove pushes, [#post] and [#remove] calls, accepted or
    rejected, closes and reopenings of the socket on a fresh client, none
    of them with a label or an identifier inherited from
    [Object.prototype], every identifier in a matched set has a cache
    entry, so every element that [objects] hands out is a cached object. *)
Theorem contexts_listed_ids_stay_cached (events : list contexts_event) :
  Forall contexts_event_plain events →
  let s := contexts_run events Contexts.connected in
  contexts_standard s ∧
  contexts_no_dangling s ∧
  ∀ me contexts elements,
    Contexts.objects me contexts s = Objects elements →
    Forall (λ e, ∃ r, e = Own r) elements.
Proof.
  intros Hplain s.
  destruct (contexts_run_sound events Contexts.connected Hplain) as [Hstd Hinv].
  { split; [by split|]. intros c sub u Hc. done. }
  fold s in Hstd, Hinv. split_and!; [done|done|].
  intros me contexts elements Hobjects.
  unfold Contexts.objects in Hobjects.
  destruct (Contexts.first_unsubscribed _ _); [done|].
  destruct (Contexts.matched_sets s _) as [sets|] eqn:Hsets; [|done].
  injection Hobjects as <-. apply Forall_fmap, Forall_forall.
  intros u Hu. rewrite dedupe_elem in Hu.
  rewrite (contexts_matched_sets_Some s _ sets Hsets) in Hu.
  apply list_elem_of_bind in Hu as (c & Hu & _).
  simpl. destruct (Contexts.contextMap s !! c) as [sub|] eqn:Hs;
    [|by apply elem_of_nil in Hu].
  destruct (Hinv c sub u Hs Hu) as [r Hr].
  exists r. unfold Contexts.cache_slot. by apply property_own.
Qed.

(** Subscribe, post an object that the server rejects, receive it later. *)
Lemma contexts_listed_ids_stay_cached_witness :
  contexts_no_dangling
    (contexts_run [CSubscribe [Some "news"] (Ok []);
                   CPost (Samples.filed "a1" ["news"] "t") (Throw ServerError);
                   CPushUpdate (Samples.filed "a1" ["news"] "t")]
                  Contexts.connected).
Proof.
  assert (∀ c, c ∈ ["news"] ∨ c = "a1" → plain c) as Hlabels.
  { intros c Hc. assert (c ∈ ["news"; "a1"]) as Hin.
    { destruct Hc as [Hc| ->]; [|by right; left].
      apply list_elem_of_singleton in Hc as ->. by left. }
    clear Hc. revert c Hin. apply (proj1 (Forall_forall _ _)).
    apply (bool_decide_eq_true_1 _). vm_compute. reflexivity. }
  assert (Forall contexts_event_plain
            [CSubscribe [Some "news"] (Ok []);
             CPost (Samples.filed "a1" ["news"] "t") (Throw ServerError);
             CPushUpdate (Samples.filed "a1" ["news"] "t")]) as Hplain.
  { repeat apply Forall_cons_2; try apply Forall_nil_2; simpl; try done.
    apply plain_entries. vm_compute. reflexivity. }
  exact (proj1 (proj2 (contexts_listed_ids_stay_cached _ Hplain))).
Defined.

Lemma occ_zero (t : string) (l : list string) :
  length (filter (λ x, x = t) l) = O ↔ t ∉ l.
Proof.
  induction l as [|x l IH]; simpl.
  - split; [intros _ ?%elem_of_nil; done|done].
  - destruct (decide (x = t)) as [->|Hne].
    + rewrite filter_cons_True by done. simpl. split; [done|].
      intros Hnot. exfalso. apply Hnot. by left.
    + rewrite filter_cons_False by done. rewrite IH, not_elem_of_cons.
      split; [by split|tauto].
Qed.

Lemma occ_cons_eq (t : string) (l : list string) :
  length (filter (λ x, x = t) (t :: l)) = S (length (filter (λ x, x = t) l)).
Proof. by rewrite filter_cons_True. Qed.

Lemma occ_cons_ne (t x : string) (l : list string) :
  x ≠ t →
  length (filter (λ x, x = t) (x :: l)) = length (filter (λ x, x = t) l).
Proof. intros Hne. by rewrite filter_cons_False. Qed.

Section TagsUnsubscribeSpec.
Import Tags.

Lemma tags_after_unsubscribe_cons_ne (x t : string) (l : list string) r :
  t ≠ x → tags_after_unsubscribe l t r = tags_after_unsubscribe (x :: l) t r.
Proof.
  intros Hne. unfold tags_after_unsubscribe. destruct r as [sub|]; [|done].
  rewrite (occ_cons_ne t x l) by done.
  rewrite (bool_decide_ext
             (t ∈ l ∧ count sub = Z.of_nat (length (filter (λ y, y = t) l)))
             (t ∈ x :: l
              ∧ count sub = Z.of_nat (length (filter (λ y, y = t) l))));
    [done|].
  rewrite elem_of_cons. tauto.
Qed.

Lemma tags_unsubscribe_loop_spec (l batch : list string) s :
  tags_covered (tagMap s) l →
  ∃ batch',
    outcome (unsubscribe_loop l batch) s = Ok batch' ∧
    (∀ t, t ∈ batch' ↔
          t ∈ batch ∨
          (t ∈ l ∧ ∃ sub, tagMap s !! t = Some sub ∧
                          count sub = Z.of_nat (length (filter (λ x, x = t) l)))) ∧
    ∀ t, tagMap (after (unsubscribe_loop l batch) s) !! t
         = tags_after_unsubscribe l t (tagMap s !! t).
Proof.
  revert batch s. induction l as [|x l IH]; intros batch s Hcov.
  - exists batch. split_and!; [done| |].
    + intros t. split; [by left|]. intros [?|[?%elem_of_nil _]]; done.
    + intros t. run_method. unfold tags_after_unsubscribe.
      destruct (tagMap s !! t) as [[u c]|]; [|done]. simpl.
      by rewrite Z.sub_0_r.
  - destruct (Hcov x) as (subx & Hx & Hle); [by left|].
    rewrite occ_cons_eq in Hle.
    simpl. run_method. unfold tag_slot. rewrite (property_own _ _ _ _ Hx).
    simpl. destruct (decide (count subx - 1 = 0)) as [Hzero|Hzero].
    + rewrite bool_decide_eq_true_2 by done.
      assert (x ∉ l) as Hxl by (apply occ_zero; lia).
      specialize (IH (batch ++ [x])
                     (set_tagMap (delete x)
                        (set_tagMap
                           (insert x {| uuids := uuids subx;
                                        count := count subx - 1 |}) s))).
      run_method. rewrite delete_insert_eq in IH.
      destruct IH as (batch' & Hout & Hbatch & Hlookup).
      { intros t Ht. destruct (Hcov t) as (sub & Hs & Hl); [by right|].
        assert (x ≠ t) as Hne by (intros ->; done).
        rewrite occ_cons_ne in Hl by done.
        exists sub. by rewrite lookup_delete_ne. }
      exists batch'. split_and!; [done| |].
      * intros t. rewrite Hbatch, elem_of_app, list_elem_of_singleton.
        destruct (decide (t = x)) as [->|Hne].
        -- split; [intros _; right|tauto].
           split; [by left|]. exists subx. rewrite occ_cons_eq.
           split; [done|]. apply occ_zero in Hxl. lia.
        -- rewrite lookup_delete_ne, occ_cons_ne, elem_of_cons by done. tauto.
      * intros t. rewrite Hlookup. destruct (decide (t = x)) as [->|Hne].
        -- rewrite lookup_delete_eq, Hx. simpl.
           rewrite bool_decide_eq_true_2; [done|].
           split; [by left|]. rewrite occ_cons_eq.
           apply occ_zero in Hxl. lia.
        -- rewrite lookup_delete_ne by done.
           by apply tags_after_unsubscribe_cons_ne.
    + rewrite bool_decide_eq_false_2 by done.
      specialize (IH batch
                     (set_tagMap
                        (insert x {| uuids := uuids subx;
                                     count := count subx - 1 |}) s)).
      run_method.
      destruct IH as (batch' & Hout & Hbatch & Hlookup).
      { intros t Ht. destruct (decide (t = x)) as [->|Hne].
        - rewrite lookup_insert_eq. eexists. split; [done|]. simpl. lia.
        - destruct (Hcov t) as (sub & Hs & Hl); [by right|].
          rewrite occ_cons_ne in Hl by done.
          exists sub. by rewrite lookup_insert_ne. }
      assert (x ∈ l ∧ count subx - 1
                       = Z.of_nat (length (filter (λ y, y = x) l))
              ↔ count subx = Z.of_nat (S (length (filter (λ y, y = x) l))))
        as Hcond.
      { split; [intros [_ ?]; lia|]. intros Heq. split; [|lia].
        destruct (decide (x ∈ l)) as [|Hxl]; [done|].
        apply occ_zero in Hxl. lia. }
      exists batch'. split_and!; [done| |].
      * intros t. rewrite Hbatch.
        destruct (decide (t = x)) as [->|Hne].
        -- rewrite lookup_insert_eq, occ_cons_eq. split.
           ++ intros [?|[Hin (sub & [= <-] & Hc)]]; [by left|]. right.
              split; [by left|]. exists subx. split; [done|].
              simpl in Hc. lia.
           ++ intros [?|[_ (sub & Hs & Hc)]]; [by left|]. right.
              rewrite Hx in Hs. injection Hs as <-.
              apply Hcond in Hc as [Hin Hc]. split; [done|].
              eexists. split; [done|]. simpl. lia.
        -- rewrite lookup_insert_ne, occ_cons_ne, elem_of_cons by done. tauto.
      * intros t. rewrite Hlookup. destruct (decide (t = x)) as [->|Hne].
        -- rewrite lookup_insert_eq, Hx. unfold tags_after_unsubscribe.
           rewrite occ_cons_eq. cbn [count uuids].
           rewrite (bool_decide_ext _ _ Hcond).
           rewrite (bool_decide_ext
                      (x ∈ x :: l ∧ count subx
                         = Z.of_nat (S (length (filter (λ y, y = x) l))))
                      (count subx
                         = Z.of_nat (S (length (filter (λ y, y = x) l)))))
             by (split; [tauto|]; split; [by left|done]).
           case_bool_decide; [done|]. do 2 f_equal. lia.
        -- rewrite lookup_insert_ne by done.
           by apply tags_after_unsubscribe_cons_ne.
Qed.

End TagsUnsubscribeSpec.

Section TagsUnsubscribeCall.
Import Tags.

Lemma tags_unsubscribe_spec labels reply s :
  tags_covered (tagMap s) (non_null labels) →
  ∃ batch,
    (∀ t, t ∈ batch ↔
          Some t ∈ labels ∧
          ∃ sub, tagMap s !! t = Some sub ∧
                 count sub = Z.of_nat (occurrences t labels)) ∧
    outcome (unsubscribe labels reply) s = Ok tt ∧
    tagMap (after (unsubscribe labels reply) s)
    = tagMap (after (unsubscribe_loop (non_null labels) []) s) ∧
    wire (after (unsubscribe labels reply) s)
    = wire s ++ (if open s && negb (bool_decide (batch = []))
                 then [ReqUnsubscribe batch] else []).
Proof.
  intros Hcov.
  destruct (tags_unsubscribe_loop_spec (non_null labels) [] s Hcov)
    as (batch & Hout & Hbatch & _).
  exists batch. split; [|split; [|split]].
  - intros t. rewrite Hbatch, non_null_elem, occurrences_non_null.
    rewrite elem_of_nil. tauto.
  - unfold unsubscribe, request. unfold outcome in *. run_method.
    destruct (unsubscribe_loop (non_null labels) [] s) as [r s1].
    simpl in *. subst r. case_bool_decide; simpl; [done|].
    by destruct (open s1), reply.
  - apply tags_unsubscribe_tagMap.
  - pose proof (tags_unsubscribe_loop_channel (non_null labels) [] s) as Hch.
    unfold unsubscribe, request. unfold tags_channel in Hch.
    unfold outcome, after in *. run_method.
    destruct (unsubscribe_loop (non_null labels) [] s) as [r s1].
    simpl in *. subst r. injection Hch as Hopen Hwire.
    rewrite <- Hopen, <- Hwire.
    case_bool_decide as Hnil; simpl.
    + by rewrite andb_false_r, app_nil_r.
    + rewrite andb_true_r. destruct (open s1), reply; simpl;
        by rewrite ?app_nil_r.
Qed.

Lemma inherits_plain_any (p : bool) (k : string) :
  plain k → inherits p k = None ∨ inherits p k = Some NotANumber.
Proof.
  unfold plain, prototype_names, inherits. intros Hk.
  apply not_elem_of_cons in Hk as [Hproto Hmeth].
  rewrite bool_decide_eq_false_2 by done.
  rewrite (bool_decide_eq_false_2 (k ∈ prototype_methods)) by done.
  destruct (p && _); [by right|by left].
Qed.

Lemma tags_unsubscribe_loop_untracked (l batch : list string) s t :
  plain t → t ∈ l → tagMap s !! t = None →
  outcome (unsubscribe_loop l batch) s = Throw TypeError.
Proof.
  intros Hplain. revert batch s.
  induction l as [|x l IH]; intros batch s Hin Hnone;
    [by apply elem_of_nil in Hin|].
  simpl. run_method. unfold tag_slot, property.
  destruct (tagMap s !! x) as [sub|] eqn:Hx.
  - assert (x ≠ t) as Hne by (intros ->; by rewrite Hnone in Hx).
    apply elem_of_cons in Hin as [->|Hin]; [done|].
    simpl. case_bool_decide.
    + specialize (IH (batch ++ [x])). run_method. apply IH; [done|]. simpl.
      rewrite lookup_delete_ne, lookup_insert_ne by done. done.
    + specialize (IH batch). run_method. apply IH; [done|]. simpl.
      by rewrite lookup_insert_ne.
  - destruct (inherits (protoCount s) x) as [[| |]|] eqn:Hinh; simpl;
      try done.
    + apply elem_of_cons in Hin as [->|Hin]; [|by apply IH].
      destruct (inherits_plain_any (protoCount s) x Hplain); congruence.
    + apply elem_of_cons in Hin as [->|Hin].
      * destruct (inherits_plain_any (protoCount s) x Hplain); congruence.
      * specialize (IH (batch ++ [x])). run_method. by apply IH.
Qed.

Lemma tags_unsubscribe_loop_throws l batch s e :
  outcome (unsubscribe_loop l batch) s = Throw e → e = TypeError.
Proof.
  revert batch s. induction l as [|x l IH]; intros batch s; [done|].
  simpl. run_method. destruct (tag_slot s x) as [sub|[| |]|]; simpl.
  - case_bool_decide.
    + specialize (IH (batch ++ [x])). run_method. apply IH.
    + specialize (IH batch). run_method. apply IH.
  - apply IH.
  - specialize (IH (batch ++ [x])). run_method. apply IH.
  - by intros [= <-].
  - by intros [= <-].
Qed.

Lemma tags_unsubscribe_throw_channel labels reply s e :
  outcome (unsubscribe labels reply) s = Throw e →
  e = TypeError ∧
  outcome (unsubscribe_loop (non_null labels) []) s = Throw TypeError ∧
  tags_channel (after (unsubscribe labels reply) s) = tags_channel s.
Proof.
  pose proof (tags_unsubscribe_loop_channel (non_null labels) [] s) as Hch.
  pose proof (tags_unsubscribe_loop_throws (non_null labels) [] s) as Hkind.
  unfold unsubscribe, request. unfold outcome, after in *. run_method.
  destruct (unsubscribe_loop (non_null labels) [] s) as [[batch|e'] s1];
    simpl in *.
  - case_bool_decide; simpl; [done|]. by destruct (open s1), reply.
  - intros [= <-]. by rewrite (Hkind e' eq_refl).
Qed.

End TagsUnsubscribeCall.

Section ContextsUnsubscribeFault.
Import Contexts.

Lemma contexts_decrement_loop_untracked (l : list string) s t :
  plain t → t ∈ l → contextMap s !! t = None →
  outcome (decrement_loop l) s = Throw TypeError.
Proof.
  intros Hplain. revert s. induction l as [|x l IH]; intros s Hin Hnone;
    [by apply elem_of_nil in Hin|].
  simpl. run_method. unfold context_slot, property.
  destruct (contextMap s !! x) as [sub|] eqn:Hx.
  - assert (x ≠ t) as Hne by (intros ->; by rewrite Hnone in Hx).
    apply elem_of_cons in Hin as [->|Hin]; [done|].
    simpl. apply IH; [done|]. simpl. by rewrite lookup_insert_ne.
  - destruct (inherits (protoCount s) x) as [[| |]|] eqn:Hinh; simpl;
      try done.
    + apply elem_of_cons in Hin as [->|Hin]; [|by apply IH].
      destruct (inherits_plain_any (protoCount s) x Hplain); congruence.
    + apply elem_of_cons in Hin as [->|Hin].
      * destruct (inherits_plain_any (protoCount s) x Hplain); congruence.
      * by apply IH.
Qed.

Lemma contexts_decrement_loop_objectMap l s :
  objectMap (after (decrement_loop l) s) = objectMap s.
Proof.
  revert s. induction l as [|x l IH]; intros s; [done|].
  simpl. run_method. destruct (context_slot s x) as [sub|[| |]|]; simpl;
    try done; by rewrite IH.
Qed.

Lemma contexts_unsubscribe_untracked labels reply s t :
  plain t → Some t ∈ labels → contextMap s !! t = None →
  outcome (unsubscribe labels reply) s = Throw TypeError ∧
  contexts_channel (after (unsubscribe labels reply) s) = contexts_channel s ∧
  objectMap (after (unsubscribe labels reply) s) = objectMap s.
Proof.
  intros Hplain Hin Hnone. apply non_null_elem in Hin.
  pose proof (contexts_decrement_loop_untracked _ s t Hplain Hin Hnone)
    as Hthrow.
  pose proof (contexts_decrement_loop_channel (non_null labels) s) as Hch.
  pose proof (contexts_decrement_loop_objectMap (non_null labels) s) as Hom.
  unfold unsubscribe. unfold outcome, after in *. run_method.
  destruct (decrement_loop (non_null labels) s) as [[[]|e] s1]; simpl in *;
    [done|].
  by injection Hthrow as ->.
Qed.

End ContextsUnsubscribeFault.

(** X5. Tag revision: [unsubscribe] of labels that are each tracked at
    least as often as the call names them returns normally, lowers each
    count by the number of entries, removes exactly the labels whose count
    is used up, leaves the cache alone, and writes one unsubscribe frame
    with exactly the removed labels when there are any and the connection is
    open, and nothing otherwise. *)
Theorem tags_unsubscribe_covered_labels (labels : list (option string))
    (reply : answer) (s : Tags.state) :
  tags_covered (Tags.tagMap s) (non_null labels) →
  let s' := after (Tags.unsubscribe labels reply) s in
  outcome (Tags.unsubscribe labels reply) s = Ok tt ∧
  (∀ t, Tags.tagMap s' !! t
        = tags_after_unsubscribe (non_null labels) t (Tags.tagMap s !! t)) ∧
  Tags.objectMap s' = Tags.objectMap s ∧
  ∃ batch,
    (∀ t, t ∈ batch ↔
          Some t ∈ labels ∧
          ∃ sub, Tags.tagMap s !! t = Some sub ∧
                 Tags.count sub = Z.of_nat (occurrences t labels)) ∧
    Tags.wire s' = Tags.wire s ++
                   (if Tags.open s && negb (bool_decide (batch = []))
                    then [ReqUnsubscribe batch] else []).
Proof.
  intros Hcov s'.
  destruct (tags_unsubscribe_spec labels reply s Hcov)
    as (batch & Hbatch & Hout & Hmap & Hwire).
  destruct (tags_unsubscribe_loop_spec (non_null labels) [] s Hcov)
    as (_ & _ & _ & Hlookup).
  subst s'. split; [done|]. split; [by rewrite Hmap|].
  split; [apply tags_unsubscribe_objectMap|]. by exists batch.
Qed.

(** A client subscribed once to "a" and twice to "b" unsubscribes from
    both. *)
Lemma tags_unsubscribe_covered_labels_witness :
  let s := after (Tags.subscribe [Some "a"; Some "b"; Some "b"] (Ok []))
                 (Tags.connected None) in
  Tags.tagMap (after (Tags.unsubscribe [Some "a"; Some "b"] (Ok [])) s) !! "b"
  = tags_after_unsubscribe ["a"; "b"] "b" (Tags.tagMap s !! "b").
Proof.
  intros s.
  assert (tags_covered (Tags.tagMap s) (non_null [Some "a"; Some "b"])) as Hcov.
  { intros t Ht. simpl in Ht.
    apply elem_of_cons in Ht as [->|Ht];
      [|apply elem_of_cons in Ht as [->|Ht]; [|by apply elem_of_nil in Ht]].
    - exists {| Tags.uuids := []; Tags.count := 1 |}. split; [reflexivity|].
      vm_compute. discriminate.
    - exists {| Tags.uuids := []; Tags.count := 2 |}. split; [reflexivity|].
      vm_compute. discriminate. }
  exact (proj1 (proj2 (tags_unsubscribe_covered_labels
                         [Some "a"; Some "b"] (Ok []) s Hcov)) "b").
Defined.

(** X6. [unsubscribe] given a label that is not tracked and is not a name
    inherited from [Object.prototype] ends in a TypeError, in both
    revisions, and writes no frame and leaves the cache alone, whatever
    else the call was given. *)
Theorem unsubscribe_untracked_label_faults :
  (∀ labels reply s t,
     plain t → Some t ∈ labels → Tags.tagMap s !! t = None →
     outcome (Tags.unsubscribe labels reply) s = Throw TypeError ∧
     Tags.wire (after (Tags.unsubscribe labels reply) s) = Tags.wire s ∧
     Tags.objectMap (after (Tags.unsubscribe labels reply) s)
     = Tags.objectMap s) ∧
  (∀ labels reply s t,
     plain t → Some t ∈ labels → Contexts.contextMap s !! t = None →
     outcome (Contexts.unsubscribe labels reply) s = Throw TypeError ∧
     Contexts.wire (after (Contexts.unsubscribe labels reply) s)
     = Contexts.wire s ∧
     Contexts.objectMap (after (Contexts.unsubscribe labels reply) s)
     = Contexts.objectMap s).
Proof.
  split.
  - intros labels reply s t Hplain Hin Hnone. apply non_null_elem in Hin.
    pose proof (tags_unsubscribe_loop_untracked _ [] s t Hplain Hin Hnone)
      as Hloop.
    assert (outcome (Tags.unsubscribe labels reply) s = Throw TypeError)
      as Hout.
    { unfold Tags.unsubscribe. unfold outcome in *. run_method.
      destruct (Tags.unsubscribe_loop (non_null labels) [] s) as [[?|?] ?];
        simpl in *; [done|]. by injection Hloop as ->. }
    destruct (tags_unsubscribe_throw_channel labels reply s _ Hout)
      as (_ & _ & Hch).
    split_and!; [done|by injection Hch|apply tags_unsubscribe_objectMap].
  - intros labels reply s t Hplain Hin Hnone.
    destruct (contexts_unsubscribe_untracked labels reply s t Hplain Hin Hnone)
      as (Hout & Hch & Hom).
    split_and!; [done|by injection Hch|done].
Qed.

(** An unsubscription on a fresh client. *)
Lemma unsubscribe_untracked_label_faults_witness :
  outcome (Tags.unsubscribe [Some "news"] (Ok [])) (Tags.connected None)
  = Throw TypeError.
Proof.
  apply (proj1 unsubscribe_untracked_label_faults
           [Some "news"] (Ok []) (Tags.connected None) "news").
  - apply (bool_decide_eq_true_1 _). vm_compute. reflexivity.
  - apply list_elem_of_here.
  - reflexivity.
Defined.

Section TagsRoundTrip.
Import Tags TagsPlain.

Lemma tags_subscribe_outcome labels reply s :
  protoCount s = false → Forall plain (non_null labels) →
  outcome (subscribe labels reply) s = Ok tt.
Proof.
  intros Hp Hplain. unfold outcome. by rewrite tags_subscribe_plain.
Qed.

Lemma tags_subscribe_lookup labels reply s t :
  protoCount s = false → Forall plain (non_null labels) →
  tagMap (after (subscribe labels reply) s) !! t =
    match tagMap s !! t with
    | Some sub =>
        Some {| uuids := uuids sub;
                count := count sub + Z.of_nat (occurrences t labels) |}
    | None =>
        match occurrences t labels with
        | O => None
        | S n => Some {| uuids := []; count := Z.of_nat (S n) |}
        end
    end.
Proof.
  intros Hp Hplain.
  rewrite tags_subscribe_tagMap, tags_subscribe_fold_lookup by done.
  by rewrite occurrences_non_null.
Qed.


(** After [subscribe newTags] the tags of [old] are covered as soon as the
    counts before the call and the new entries together cover them. *)
Lemma tags_covered_after_subscribe newTags reply (old : list string) s :
  protoCount s = false → Forall plain (non_null newTags) →
  (∀ t, t ∈ old →
        Z.of_nat (length (filter (λ x, x = t) old))
        ≤ tags_refcount s t + Z.of_nat (occurrences t newTags)) →
  tags_covered (tagMap (after (subscribe newTags reply) s)) old.
Proof.
  intros Hp Hplain Hold t Ht. rewrite tags_subscribe_lookup by done.
  specialize (Hold t Ht). unfold tags_refcount in Hold.
  destruct (tagMap s !! t) as [sub|]; simpl in Hold.
  - eexists. split; [done|]. simpl. lia.
  - assert (length (filter (λ x, x = t) old) ≠ O) as Hnz
      by (rewrite occ_zero; tauto).
    destruct (occurrences t newTags) as [|n]; [lia|].
    eexists. split; [done|]. simpl. lia.
Qed.

Lemma tags_refcount_nonneg s t : tags_registry_ok s → 0 ≤ tags_refcount s t.
Proof.
  intros Hok. pose proof (proj1 (tags_registry_ok_iff s) Hok) as Hpos.
  unfold tags_refcount. destruct (tagMap s !! t) as [sub|] eqn:Hs; simpl; [|done].
  specialize (Hpos t sub Hs). lia.
Qed.

End TagsRoundTrip.

(** X7. Tag revision: on a registry whose counts are positive and whose
    prototype holds no [count], [subscribe] followed by [unsubscribe] of
    the same list, no label of which is a name inherited from
    [Object.prototype], returns normally both times and gives back the
    registry and the cache it started from, whatever else the list holds
    (null entries, repeated labels, labels already tracked). *)
Theorem tags_subscribe_unsubscribe_round_trip (labels : list (option string))
    (reply1 reply2 : answer) (s : Tags.state) :
  Tags.protoCount s = false →
  (∀ l, Some l ∈ labels → plain l) →
  tags_registry_ok s →
  let s1 := after (Tags.subscribe labels reply1) s in
  outcome (Tags.subscribe labels reply1) s = Ok tt ∧
  outcome (Tags.unsubscribe labels reply2) s1 = Ok tt ∧
  Tags.tagMap (after (Tags.unsubscribe labels reply2) s1) = Tags.tagMap s ∧
  Tags.objectMap (after (Tags.unsubscribe labels reply2) s1) = Tags.objectMap s.
Proof.
  intros Hp Hplain%non_null_plain Hok s1.
  pose proof (proj1 (tags_registry_ok_iff s) Hok) as Hpos.
  assert (tags_covered (Tags.tagMap s1) (non_null labels)) as Hcov.
  { apply tags_covered_after_subscribe; [done|done|]. intros t Ht.
    rewrite occurrences_non_null.
    pose proof (tags_refcount_nonneg s t Hok). lia. }
  destruct (tags_unsubscribe_spec labels reply2 s1 Hcov)
    as (batch & _ & Hout & Hmap & _).
  destruct (tags_unsubscribe_loop_spec (non_null labels) [] s1 Hcov)
    as (_ & _ & _ & Hlookup).
  split; [by apply tags_subscribe_outcome|]. split; [done|].
  split; [|rewrite tags_unsubscribe_objectMap; apply tags_subscribe_objectMap].
  rewrite Hmap.
  apply map_eq. intros t. rewrite Hlookup.
  pose proof (tags_subscribe_lookup labels reply1 s t Hp Hplain) as Hs1.
  fold s1 in Hs1. rewrite Hs1.
  unfold tags_after_unsubscribe. rewrite occurrences_non_null.
  destruct (Tags.tagMap s !! t) as [sub|] eqn:Hs.
  - specialize (Hpos t sub Hs). cbn [Tags.count Tags.uuids].
    rewrite bool_decide_eq_false_2 by (intros [_ ?]; lia).
    destruct sub as [u c]. simpl. do 2 f_equal. lia.
  - destruct (occurrences t labels) as [|n] eqn:Hocc; [done|].
    cbn [Tags.count]. rewrite bool_decide_eq_true_2; [done|].
    split; [|done].
    destruct (decide (t ∈ non_null labels)) as [|Hnot]; [done|].
    rewrite <- occ_zero, occurrences_non_null in Hnot. lia.
Qed.

(** The round trip on a fresh client, for a list with a null entry and a
    repeated label. *)
Lemma tags_subscribe_unsubscribe_round_trip_witness :
  Tags.tagMap
    (after (Tags.unsubscribe [Some "a"; None; Some "a"] (Ok []))
       (after (Tags.subscribe [Some "a"; None; Some "a"] (Ok []))
          (Tags.connected None)))
  = Tags.tagMap (Tags.connected None).
Proof.
  assert (tags_registry_ok (Tags.connected None)) as Hok.
  { apply tags_registry_ok_iff. intros t sub Ht. done. }
  assert (∀ l, Some l ∈ [Some "a"; None; Some "a"] → plain l) as Hplain.
  { apply plain_entries. vm_compute. reflexivity. }
  exact (proj1 (proj2 (proj2 (tags_subscribe_unsubscribe_round_trip
                                [Some "a"; None; Some "a"] (Ok []) (Ok [])
                                (Tags.connected None) eq_refl Hplain Hok)))).
Defined.




(** ** Subscribing while disconnected *)

Section TagsReopen.
Import Tags TagsPlain.

Lemma tags_subscribe_protoCount labels reply s :
  protoCount s = false → Forall plain (non_null labels) →
  protoCount (after (subscribe labels reply) s) = false.
Proof.
  intros Hp Hplain. unfold after. rewrite tags_subscribe_plain by done.
  simpl. by destruct (_ || _).
Qed.

Lemma tags_onOpen_wire reply s :
  protoCount s = false →
  wire (after (onOpen reply) s)
  = wire s ++
    (if bool_decide ((map_to_list (clear_uuids <$> tagMap s)).*1 = [])
     then []
     else [ReqSubscribe (map_to_list (clear_uuids <$> tagMap s)).*1]).
Proof.
  intros Hp. unfold after. by rewrite tags_onOpen_eq by (by left).
Qed.

End TagsReopen.

Section ContextsReopen.
Import Contexts ContextsPlain.

Lemma contexts_subscribe_protoCount labels reply s :
  protoCount s = false → Forall plain (non_null labels) →
  protoCount (after (subscribe labels reply) s) = false.
Proof.
  intros Hp Hplain. unfold after. rewrite contexts_subscribe_plain by done.
  simpl. by destruct (_ || _).
Qed.

Lemma contexts_onOpen_wire reply s :
  protoCount s = false →
  wire (after (onOpen reply) s)
  = wire s ++
    (if bool_decide ((map_to_list (clear_ids <$> contextMap s)).*1 = [])
     then []
     else [ReqSubscribe (map_to_list (clear_ids <$> contextMap s)).*1]).
Proof.
  intros Hp. unfold after. by rewrite contexts_onOpen_eq by (by left).
Qed.

Lemma contexts_subscribe_outcome labels reply s :
  protoCount s = false → Forall plain (non_null labels) →
  outcome (subscribe labels reply) s = Ok tt.
Proof.
  intros Hp Hplain. unfold outcome. by rewrite contexts_subscribe_plain.
Qed.

End ContextsReopen.

(** X9. A [subscribe] call made while the connection is closed, with no
    label inherited from [Object.prototype] and no [count] in the prototype
    of the registry, returns normally and writes nothing, and the labels it
    was given are announced by the one subscribe frame that the next open
    event writes. *)
Theorem subscribe_while_closed_is_sent_on_open :
  (∀ labels reply reply' s t,
     Tags.protoCount s = false → (∀ l, Some l ∈ labels → plain l) →
     Tags.open s = false → Some t ∈ labels →
     let s1 := after (Tags.subscribe labels reply) s in
     outcome (Tags.subscribe labels reply) s = Ok tt ∧
     Tags.wire s1 = Tags.wire s ∧
     ∃ tags, Tags.wire (after (Tags.onOpen reply') s1)
             = Tags.wire s ++ [ReqSubscribe tags] ∧ t ∈ tags) ∧
  (∀ labels reply reply' s t,
     Contexts.protoCount s = false → (∀ l, Some l ∈ labels → plain l) →
     Contexts.open s = false → Some t ∈ labels →
     let s1 := after (Contexts.subscribe labels reply) s in
     outcome (Contexts.subscribe labels reply) s = Ok tt ∧
     Contexts.wire s1 = Contexts.wire s ∧
     ∃ contexts, Contexts.wire (after (Contexts.onOpen reply') s1)
                 = Contexts.wire s ++ [ReqSubscribe contexts] ∧ t ∈ contexts).
Proof.
  split.
  - intros labels reply reply' s t Hp Hplain%non_null_plain Hclosed Hin s1.
    assert (Tags.wire s1 = Tags.wire s) as Hwire
      by (by injection (tags_subscribe_closed labels reply s Hclosed)).
    assert (t ∈ (map_to_list (Tags.clear_uuids <$> Tags.tagMap s1)).*1) as Ht.
    { rewrite registered_keys, lookup_fmap, fmap_is_Some.
      subst s1. rewrite tags_subscribe_lookup by done.
      assert (occurrences t labels ≠ O) as Hocc.
      { rewrite <- occurrences_non_null, occ_zero, non_null_elem. tauto. }
      destruct (Tags.tagMap s !! t); [by eexists|].
      destruct (occurrences t labels); [done|by eexists]. }
    split_and!; [by apply tags_subscribe_outcome|done|].
    eexists. rewrite tags_onOpen_wire, Hwire
      by (by apply tags_subscribe_protoCount).
    rewrite bool_decide_eq_false_2; [done|].
    intros Hnil. rewrite Hnil in Ht. by apply elem_of_nil in Ht.
  - intros labels reply reply' s t Hp Hplain%non_null_plain Hclosed Hin s1.
    assert (Contexts.wire s1 = Contexts.wire s) as Hwire
      by (by injection (contexts_subscribe_closed labels reply s Hclosed)).
    assert (t ∈ (map_to_list (Contexts.clear_ids <$> Contexts.contextMap s1)).*1)
      as Ht.
    { rewrite registered_keys, lookup_fmap, fmap_is_Some.
      subst s1.
      rewrite contexts_subscribe_contextMap, contexts_subscribe_fold_lookup
        by done.
      assert (length (filter (λ x, x = t) (non_null labels)) ≠ O) as Hocc.
      { rewrite occ_zero, non_null_elem. tauto. }
      destruct (Contexts.contextMap s !! t); [by eexists|].
      destruct (length _); [done|by eexists]. }
    split_and!; [by apply contexts_subscribe_outcome|done|].
    eexists. rewrite contexts_onOpen_wire, Hwire
      by (by apply contexts_subscribe_protoCount).
    rewrite bool_decide_eq_false_2; [done|].
    intros Hnil. rewrite Hnil in Ht. by apply elem_of_nil in Ht.
Qed.

(** A subscription made after the socket closed, then the reopening. *)
Lemma subscribe_while_closed_is_sent_on_open_witness :
  let s := after Tags.onClose (Tags.connected None) in
  Tags.wire (after (Tags.subscribe [Some "news"] (Ok [])) s) = Tags.wire s.
Proof.
  intros s.
  assert (Tags.open s = false) as Hclosed by reflexivity.
  assert (Some "news" ∈ [Some "news"]) as Hin by apply list_elem_of_here.
  assert (∀ l, Some l ∈ [Some "news"] → plain l) as Hplain.
  { apply plain_entries. vm_compute. reflexivity. }
  exact (proj1 (proj2 (proj1 subscribe_while_closed_is_sent_on_open
                         [Some "news"] (Ok []) (Ok []) s "news"
                         eq_refl Hplain Hclosed Hin))).
Defined.

(** ** Local updates *)

Lemma set_delete_add (x : string) (l : list string) :
  x ∉ l → set_delete x (set_add x l) = l.
Proof.
  intros Hx. unfold set_add. rewrite decide_False by done.
  unfold set_delete. rewrite filter_app.
  rewrite filter_cons_False by (intros Hne; by apply Hne).
  rewrite filter_nil, app_nil_r. by apply set_delete_absent.
Qed.

Section TagsUpdateCall.
Import Tags TagsPlain.

Lemma tags_updateCallback_eq obj uuid obj' s :
  protoCount s = false → Forall plain (_tags (deref obj)) →
  uuid ≠ "__proto__" →
  objectUUID (deref obj) = Ok uuid → define_id uuid obj = Ok obj' →
  updateCallback obj s =
    if (foldl (add_uuid uuid) (tagMap s, false) (_tags (deref obj))).2
    then (Ok (snapshot (property (protoCount s) (objectMap s) uuid), obj'),
          {| open := open s; myID := myID s;
             tagMap := (foldl (add_uuid uuid) (tagMap s, false)
                              (_tags (deref obj))).1;
             objectMap := <[uuid := Proxy obj']> (objectMap s);
             wire := wire s;
             protoCount := protoCount s; cacheProto := cacheProto s |})
    else (Ok (None, obj),
          set_tagMap
            (λ _, (foldl (add_uuid uuid) (tagMap s, false)
                         (_tags (deref obj))).1) s).
Proof.
  intros Hp Hplain Hne Huuid Hdef. unfold updateCallback.
  unfold bind at 1. unfold lift at 1. rewrite Huuid.
  unfold bind at 1. rewrite tags_add_uuid_loop_plain by done.
  destruct (foldl (add_uuid uuid) (tagMap s, false) (_tags (deref obj)))
    as [m [|]]; cbn [fst snd negb]; [|done].
  run_method. rewrite Hdef. simpl. by rewrite tags_store_plain.
Qed.

Lemma tags_removeCallback_eq obj uuid s :
  protoCount s = false → Forall plain (_tags (deref obj)) →
  objectUUID (deref obj) = Ok uuid →
  removeCallback obj s =
    (Ok tt,
     {| open := open s; myID := myID s;
        tagMap := foldl (drop_uuid uuid) (tagMap s) (_tags (deref obj));
        objectMap := delete uuid (objectMap s);
        wire := wire s;
        protoCount := protoCount s; cacheProto := cacheProto s |}).
Proof.
  intros Hp Hplain Huuid. unfold removeCallback.
  unfold bind at 1. unfold lift at 1. rewrite Huuid.
  unfold bind at 1. rewrite tags_drop_uuid_loop_plain by done.
  run_method. unfold has_property, property.
  destruct (objectMap s !! uuid) as [v|] eqn:Hv; simpl; [done|].
  destruct (inherits (protoCount s) uuid); simpl.
  - done.
  - unfold set_tagMap. simpl. by rewrite delete_id.
Qed.

Lemma tags_stamped_uuid s o fresh_key me :
  myID s = Some me → me ≠ "" → fresh_key ≠ "" →
  ∃ key, _key (tags_stamped s o fresh_key) = Some key ∧ key ≠ "" ∧
         objectUUID (tags_stamped s o fresh_key) = Ok (me +:+ key).
Proof.
  intros Hme Hne Hfresh. unfold objectUUID, tags_stamped. simpl. rewrite Hme.
  simpl. rewrite (bool_decide_eq_false_2 (me = "")) by done. simpl.
  destruct (_key o) as [k|] eqn:Hk; simpl.
  - destruct (decide (k = "")) as [->|Hkne].
    + simpl. exists fresh_key. split_and!; [done|done|].
      simpl. by rewrite bool_decide_eq_false_2.
    + rewrite (bool_decide_eq_false_2 (k = "")) by done. simpl.
      exists k. split_and!; [done|done|]. simpl.
      by rewrite bool_decide_eq_false_2.
  - exists fresh_key. split_and!; [done|done|].
    simpl. by rewrite bool_decide_eq_false_2.
Qed.

Lemma tags_update_eq o fresh_key reply s :
  _id o = None →
  update o fresh_key reply s =
    (let! r := updateCallback (Raw (tags_stamped s o fresh_key)) in
     try_catch
       (request (ReqUpdate (enumerable (deref r.2))) reply ;;; ret tt)
       (λ e,
          match r.1 with
          | Some original => updateCallback original ;;; throw e
          | None => removeCallback r.2 ;;; throw e
          end)) s.
Proof.
  intros Hid. destruct o as [b k tg pl i]. simpl in Hid. subst i.
  unfold update, tags_stamped. unfold bind at 1. unfold gets at 1.
  cbn [_by _key _tags payload _id].
  destruct (truthy k) eqn:Hk; cbn [negb _by _key _tags payload _id];
    reflexivity.
Qed.

Lemma tags_identified_uuid uuid o :
  objectUUID (identified uuid o) = objectUUID o.
Proof. unfold identified. by case_bool_decide. Qed.

Lemma tags_identified_tags uuid o : _tags (identified uuid o) = _tags o.
Proof. unfold identified. by case_bool_decide. Qed.

Lemma tags_identified_plain uuid o :
  "_id" ∉ (payload o).*1 → enumerable (identified uuid o) = enumerable o.
Proof. intros Hno. unfold identified. by rewrite bool_decide_eq_false_2. Qed.

End TagsUpdateCall.

Section TagsUpdateRollback.
Import Tags TagsPlain.

Lemma tags_add_then_drop uuid (tags : list string)
    (m : gmap string subscription) :
  (∀ t sub, m !! t = Some sub → uuid ∉ uuids sub) →
  foldl (drop_uuid uuid) (foldl (add_uuid uuid) (m, false) tags).1 tags = m.
Proof.
  intros Hfree. apply map_eq. intros t.
  rewrite tags_drop_uuid_fold.
  destruct (tags_add_uuid_fold uuid tags m false) as [Hm _]. rewrite Hm.
  destruct (m !! t) as [sub|] eqn:Ht; [|done]. simpl.
  destruct (bool_decide (t ∈ tags)); [|done].
  unfold tags_unlisted, tags_listed. simpl.
  rewrite set_delete_add by (by eapply Hfree). by destruct sub.
Qed.

Lemma tags_failed_update_maps o fresh_key reply s uuid e :
  tags_standard s → Forall plain (_tags o) → _id o = None →
  objectUUID (tags_stamped s o fresh_key) = Ok uuid → plain uuid →
  objectMap s !! uuid = None →
  tags_unlisted_everywhere s uuid →
  outcome (update o fresh_key reply) s = Throw e →
  tagMap (after (update o fresh_key reply) s) = tagMap s ∧
  objectMap (after (update o fresh_key reply) s) = objectMap s.
Proof.
  intros [Hp Hc] Hplain Hid Huuid Hpu Hnone Hfree.
  pose proof (tags_add_then_drop uuid (_tags o) (tagMap s) Hfree) as Hback.
  pose proof (tags_update_eq o fresh_key reply s Hid) as Heq.
  unfold bind at 1 in Heq.
  set (st := tags_stamped s o fresh_key) in *.
  rewrite (tags_updateCallback_eq (Raw st) uuid (Raw (identified uuid st)) s
             Hp Hplain (plain_not_proto uuid Hpu) Huuid eq_refl) in Heq.
  cbn [deref] in Heq.
  change (_tags st) with (_tags o) in Heq.
  rewrite Hp, (property_missing _ _ Hpu Hnone) in Heq. cbn [snapshot] in Heq.
  unfold outcome, after. rewrite Heq. clear Heq.
  set (marked := foldl (add_uuid uuid) (tagMap s, false) (_tags o)) in *.
  assert (∀ obj s1,
            obj = Raw st ∨ obj = Raw (identified uuid st) →
            protoCount s1 = false → tagMap s1 = marked.1 →
            (objectMap s1 = <[uuid := Proxy (Raw (identified uuid st))]>
                              (objectMap s)
             ∨ objectMap s1 = objectMap s) →
            tagMap (removeCallback obj s1).2 = tagMap s ∧
            objectMap (removeCallback obj s1).2 = objectMap s ∧
            (removeCallback obj s1).1 = Ok tt)
    as Hrollback.
  { intros obj s1 Hobj Hp1 Htm Hom.
    assert (objectUUID (deref obj) = Ok uuid ∧ _tags (deref obj) = _tags o)
      as [Hu Ht].
    { destruct Hobj as [-> | ->]; cbn [deref];
        by rewrite ?tags_identified_uuid, ?tags_identified_tags. }
    rewrite (tags_removeCallback_eq obj uuid s1 Hp1);
      [|by rewrite Ht|done].
    cbn [fst snd tagMap objectMap]. rewrite Ht, Htm.
    split_and!; [exact Hback| |done].
    destruct Hom as [-> | ->].
    - by apply delete_insert_id.
    - by apply delete_id. }
  destruct marked.2.
  - cbn [fst snd]. unfold try_catch, request. run_method.
    destruct (open s) eqn:Hopen; simpl.
    + destruct reply as [p|e']; simpl; [done|].
      intros _.
      match goal with
      | |- context [removeCallback ?obj ?s1] =>
          destruct (Hrollback obj s1) as (Htm & Hom & Hres);
            [by right|done|done|by left|]
      end.
      unfold send in *. simpl in *.
      destruct (removeCallback _ _) as [[[]|?] s3]; simpl in *; [by split|done].
    + intros _.
      match goal with
      | |- context [removeCallback ?obj ?s1] =>
          destruct (Hrollback obj s1) as (Htm & Hom & Hres);
            [by right|done|done|by left|]
      end.
      destruct (removeCallback _ _) as [[[]|?] s3]; simpl in *; [by split|done].
  - cbn [fst snd]. unfold try_catch, request. run_method.
    destruct (open s) eqn:Hopen; simpl.
    + destruct reply as [p|e']; simpl; [done|].
      intros _.
      match goal with
      | |- context [removeCallback ?obj ?s1] =>
          destruct (Hrollback obj s1) as (Htm & Hom & Hres);
            [by left|done|done|by right|]
      end.
      unfold send in *. simpl in *.
      destruct (removeCallback _ _) as [[[]|?] s3]; simpl in *; [by split|done].
    + intros _.
      match goal with
      | |- context [removeCallback ?obj ?s1] =>
          destruct (Hrollback obj s1) as (Htm & Hom & Hres);
            [by left|done|done|by right|]
      end.
      destruct (removeCallback _ _) as [[[]|?] s3]; simpl in *; [by split|done].
Qed.

End TagsUpdateRollback.

(** X10. Tag revision: take a client in the standard state, and an object
    without a read-only [_id], whose tags and whose identifier are not
    names inherited from [Object.prototype], and which is neither cached
    nor listed in any matched set.  When [update] of it fails, because the
    connection is closed or the server answers with an error, the registry
    and the cache are exactly what they were before the call. *)
Theorem tags_failed_update_of_new_object_is_undone (o : Tags.object)
    (fresh_key : string) (reply : answer) (s : Tags.state) (uuid : string)
    (e : error) :
  tags_standard s →
  Forall plain (Tags._tags o) →
  Tags._id o = None →
  Tags.objectUUID (tags_stamped s o fresh_key) = Ok uuid →
  plain uuid →
  Tags.objectMap s !! uuid = None →
  tags_unlisted_everywhere s uuid →
  outcome (Tags.update o fresh_key reply) s = Throw e →
  Tags.tagMap (after (Tags.update o fresh_key reply) s) = Tags.tagMap s ∧
  Tags.objectMap (after (Tags.update o fresh_key reply) s) = Tags.objectMap s.
Proof. apply tags_failed_update_maps. Qed.

(** A rejected update of a first object on a client subscribed to its tag. *)
Lemma tags_failed_update_of_new_object_is_undone_witness :
  let s := after (Tags.subscribe [Some "a"] (Ok [])) (Tags.connected (Some "u1")) in
  let call := Tags.update (Samples.tagged "x" "k1" ["a"] "new") "fresh"
                          (Throw ServerError) in
  Tags.tagMap (after call s) = Tags.tagMap s ∧
  Tags.objectMap (after call s) = Tags.objectMap s.
Proof.
  intros s call.
  apply (tags_failed_update_of_new_object_is_undone
           (Samples.tagged "x" "k1" ["a"] "new") "fresh" (Throw ServerError)
           s "u1k1" ServerError).
  - split; reflexivity.
  - apply (bool_decide_eq_true_1 _). vm_compute. reflexivity.
  - reflexivity.
  - reflexivity.
  - apply (bool_decide_eq_true_1 _). vm_compute. reflexivity.
  - reflexivity.
  - intros t sub Ht.
    assert (Tags.tagMap s = {[ "a" := {| Tags.uuids := []; Tags.count := 1 |} ]})
      as Hmap by (vm_compute; reflexivity).
    rewrite Hmap in Ht. apply lookup_singleton_Some in Ht as [_ <-].
    apply not_elem_of_nil.
  - vm_compute. reflexivity.
Defined.

Section TagsUpdateFrame.
Import Tags TagsPlain.

Lemma tags_update_logged_out o fresh_key reply s :
  truthy (myID s) = false →
  update o fresh_key reply s = (Throw IdentityError, s).
Proof.
  intros Hout. destruct o as [b k tg pl i].
  unfold update, updateCallback, objectUUID. run_method.
  destruct (truthy k); simpl; rewrite Hout; done.
Qed.

Lemma tags_request_then_handler msg reply (handler : error → M state unit) s1 :
  open s1 = true →
  (∀ e s2, wire (handler e s2).2 = wire s2) →
  wire (try_catch (request msg reply ;;; ret tt) handler s1).2
  = wire s1 ++ [msg].
Proof.
  intros Hopen Hhandler. unfold try_catch, request. run_method.
  rewrite Hopen. simpl. destruct reply as [p|e]; simpl; [done|].
  by rewrite Hhandler.
Qed.

Lemma tags_updateCallback_returns obj uuid s :
  protoCount s = false → Forall plain (_tags (deref obj)) →
  objectUUID (deref obj) = Ok uuid → _id (deref obj) = None →
  ∃ orig obj1 s1,
    updateCallback obj s = (Ok (orig, obj1), s1) ∧
    (obj1 = obj ∨ obj1 = on_target (identified uuid) obj) ∧
    tags_channel s1 = tags_channel s.
Proof.
  intros Hp Hplain Huuid Hid. unfold updateCallback.
  unfold bind at 1. unfold lift at 1. rewrite Huuid.
  unfold bind at 1. rewrite tags_add_uuid_loop_plain by done.
  destruct (foldl (add_uuid uuid) (tagMap s, false) (_tags (deref obj)))
    as [m [|]]; cbn [fst snd negb].
  - unfold define_id. rewrite Hid. run_method.
    eexists _, _, _. split; [done|]. split; [by right|].
    by rewrite tags_store_channel.
  - eexists _, _, _. split; [done|]. split; [by left|done].
Qed.

Lemma tags_update_wire o fresh_key reply s uuid :
  protoCount s = false → Forall plain (_tags o) →
  open s = true → _id o = None → "_id" ∉ (payload o).*1 →
  objectUUID (tags_stamped s o fresh_key) = Ok uuid →
  wire (after (update o fresh_key reply) s)
  = wire s ++ [ReqUpdate (tags_stamped s o fresh_key)].
Proof.
  intros Hp Hplain Hopen Hid Hpayload Huuid.
  pose proof (tags_update_eq o fresh_key reply s Hid) as Heq.
  unfold bind at 1 in Heq.
  destruct (tags_updateCallback_returns (Raw (tags_stamped s o fresh_key))
              uuid s Hp Hplain Huuid eq_refl)
    as (orig & obj1 & s1 & Hcall & Hobj & Hch).
  rewrite Hcall in Heq. cbn [fst snd] in Heq.
  unfold after. rewrite Heq. clear Heq.
  injection Hch as Hopen1 Hwire1.
  assert (enumerable (deref obj1) = tags_stamped s o fresh_key) as ->.
  { destruct Hobj as [-> | ->]; cbn [deref on_target]; [done|].
    by rewrite tags_identified_plain. }
  assert (∀ original e s2,
            wire (((updateCallback original ;;; throw e) : M state unit) s2).2
            = wire s2) as Hup.
  { intros original e s2.
    pose proof (tags_updateCallback_channel original s2) as Hch.
    unfold after in Hch. run_method.
    destruct (updateCallback original s2) as [[?|?] s3]; simpl in *;
      by injection Hch. }
  assert (∀ obj e s2,
            wire (((removeCallback obj ;;; throw e) : M state unit) s2).2
            = wire s2) as Hrm.
  { intros obj e s2.
    pose proof (tags_removeCallback_channel obj s2) as Hch.
    unfold after in Hch. run_method.
    destruct (removeCallback obj s2) as [[?|?] s3]; simpl in *;
      by injection Hch. }
  rewrite tags_request_then_handler; [by rewrite Hwire1|congruence|].
  intros e s2. destruct orig; [apply Hup|apply Hrm].
Qed.

End TagsUpdateFrame.

(** X11. Tag revision: [update] stamps the object with the session's
    identifier as owner, whatever owner the caller put, and with the
    generated key when the object has none.  Logged out, the call ends in
    the identity error with nothing changed and nothing sent.  Logged in
    and connected, with no [count] in the prototype of the registry, for an
    object without an [_id] whose tags are not names inherited from
    [Object.prototype], it writes exactly one update frame carrying the
    stamped object, whether the server then accepts or rejects it. *)
Theorem tags_update_stamps_owner_and_key :
  (∀ o fresh_key reply s,
     truthy (Tags.myID s) = false →
     Tags.update o fresh_key reply s = (Throw IdentityError, s)) ∧
  (∀ o fresh_key reply s me,
     Tags.protoCount s = false → Forall plain (Tags._tags o) →
     Tags.open s = true → Tags.myID s = Some me → me ≠ "" →
     fresh_key ≠ "" → Tags._id o = None → "_id" ∉ (Tags.payload o).*1 →
     ∃ key,
       (key = fresh_key ∨ Tags._key o = Some key) ∧
       (truthy (Tags._key o) = true → Tags._key o = Some key) ∧
       Tags.wire (after (Tags.update o fresh_key reply) s)
       = Tags.wire s ++
         [ReqUpdate {| Tags._by := Some me; Tags._key := Some key;
                       Tags._tags := Tags._tags o;
                       Tags.payload := Tags.payload o;
                       Tags._id := None |}]).
Proof.
  split; [exact tags_update_logged_out|].
  intros o fresh_key reply s me Hp Hplain Hopen Hme Hne Hfresh Hid Hpayload.
  destruct (tags_stamped_uuid s o fresh_key me Hme Hne Hfresh)
    as (key & Hkey & Hkne & Huuid).
  exists key. split_and!.
  - unfold tags_stamped in Hkey. simpl in Hkey.
    destruct (truthy (Tags._key o)); [by right|left; by injection Hkey].
  - intros Htruthy. unfold tags_stamped in Hkey. simpl in Hkey.
    by rewrite Htruthy in Hkey.
  - rewrite (tags_update_wire o fresh_key reply s _ Hp Hplain Hopen Hid
               Hpayload Huuid).
    unfold tags_stamped in *. simpl in Hkey. by rewrite Hkey, Hme.
Qed.

(** An update by "u1" of an object that names another owner and no key. *)
Lemma tags_update_stamps_owner_and_key_witness :
  ∃ key,
    Tags.wire
      (after (Tags.update
                {| Tags._by := Some "mallory"; Tags._key := None;
                   Tags._tags := ["a"]; Tags.payload := []; Tags._id := None |}
                "fresh" (Ok []))
             (Tags.connected (Some "u1")))
    = Tags.wire (Tags.connected (Some "u1")) ++
      [ReqUpdate {| Tags._by := Some "u1"; Tags._key := Some key;
                    Tags._tags := ["a"]; Tags.payload := [];
                    Tags._id := None |}].
Proof.
  destruct (proj2 tags_update_stamps_owner_and_key
              {| Tags._by := Some "mallory"; Tags._key := None;
                 Tags._tags := ["a"]; Tags.payload := []; Tags._id := None |}
              "fresh" (Ok []) (Tags.connected (Some "u1")) "u1")
    as (key & _ & _ & Hwire);
    [reflexivity
    |apply (bool_decide_eq_true_1 _); vm_compute; reflexivity
    |reflexivity|reflexivity|discriminate|discriminate|reflexivity
    |apply not_elem_of_nil|].
  by exists key.
Defined.

Section ContextsPost.
Import Contexts ContextsPlain.

Lemma contexts_plain_labels (o : object) :
  (∀ c, c ∈ context o ∨ c = id o → plain c) →
  Forall plain (labels o) ∧ id o ≠ "__proto__".
Proof.
  intros Hplain. split.
  - apply Forall_forall. intros c Hc. by apply Hplain, contexts_labels_elem.
  - apply plain_not_proto, Hplain. by right.
Qed.

Lemma contexts_deduped_plain (o : object) :
  (∀ c, c ∈ context o ∨ c = id o → plain c) →
  Forall plain (labels (contexts_deduped o)) ∧
  id (contexts_deduped o) ≠ "__proto__".
Proof.
  intros Hplain. apply contexts_plain_labels. simpl.
  intros c [Hc|Hc]; apply Hplain; [left|by right].
  by rewrite dedupe_elem in Hc.
Qed.

Lemma contexts_updateCallback_lookup obj s c :
  protoCount s = false → Forall plain (labels (deref obj)) →
  id (deref obj) ≠ "__proto__" →
  contextMap (after (updateCallback obj) s) !! c
  = (if bool_decide (c ∈ labels (deref obj))
     then contexts_listed (id (deref obj)) else Datatypes.id)
    <$> contextMap s !! c.
Proof.
  intros Hp Hplain Hne.
  unfold after. rewrite contexts_updateCallback_eq by done.
  cbn [snd contextMap].
  by destruct (contexts_add_id_fold (id (deref obj)) (labels (deref obj))
                 (contextMap s) false) as [-> _].
Qed.

Lemma contexts_updateCallback_objectMap obj s :
  protoCount s = false → Forall plain (labels (deref obj)) →
  id (deref obj) ≠ "__proto__" →
  objectMap (after (updateCallback obj) s)
  = if bool_decide (contexts_matching s (deref obj) ≠ [])
    then <[id (deref obj) := wrap obj]> (objectMap s)
    else objectMap s.
Proof.
  intros Hp Hplain Hne.
  unfold after. rewrite contexts_updateCallback_eq by done.
  cbn [snd objectMap].
  destruct (contexts_add_id_fold (id (deref obj)) (labels (deref obj))
              (contextMap s) false) as [_ ->].
  done.
Qed.

Lemma contexts_updateCallback_protoCount obj s :
  protoCount s = false → Forall plain (labels (deref obj)) →
  id (deref obj) ≠ "__proto__" →
  protoCount (after (updateCallback obj) s) = false.
Proof.
  intros Hp Hplain Hne.
  unfold after. by rewrite contexts_updateCallback_eq by done.
Qed.

Lemma contexts_post_eq o reply s :
  protoCount s = false → (∀ c, c ∈ context o ∨ c = id o → plain c) →
  post o reply s =
    try_catch
      (request (ReqUpdate (enumerable (deref (wrap (Raw (contexts_deduped o))))))
               reply ;;;
       ret (wrap (Raw (contexts_deduped o))))
      (λ e, removeCallback (wrap (Raw (contexts_deduped o))) ;;; throw e)
      (after (updateCallback (Raw (contexts_deduped o))) s).
Proof.
  intros Hp [Hplain Hne]%contexts_deduped_plain.
  unfold post. unfold bind at 1. unfold after.
  fold (contexts_deduped o).
  by rewrite (contexts_updateCallback_eq (Raw (contexts_deduped o)) s).
Qed.

Lemma contexts_supporting_maps s s' o :
  contextMap s' = contextMap s →
  contexts_supporting s' o = contexts_supporting s o.
Proof. intros Hcm. unfold contexts_supporting. by rewrite Hcm. Qed.

(** [#removeCallback] right after [#updateCallback] on an identifier that
    was neither cached nor listed. *)
Lemma contexts_update_then_remove obj s s2 :
  protoCount s = false → Forall plain (labels (deref obj)) →
  id (deref obj) ≠ "__proto__" → protoCount s2 = false →
  objectMap s !! id (deref obj) = None →
  contexts_unlisted_everywhere s (id (deref obj)) →
  contextMap s2 = contextMap (after (updateCallback obj) s) →
  objectMap s2 = objectMap (after (updateCallback obj) s) →
  contextMap (after (removeCallback (wrap obj)) s2) = contextMap s ∧
  objectMap (after (removeCallback (wrap obj)) s2) = objectMap s.
Proof.
  intros Hp Hplain Hne Hp2 Hnone Hfree Hcm Hom.
  unfold after in Hcm, Hom.
  rewrite contexts_updateCallback_eq in Hcm, Hom by done.
  cbn [snd contextMap objectMap] in Hcm, Hom.
  destruct (contexts_add_id_fold (id (deref obj)) (labels (deref obj))
              (contextMap s) false) as [Hm _].
  assert (∀ c, contextMap s2 !! c
               = (if bool_decide (c ∈ labels (deref obj))
                  then contexts_listed (id (deref obj)) else Datatypes.id)
                 <$> contextMap s !! c) as Hlookup.
  { intros c. by rewrite Hcm, Hm. }
  split.
  - apply map_eq. intros c.
    rewrite contexts_removeCallback_lookup, Hlookup by done.
    rewrite contexts_wrap_labels, contexts_wrap_id.
    destruct (contextMap s !! c) as [sub|] eqn:Hc; [|done]. simpl.
    destruct (bool_decide (c ∈ labels (deref obj))); [|done].
    unfold contexts_unlisted, contexts_listed. simpl.
    rewrite set_delete_add by (by eapply Hfree). by destruct sub.
  - rewrite contexts_removeCallback_objectMap by done.
    assert (contexts_supporting s2 (deref (wrap obj)) = []) as Hnil.
    { destruct (contexts_supporting s2 (deref (wrap obj))) as [|c rest] eqn:Hsupp;
        [done|]. exfalso.
      assert (c ∈ contexts_supporting s2 (deref (wrap obj))) as Hin
        by (rewrite Hsupp; apply list_elem_of_here).
      unfold contexts_supporting in Hin.
      apply list_elem_of_filter in Hin as [[Hlisted Hlab] _].
      rewrite contexts_wrap_labels in Hlab. rewrite contexts_wrap_id in Hlisted.
      rewrite Hlookup in Hlisted.
      destruct (contextMap s !! c) as [sub|] eqn:Hc;
        [|by apply elem_of_nil in Hlisted].
      simpl in Hlisted. rewrite bool_decide_eq_false_2 in Hlisted by done.
      by eapply Hfree. }
    rewrite bool_decide_eq_true_2 by done.
    rewrite contexts_wrap_id, Hom.
    destruct (foldl _ _ _).2; [by apply delete_insert_id|by apply delete_id].
Qed.

End ContextsPost.

(** X12. Context revision: take a client in the standard state and an
    object none of whose contexts, and not its id, is a name inherited
    from [Object.prototype], and which is neither cached nor listed in any
    matched set.  When [#post] of it fails, because the connection is
    closed or the server answers with an error, the registry and the cache
    are exactly what they were before the call. *)
Theorem contexts_failed_post_of_new_object_is_undone (o : Contexts.object)
    (reply : answer) (s : Contexts.state) (e : error) :
  contexts_standard s →
  (∀ c, c ∈ Contexts.context o ∨ c = Contexts.id o → plain c) →
  Contexts.objectMap s !! Contexts.id o = None →
  contexts_unlisted_everywhere s (Contexts.id o) →
  outcome (Contexts.post o reply) s = Throw e →
  Contexts.contextMap (after (Contexts.post o reply) s) = Contexts.contextMap s ∧
  Contexts.objectMap (after (Contexts.post o reply) s) = Contexts.objectMap s.
Proof.
  intros [Hp Hc] Hplain Hnone Hfree. unfold outcome, after.
  rewrite contexts_post_eq by done.
  destruct (contexts_deduped_plain o Hplain) as [Hall Hne].
  pose proof (contexts_updateCallback_protoCount (Raw (contexts_deduped o)) s
                Hp Hall Hne) as Hp1.
  set (s1 := after (Contexts.updateCallback (Raw (contexts_deduped o))) s)
    in *.
  set (h := Contexts.wrap (Raw (contexts_deduped o))).
  destruct (contexts_request_maps (ReqUpdate (Contexts.enumerable (deref h)))
              reply s1) as (Hcm & Hom & Hp2 & _).
  unfold try_catch. unfold bind at 1 3 5. unfold after in Hcm, Hom, Hp2.
  destruct (Contexts.request (ReqUpdate (Contexts.enumerable (deref h))) reply s1)
    as [[p|e'] s2]; cbn [fst snd] in *; [done|].
  intros _.
  destruct (contexts_update_then_remove (Raw (contexts_deduped o)) s s2)
    as [Hcm' Hom']; [done|done|done|congruence|done|done|done|done|].
  fold h in Hcm', Hom'. unfold after in Hcm', Hom'. unfold bind.
  by destruct (Contexts.removeCallback h s2) as [[[]|?] s3].
Qed.

(** A rejected post of a first object on a client subscribed to its
    context. *)
Lemma contexts_failed_post_of_new_object_is_undone_witness :
  let s := after (Contexts.subscribe [Some "a"] (Ok [])) Contexts.connected in
  let call := Contexts.post (Samples.filed "a1" ["a"; "a"] "new")
                            (Throw ServerError) in
  Contexts.contextMap (after call s) = Contexts.contextMap s ∧
  Contexts.objectMap (after call s) = Contexts.objectMap s.
Proof.
  intros s call.
  apply (contexts_failed_post_of_new_object_is_undone
           (Samples.filed "a1" ["a"; "a"] "new") (Throw ServerError) s
           ServerError).
  - split; reflexivity.
  - intros c Hc. assert (c ∈ ["a"; "a"; "a1"]) as Hin.
    { simpl in Hc. rewrite !elem_of_cons in *. tauto. }
    clear Hc. revert c Hin. apply (proj1 (Forall_forall _ _)).
    apply (bool_decide_eq_true_1 _). vm_compute. reflexivity.
  - reflexivity.
  - intros c sub Hc.
    assert (Contexts.contextMap s
            = {[ "a" := {| Contexts.ids := []; Contexts.count := 1 |} ]})
      as Hmap by (vm_compute; reflexivity).
    rewrite Hmap in Hc. apply lookup_singleton_Some in Hc as [_ <-].
    apply not_elem_of_nil.
  - vm_compute. reflexivity.
Defined.

Section ContextsRemoveCall.
Import Contexts ContextsPlain.

Lemma contexts_matching_maps s s' o o' :
  labels o' = labels o →
  (∀ c, is_Some (contextMap s' !! c) ↔ is_Some (contextMap s !! c)) →
  contexts_matching s' o' = contexts_matching s o.
Proof.
  intros Hlab Hdom. unfold contexts_matching. rewrite Hlab.
  by apply list_filter_iff.
Qed.

Lemma contexts_remove_eq obj reply s :
  protoCount s = false →
  remove obj reply s =
    try_catch
      (request (ReqRemove (Some (id (deref obj)))) reply ;;; ret true)
      (λ e, updateCallback (assign_copy obj) ;;; throw e)
      (after (removeCallback obj) s).
Proof.
  intros Hp. unfold remove. unfold bind at 1. unfold after.
  by rewrite (contexts_removeCallback_eq obj s) by (by left).
Qed.

Lemma contexts_remove_cases obj reply s :
  protoCount s = false → Forall plain (labels (deref obj)) →
  id (deref obj) ≠ "__proto__" →
  (open s = true ∧
   remove obj reply s
   = (Ok true,
      send (ReqRemove (Some (id (deref obj)))) (after (removeCallback obj) s))) ∨
  (∃ e s2,
     contextMap s2 = contextMap (after (removeCallback obj) s) ∧
     objectMap s2 = objectMap (after (removeCallback obj) s) ∧
     protoCount s2 = false ∧
     remove obj reply s
     = (Throw e, after (updateCallback (assign_copy obj)) s2)).
Proof.
  intros Hp Hplain Hne. rewrite contexts_remove_eq by done.
  pose proof (contexts_removeCallback_channel obj s) as Hch.
  unfold contexts_channel in Hch. injection Hch as Hopen1 _.
  assert (protoCount (after (removeCallback obj) s) = false) as Hp1.
  { unfold after. by rewrite contexts_removeCallback_eq by (by left). }
  set (s1 := after (removeCallback obj) s) in *.
  unfold try_catch, request. run_method.
  destruct (open s1) eqn:Hopen; simpl.
  - destruct reply as [p|e]; simpl.
    + left. split; [congruence|done].
    + right. exists e, (send (ReqRemove (Some (id (deref obj)))) s1).
      split_and!; [done|done|done|].
      by rewrite contexts_updateCallback_eq.
  - right. exists NotConnected, s1. split_and!; [done|done|done|].
    by rewrite contexts_updateCallback_eq.
Qed.

End ContextsRemoveCall.

(** [#remove] in the vocabulary of the callbacks. *)
Lemma contexts_remove_maps (obj : ref Contexts.object) (reply : answer)
    (s : Contexts.state) :
  let o := deref obj in
  let s' := after (Contexts.remove obj reply) s in
  contexts_standard s →
  (∀ c, c ∈ Contexts.context o ∨ c = Contexts.id o → plain c) →
  (outcome (Contexts.remove obj reply) s = Ok true →
     (∀ c, Contexts.contextMap s' !! c
           = (if bool_decide (c ∈ Contexts.labels o)
              then contexts_unlisted (Contexts.id o) else id)
             <$> Contexts.contextMap s !! c) ∧
     Contexts.objectMap s'
     = (if bool_decide (contexts_supporting s o = [])
        then delete (Contexts.id o) (Contexts.objectMap s)
        else Contexts.objectMap s) ∧
     Contexts.wire s' = Contexts.wire s ++ [ReqRemove (Some (Contexts.id o))]) ∧
  (∀ e, outcome (Contexts.remove obj reply) s = Throw e →
     (∀ c sub', c ∈ Contexts.labels o →
                Contexts.contextMap s' !! c = Some sub' →
                Contexts.id o ∈ Contexts.ids sub') ∧
     (∀ c, c ∉ Contexts.labels o →
           Contexts.contextMap s' !! c = Contexts.contextMap s !! c) ∧
     (∀ u, u ≠ Contexts.id o →
           Contexts.objectMap s' !! u = Contexts.objectMap s !! u) ∧
     (contexts_matching s o ≠ [] →
      Contexts.objectMap s' !! Contexts.id o = Some (contexts_installed o))).
Proof.
  intros o s' [Hp Hc] [Hplain Hne]%contexts_plain_labels.
  subst s'. unfold outcome, after.
  pose proof (λ c, contexts_removeCallback_lookup obj s c Hp) as Hcm1.
  pose proof (contexts_removeCallback_objectMap obj s Hp) as Hom1.
  pose proof (contexts_removeCallback_channel obj s) as Hch1.
  unfold contexts_channel in Hch1. injection Hch1 as _ Hwire1.
  fold o in Hcm1, Hom1.
  destruct (contexts_remove_cases obj reply s Hp Hplain Hne)
    as [[Hopen Heq]|(e' & s2 & Hcm2 & Hom2 & Hp2 & Heq)];
    rewrite Heq; cbn [fst snd].
  - split; [|by intros e [=]]. intros _.
    split_and!; [exact Hcm1|exact Hom1|]. simpl. by rewrite Hwire1.
  - split; [by intros [=]|]. intros e _.
    assert (Forall plain (Contexts.labels (deref (Contexts.assign_copy obj))))
      as Hplain' by done.
    assert (Contexts.id (deref (Contexts.assign_copy obj)) ≠ "__proto__")
      as Hne' by done.
    assert (∀ c, Contexts.contextMap
                   (after (Contexts.updateCallback (Contexts.assign_copy obj)) s2)
                 !! c
                 = (if bool_decide (c ∈ Contexts.labels o)
                    then contexts_listed (Contexts.id o) else id)
                   <$> ((if bool_decide (c ∈ Contexts.labels o)
                         then contexts_unlisted (Contexts.id o) else id)
                        <$> Contexts.contextMap s !! c)) as Hlookup.
    { intros c. rewrite contexts_updateCallback_lookup, Hcm2, Hcm1 by done.
      done. }
    assert (∀ u, u ≠ Contexts.id o →
                 Contexts.objectMap s2 !! u = Contexts.objectMap s !! u) as Hother.
    { intros u Hu. rewrite Hom2, Hom1.
      destruct (bool_decide (contexts_supporting s o = []));
        [by rewrite lookup_delete_ne|done]. }
    split_and!.
    + intros c sub' Hlab. rewrite Hlookup.
      rewrite bool_decide_eq_true_2 by done.
      destruct (Contexts.contextMap s !! c) as [sub|]; [|done].
      simpl. intros [= <-]. unfold contexts_listed. simpl.
      apply set_add_elem. by left.
    + intros c Hlab. rewrite Hlookup.
      rewrite bool_decide_eq_false_2 by done.
      by destruct (Contexts.contextMap s !! c).
    + intros u Hu. rewrite contexts_updateCallback_objectMap by done.
      destruct (bool_decide
                  (contexts_matching s2 (deref (Contexts.assign_copy obj)) ≠ []));
        [|by apply Hother].
      rewrite lookup_insert_ne by (simpl; intros <-; by apply Hu). by apply Hother.
    + intros Hmatch. rewrite contexts_updateCallback_objectMap by done.
      assert (contexts_matching s2 (deref (Contexts.assign_copy obj))
              = contexts_matching s o) as Hsame.
      { apply contexts_matching_maps; [done|]. intros c. rewrite Hcm2, Hcm1.
        apply fmap_is_Some. }
      rewrite Hsame, bool_decide_eq_true_2 by done.
      rewrite lookup_insert_eq. f_equal.
Qed.

(** X13. Context revision, [#remove] on a client in the standard state, of
    an object none of whose contexts, and not its id, is a name inherited
    from [Object.prototype].  Accepted: the identifier has left the matched
    set of each label the object carries (its contexts and its id), no
    other record has changed, the cache entry is deleted unless a
    subscribed label outside the object's own lists the identifier, and
    exactly one remove frame for the identifier is written.  Rejected: the
    identifier is listed again under every subscribed label the object
    carries, every other record and every other cache entry is as before,
    and when such a label exists the cache holds a fresh snapshot of the
    object, behind one proxy unless it has a property named
    [__graffitiProxy]. *)
Theorem contexts_remove_call (obj : ref Contexts.object) (reply : answer)
    (s : Contexts.state) :
  let o := deref obj in
  let oid := Contexts.id o in
  let carries c := c ∈ Contexts.context o ∨ c = oid in
  let foreign := ∃ c sub, Contexts.contextMap s !! c = Some sub ∧
                          oid ∈ Contexts.ids sub ∧ ¬ carries c in
  let s' := after (Contexts.remove obj reply) s in
  contexts_standard s →
  (∀ c, carries c → plain c) →
  (outcome (Contexts.remove obj reply) s = Ok true →
     (∀ c, Contexts.contextMap s' !! c
           = (λ sub,
                {| Contexts.ids :=
                     if bool_decide (carries c)
                     then filter (λ u, u ≠ oid) (Contexts.ids sub)
                     else Contexts.ids sub;
                   Contexts.count := Contexts.count sub |})
             <$> Contexts.contextMap s !! c) ∧
     (foreign → Contexts.objectMap s' = Contexts.objectMap s) ∧
     (¬ foreign → Contexts.objectMap s' = delete oid (Contexts.objectMap s)) ∧
     Contexts.wire s' = Contexts.wire s ++ [ReqRemove (Some oid)]) ∧
  (∀ e, outcome (Contexts.remove obj reply) s = Throw e →
     (∀ c sub', carries c →
                Contexts.contextMap s' !! c = Some sub' →
                oid ∈ Contexts.ids sub') ∧
     (∀ c, ¬ carries c →
           Contexts.contextMap s' !! c = Contexts.contextMap s !! c) ∧
     (∀ u, u ≠ oid →
           Contexts.objectMap s' !! u = Contexts.objectMap s !! u) ∧
     ((∃ c, carries c ∧ is_Some (Contexts.contextMap s !! c)) →
      Contexts.objectMap s' !! oid = Some (contexts_installed o))).
Proof.
  intros o oid carries foreign s' Hstd Hplain.
  destruct (contexts_remove_maps obj reply s Hstd Hplain) as [Hok Hfail].
  fold o in Hok, Hfail. fold s' in Hok, Hfail.
  assert (∀ c, c ∈ Contexts.labels o ↔ carries c) as Hcar
    by (intros c; apply contexts_labels_elem).
  split.
  - intros Hout. destruct (Hok Hout) as (Hcm & Hom & Hwire).
    assert (contexts_supporting s o = [] ↔ ¬ foreign) as Hforeign
      by apply contexts_supporting_nil.
    split_and!.
    + intros c. rewrite Hcm.
      destruct (Contexts.contextMap s !! c) as [sub|]; [|done].
      simpl. f_equal.
      rewrite (bool_decide_ext (c ∈ Contexts.labels o) (carries c)) by done.
      destruct (bool_decide (carries c)); [done|by destruct sub].
    + intros Hf. rewrite Hom. rewrite bool_decide_eq_false_2; [done|].
      intros Hnil. by apply Hforeign in Hnil.
    + intros Hf. rewrite Hom. by rewrite bool_decide_eq_true_2 by (by apply Hforeign).
    + exact Hwire.
  - intros e Hout. destruct (Hfail e Hout) as (Hlisted & Hother & Hcache & Hback).
    split_and!.
    + intros c sub' Hc. apply Hlisted. by apply Hcar.
    + intros c Hc. apply Hother. by rewrite Hcar.
    + exact Hcache.
    + intros (c & Hc & Hsome). apply Hback.
      apply filter_nonempty_exists. exists c. split; [by apply Hcar|done].
Qed.

(** A rejected removal of the one cached object of a client subscribed to
    its context. *)
Lemma contexts_remove_call_witness :
  let s0 := after (Contexts.subscribe [Some "a"] (Ok [])) Contexts.connected in
  let s := after (Contexts.onMessage (FUpdate (Samples.filed "a1" ["a"] "t"))) s0 in
  let obj := Samples.cached_filed "a1" ["a"] "t" in
  Contexts.objectMap (after (Contexts.remove obj (Throw ServerError)) s) !! "a1"
  = Some (contexts_installed (deref obj)).
Proof.
  intros s0 s obj.
  assert (∀ c, c ∈ Contexts.context (deref obj) ∨ c = Contexts.id (deref obj)
               → plain c) as Hplain.
  { intros c Hc. assert (c ∈ ["a"; "a1"]) as Hin.
    { simpl in Hc. rewrite !elem_of_cons in *. tauto. }
    clear Hc. revert c Hin. apply (proj1 (Forall_forall _ _)).
    apply (bool_decide_eq_true_1 _). vm_compute. reflexivity. }
  destruct (contexts_remove_call obj (Throw ServerError) s
              (conj eq_refl eq_refl) Hplain) as [_ Hfail].
  destruct (Hfail ServerError) as (_ & _ & _ & Hback);
    [vm_compute; reflexivity|].
  apply Hback. exists "a". split; [left; apply list_elem_of_here|].
  vm_compute. by eexists.
Defined.

Section ContextsPostFrame.
Import Contexts ContextsPlain.

Lemma contexts_request_then_handler {A} msg reply (a : A)
    (handler : error → M state A) s1 :
  open s1 = true →
  (∀ e s2, wire (handler e s2).2 = wire s2) →
  wire (try_catch (request msg reply ;;; ret a) handler s1).2
  = wire s1 ++ [msg].
Proof.
  intros Hopen Hhandler. unfold try_catch, request. run_method.
  rewrite Hopen. simpl. destruct reply as [p|e]; simpl; [done|].
  by rewrite Hhandler.
Qed.

Lemma contexts_enumerable_wrap obj :
  enumerable (deref (wrap obj)) = enumerable (deref obj).
Proof.
  unfold wrap. destruct (has_marker (deref obj)); [done|].
  simpl. by rewrite deref_on_target.
Qed.

Lemma contexts_post_wire o reply s :
  protoCount s = false → (∀ c, c ∈ context o ∨ c = id o → plain c) →
  open s = true →
  wire (after (post o reply) s)
  = wire s ++ [ReqUpdate (enumerable (contexts_deduped o))].
Proof.
  intros Hp Hplain Hopen. unfold after at 1. rewrite contexts_post_eq by done.
  pose proof (contexts_updateCallback_channel (Raw (contexts_deduped o)) s)
    as Hch.
  unfold contexts_channel in Hch. injection Hch as Hopen1 Hwire1.
  rewrite contexts_request_then_handler.
  - by rewrite Hwire1, contexts_enumerable_wrap.
  - congruence.
  - intros e s2.
    pose proof (contexts_removeCallback_channel
                  (wrap (Raw (contexts_deduped o))) s2) as Hch2.
    unfold after in Hch2. run_method.
    destruct (removeCallback (wrap (Raw (contexts_deduped o))) s2)
      as [[?|?] s3]; simpl in *; by injection Hch2.
Qed.

Lemma contexts_post_accepted o p s :
  protoCount s = false → (∀ c, c ∈ context o ∨ c = id o → plain c) →
  open s = true →
  post o (Ok p) s
  = (Ok (wrap (Raw (contexts_deduped o))),
     send (ReqUpdate (enumerable (contexts_deduped o)))
          (after (updateCallback (Raw (contexts_deduped o))) s)).
Proof.
  intros Hp Hplain Hopen. rewrite contexts_post_eq by done.
  pose proof (contexts_updateCallback_channel (Raw (contexts_deduped o)) s)
    as Hch.
  unfold contexts_channel in Hch. injection Hch as Hopen1 _.
  unfold try_catch, request. run_method.
  rewrite Hopen1, Hopen. simpl. by rewrite contexts_enumerable_wrap.
Qed.

End ContextsPostFrame.

(** [#post] in the vocabulary of the callbacks. *)
Lemma contexts_post_frame (o : Contexts.object)
    (reply : answer) (s : Contexts.state) :
  Contexts.protoCount s = false →
  (∀ c, c ∈ Contexts.context o ∨ c = Contexts.id o → plain c) →
  Contexts.open s = true →
  let sent := Contexts.enumerable (contexts_deduped o) in
  let handle := Contexts.wrap (Raw (contexts_deduped o)) in
  Contexts.wire (after (Contexts.post o reply) s)
    = Contexts.wire s ++ [ReqUpdate sent] ∧
  NoDup (Contexts.context sent) ∧
  (∀ c, c ∈ Contexts.context sent ↔ c ∈ Contexts.context o) ∧
  (NoDup (Contexts.context o) → Contexts.context sent = Contexts.context o) ∧
  (∀ p, reply = Ok p →
        outcome (Contexts.post o reply) s = Ok handle ∧
        (contexts_matching s (contexts_deduped o) ≠ [] →
         Contexts.objectMap (after (Contexts.post o reply) s) !! Contexts.id o
         = Some handle)).
Proof.
  intros Hp Hplain Hopen sent handle.
  destruct (contexts_deduped_plain o Hplain) as [Hall Hne]. split_and!.
  - by apply contexts_post_wire.
  - apply dedupe_NoDup.
  - intros c. apply dedupe_elem.
  - apply dedupe_NoDup_id.
  - intros p ->. unfold outcome, after.
    rewrite (contexts_post_accepted o p s Hp Hplain Hopen). cbn [fst snd].
    split; [done|]. intros Hmatch.
    change (Contexts.objectMap
              (after (Contexts.updateCallback (Raw (contexts_deduped o))) s)
            !! Contexts.id o = Some handle).
    rewrite contexts_updateCallback_objectMap by done.
    rewrite bool_decide_eq_true_2 by done. apply lookup_insert_eq.
Qed.

(** X14. Context revision, [#post] on an open connection, with no [count]
    in the prototype of the registry, of an object none of whose contexts,
    and not its id, is a name inherited from [Object.prototype]: exactly
    one update frame is written, carrying the object with each context
    kept at its first place only.  When the server accepts, the call hands
    back the object, behind one new proxy and marked unless it already has
    a property named [__graffitiProxy], and the cache holds that handle
    under the object's id as soon as one of its labels (contexts and id)
    is subscribed. *)
Theorem contexts_post_sends_deduplicated (o : Contexts.object)
    (reply : answer) (s : Contexts.state) :
  Contexts.protoCount s = false →
  (∀ c, c ∈ Contexts.context o ∨ c = Contexts.id o → plain c) →
  Contexts.open s = true →
  let contexts := first_occurrences (Contexts.context o) in
  let sent := {| Contexts.id := Contexts.id o; Contexts.context := contexts;
                 Contexts.payload := Contexts.payload o;
                 Contexts.graffitiProxy := false |} in
  let handle :=
    if Contexts.graffitiProxy o
       || bool_decide ("__graffitiProxy" ∈ (Contexts.payload o).*1)
    then Raw {| Contexts.id := Contexts.id o; Contexts.context := contexts;
                Contexts.payload := Contexts.payload o;
                Contexts.graffitiProxy := Contexts.graffitiProxy o |}
    else Proxy (Raw {| Contexts.id := Contexts.id o;
                       Contexts.context := contexts;
                       Contexts.payload := Contexts.payload o;
                       Contexts.graffitiProxy := true |}) in
  Contexts.wire (after (Contexts.post o reply) s)
    = Contexts.wire s ++ [ReqUpdate sent] ∧
  NoDup contexts ∧
  (∀ c, c ∈ contexts ↔ c ∈ Contexts.context o) ∧
  (∀ p, reply = Ok p →
        outcome (Contexts.post o reply) s = Ok handle ∧
        ((∃ c, (c ∈ Contexts.context o ∨ c = Contexts.id o) ∧
               is_Some (Contexts.contextMap s !! c)) →
         Contexts.objectMap (after (Contexts.post o reply) s) !! Contexts.id o
         = Some handle)).
Proof.
  intros Hp Hplain Hopen contexts sent handle.
  destruct (contexts_post_frame o reply s Hp Hplain Hopen)
    as (Hwire & Hnd & Helem & _ & Haccept).
  assert (Contexts.wrap (Raw (contexts_deduped o)) = handle) as Hhandle.
  { unfold Contexts.wrap, Contexts.has_marker, contexts_deduped. subst handle.
    cbn [deref Contexts.graffitiProxy Contexts.payload].
    rewrite dedupe_first_occurrences.
    by destruct (Contexts.graffitiProxy o || _). }
  assert (Contexts.enumerable (contexts_deduped o) = sent) as Hsent.
  { unfold Contexts.enumerable, contexts_deduped. simpl.
    by rewrite dedupe_first_occurrences. }
  rewrite Hsent in Hwire, Hnd, Helem. rewrite Hhandle in Haccept.
  split_and!; [exact Hwire|exact Hnd|exact Helem|].
  intros p Hreply. destruct (Haccept p Hreply) as [Hout Hcache].
  split; [exact Hout|]. intros (c & Hc & Hsome). apply Hcache.
  apply filter_nonempty_exists. exists c. split; [|done].
  apply contexts_labels_elem. simpl.
  destruct Hc as [Hc|Hc]; [left; by rewrite dedupe_elem|by right].
Qed.

(** A post with a repeated context on a fresh client. *)
Lemma contexts_post_sends_deduplicated_witness :
  Contexts.wire
    (after (Contexts.post (Samples.filed "a1" ["a"; "b"; "a"] "t") (Ok []))
           Contexts.connected)
  = Contexts.wire Contexts.connected ++
    [ReqUpdate {| Contexts.id := "a1"; Contexts.context := ["a"; "b"];
                  Contexts.payload := [("title", "t")];
                  Contexts.graffitiProxy := false |}].
Proof.
  assert (∀ c, c ∈ ["a"; "b"; "a"] ∨ c = "a1" → plain c) as Hplain.
  { intros c Hc. assert (c ∈ ["a"; "b"; "a"; "a1"]) as Hin.
    { rewrite !elem_of_cons in *. tauto. }
    clear Hc. revert c Hin. apply (proj1 (Forall_forall _ _)).
    apply (bool_decide_eq_true_1 _). vm_compute. reflexivity. }
  exact (proj1 (contexts_post_sends_deduplicated
                  (Samples.filed "a1" ["a"; "b"; "a"] "t") (Ok [])
                  Contexts.connected eq_refl Hplain eq_refl)).
Defined.

(** ** Pushed objects become visible *)

Section TagsVisible.
Import Tags TagsPlain.

Lemma tags_inbound_update_lookup o uuid s t :
  protoCount s = false → Forall plain (_tags o) → uuid ≠ "__proto__" →
  objectUUID o = Ok uuid →
  tagMap (after (onMessage (FUpdate o)) s) !! t
  = (if bool_decide (t ∈ _tags o) then tags_listed uuid else Datatypes.id)
    <$> tagMap s !! t.
Proof.
  intros Hp Hplain Hne Huuid. unfold after.
  rewrite (tags_inbound_update o uuid s Hp Hplain Hne Huuid).
  cbn [snd].
  destruct (tags_add_uuid_fold uuid (_tags o) (tagMap s) false) as [Hm _].
  by destruct (foldl (add_uuid uuid) (tagMap s, false) (_tags o)).2; simpl.
Qed.

Lemma tags_inbound_update_objectMap o uuid s :
  protoCount s = false → Forall plain (_tags o) → uuid ≠ "__proto__" →
  objectUUID o = Ok uuid →
  objectMap (after (onMessage (FUpdate o)) s)
  = if bool_decide (tags_matching s o ≠ [])
    then <[uuid := tags_installed uuid o]> (objectMap s)
    else objectMap s.
Proof.
  intros Hp Hplain Hne Huuid. unfold after.
  rewrite (tags_inbound_update o uuid s Hp Hplain Hne Huuid).
  cbn [snd].
  destruct (tags_add_uuid_fold uuid (_tags o) (tagMap s) false) as [_ Hb].
  rewrite Hb. cbn [orb]. fold (tags_matching s o).
  by destruct (bool_decide (tags_matching s o ≠ [])).
Qed.

Lemma tags_inbound_update_protoCount o uuid s :
  protoCount s = false → Forall plain (_tags o) → uuid ≠ "__proto__" →
  objectUUID o = Ok uuid →
  protoCount (after (onMessage (FUpdate o)) s) = false.
Proof.
  intros Hp Hplain Hne Huuid. unfold after.
  rewrite (tags_inbound_update o uuid s Hp Hplain Hne Huuid).
  cbn [snd]. by destruct (foldl _ _ _).2.
Qed.

End TagsVisible.

(** X15. On a client whose registry prototype holds no [count], an object
    pushed by the server, with no label inherited from [Object.prototype]
    and an identifier other than [__proto__], is handed out by [objects]
    for every list of subscribed labels that holds one of the object's
    labels: the array contains the cache entry installed for the push. *)
Theorem pushed_object_is_visible :
  (∀ s o uuid t tags,
     Tags.protoCount s = false → Forall plain (Tags._tags o) →
     uuid ≠ "__proto__" →
     Tags.objectUUID o = Ok uuid →
     t ∈ Tags._tags o → Some t ∈ tags →
     (∀ t', Some t' ∈ tags → is_Some (Tags.tagMap s !! t')) →
     ∃ elements,
       Tags.objects tags (after (Tags.onMessage (FUpdate o)) s)
       = Objects elements ∧
       Own (tags_installed uuid o) ∈ elements) ∧
  (∀ s o me c contexts,
     Contexts.protoCount s = false →
     (∀ c', c' ∈ Contexts.context o ∨ c' = Contexts.id o → plain c') →
     c ∈ Contexts.context o ∨ c = Contexts.id o → Some c ∈ contexts →
     (∀ c', Some c' ∈ contexts → is_Some (Contexts.contextMap s !! c')) →
     ∃ elements,
       Contexts.objects me (Some contexts)
         (after (Contexts.onMessage (FUpdate o)) s)
       = Objects elements ∧
       Own (contexts_installed o) ∈ elements).
Proof.
  split.
  - intros s o uuid t tags Hp Hplain Hne Huuid Htag Hin Hall.
    pose proof (tags_inbound_update_protoCount o uuid s Hp Hplain Hne Huuid)
      as Hp'.
    set (s' := after (Tags.onMessage (FUpdate o)) s) in *.
    assert (∀ t', is_Some (Tags.tagMap s' !! t') ↔ is_Some (Tags.tagMap s !! t'))
      as Hdom.
    { intros t'. subst s'.
      rewrite (tags_inbound_update_lookup o uuid s t' Hp Hplain Hne Huuid).
      apply fmap_is_Some. }
    unfold Tags.objects.
    assert (Tags.first_unsubscribed s' (non_null tags) = None) as ->.
    { apply tags_first_unsubscribed_None; [done|]. intros t' Ht'. left.
      apply Hdom, Hall. by apply non_null_elem. }
    destruct (Tags.matched_sets s' (non_null tags)) as [sets|] eqn:Hsets.
    2:{ apply tags_matched_sets_None in Hsets as (t' & Ht' & Hnone).
        apply non_null_elem in Ht'. apply Hall, Hdom in Ht' as [? Hsome].
        congruence. }
    eexists. split; [done|].
    apply (list_elem_of_fmap_2' _ _ uuid).
    + rewrite dedupe_elem, (tags_matched_sets_Some s' _ sets Hsets).
      apply list_elem_of_bind. exists t.
      split; [|by apply non_null_elem].
      subst s'.
      rewrite (tags_inbound_update_lookup o uuid s t Hp Hplain Hne Huuid).
      destruct (Hall t Hin) as [sub Hs]. rewrite Hs. simpl.
      rewrite bool_decide_eq_true_2 by done.
      unfold tags_listed. simpl. apply set_add_elem. by left.
    + unfold Tags.cache_slot. symmetry. apply property_own.
      subst s'.
      rewrite (tags_inbound_update_objectMap o uuid s Hp Hplain Hne Huuid).
      rewrite bool_decide_eq_true_2; [by rewrite lookup_insert_eq|].
      intros Hnil. eapply (filter_nil_not_elem_of _ _ t Hnil); [|done].
      simpl. by apply Hall.
  - intros s o me c contexts Hp Hplain Hlab%contexts_labels_elem Hin Hall.
    assert (Forall plain (Contexts.labels (Contexts.enumerable o))
            ∧ Contexts.id (Contexts.enumerable o) ≠ "__proto__")
      as [Hplain' Hne'] by (by apply contexts_plain_labels).
    set (s' := after (Contexts.onMessage (FUpdate o)) s).
    assert (s' = after (Contexts.updateCallback (Raw (Contexts.enumerable o))) s)
      as Hs'.
    { subst s'. unfold after, Contexts.onMessage. unfold bind.
      by rewrite contexts_updateCallback_eq. }
    assert (Contexts.protoCount s' = false) as Hp'.
    { rewrite Hs'. by apply contexts_updateCallback_protoCount. }
    assert (∀ c', is_Some (Contexts.contextMap s' !! c')
                  ↔ is_Some (Contexts.contextMap s !! c')) as Hdom.
    { intros c'. rewrite Hs', contexts_updateCallback_lookup by done.
      apply fmap_is_Some. }
    unfold Contexts.objects.
    change (default [me] (Some contexts)) with contexts.
    assert (Contexts.first_unsubscribed s' (non_null contexts) = None) as ->.
    { apply contexts_first_unsubscribed_None; [done|]. intros c' Hc'. left.
      apply Hdom, Hall. by apply non_null_elem. }
    destruct (Contexts.matched_sets s' (non_null contexts)) as [sets|]
      eqn:Hsets.
    2:{ apply contexts_matched_sets_None in Hsets as (c' & Hc' & Hnone).
        apply non_null_elem in Hc'. apply Hall, Hdom in Hc' as [? Hsome].
        congruence. }
    eexists. split; [done|].
    apply (list_elem_of_fmap_2' _ _ (Contexts.id o)).
    + rewrite dedupe_elem, (contexts_matched_sets_Some s' _ sets Hsets).
      apply list_elem_of_bind. exists c.
      split; [|by apply non_null_elem].
      rewrite Hs', contexts_updateCallback_lookup by done.
      destruct (Hall c Hin) as [sub Hs]. rewrite Hs. simpl.
      rewrite bool_decide_eq_true_2 by done.
      unfold contexts_listed. simpl. apply set_add_elem. by left.
    + unfold Contexts.cache_slot. symmetry. apply property_own.
      rewrite Hs', contexts_updateCallback_objectMap by done.
      rewrite bool_decide_eq_true_2;
        [by rewrite lookup_insert_eq, contexts_wrap_enumerable|].
      intros Hnil. eapply (filter_nil_not_elem_of _ _ c Hnil); [|done].
      simpl. by apply Hall.
Qed.

(** A subscriber to "news" receives "a1". *)
Lemma pushed_object_is_visible_witness :
  let s := after (Contexts.subscribe [Some "news"] (Ok [])) Contexts.connected in
  let o := Samples.filed "a1" ["news"] "t" in
  ∃ elements,
    Contexts.objects None (Some [Some "news"])
      (after (Contexts.onMessage (FUpdate o)) s) = Objects elements ∧
    Own (contexts_installed o) ∈ elements.
Proof.
  intros s o.
  apply (proj2 pushed_object_is_visible s o None "news" [Some "news"]).
  - reflexivity.
  - intros c Hc. assert (c ∈ ["news"; "a1"]) as Hin.
    { simpl in Hc. rewrite !elem_of_cons in *. tauto. }
    clear Hc. revert c Hin. apply (proj1 (Forall_forall _ _)).
    apply (bool_decide_eq_true_1 _). vm_compute. reflexivity.
  - left. apply list_elem_of_here.
  - apply list_elem_of_here.
  - intros c' Hc'. apply list_elem_of_singleton in Hc'. injection Hc' as ->.
    vm_compute. by eexists.
Defined.
